(** * AI flashcard generator: prompt builder, response normalizer, card
      renderer, document parser and AI service

    A shallow embedding of [src/utils/promptBuilder.ts],
    [src/services/cardGenerator.ts], [src/services/documentParser.ts] and
    [src/services/aiService.ts], together with the parts of the JavaScript
    run time these functions call ([String.prototype.trim], [split],
    [JSON.parse], [JSON.stringify], [String(...)], the regular
    expressions), and the properties of the specification and of the code
    stated over that embedding. *)

From Stdlib Require Import String Ascii NArith ZArith Bool List Lia.
Import ListNotations.

(* ================================================================= *)
(** ** JavaScript strings *)

(** A JavaScript string is a sequence of UTF-16 code units; [length],
    [trim], [includes] and regular expressions without the [u] flag all work
    on code units. *)
Module JsString.

Abbreviation code_unit := N.
Abbreviation jsstring := (list code_unit).

(** [a === b] on strings. *)
Fixpoint eqb_string (a b : jsstring) : bool :=
  match a, b with
  | [], [] => true
  | x :: a', y :: b' => (x =? y)%N && eqb_string a' b'
  | _, _ => false
  end.

(** Source literals are written in UTF-8 in this file and decoded to the
    UTF-16 code units the TypeScript compiler gives them. *)
Fixpoint utf8_decode (bs : list N) : jsstring :=
  match bs with
  | [] => []
  | b :: t =>
    if b <? 128 then b :: utf8_decode t
    else if b <? 224 then
      match t with
      | b2 :: t2 =>
          (N.land b 31 * 64 + N.land b2 63) :: utf8_decode t2
      | _ => []
      end
    else if b <? 240 then
      match t with
      | b2 :: b3 :: t3 =>
          (N.land b 15 * 4096 + N.land b2 63 * 64 + N.land b3 63)
            :: utf8_decode t3
      | _ => []
      end
    else
      match t with
      | b2 :: b3 :: b4 :: t4 =>
          let cp := N.land b 7 * 262144 + N.land b2 63 * 4096
                    + N.land b3 63 * 64 + N.land b4 63 in
          let v := cp - 65536 in
          (55296 + v / 1024) :: (56320 + v mod 1024) :: utf8_decode t4
      | _ => []
      end
  end%N.

Definition js (s : string) : jsstring :=
  utf8_decode (map N_of_ascii (list_ascii_of_string s)).

(** The double quote. *)
Definition dq : jsstring := [34%N].

(** [WhiteSpace] and [LineTerminator] of ECMAScript: what [trim] strips
    and what the class [\s] matches. *)
Definition isWhiteSpace (c : code_unit) : bool :=
  ((9 <=? c) && (c <=? 13) || (c =? 32) || (c =? 160) || (c =? 5760)
   || (8192 <=? c) && (c <=? 8202) || (c =? 8232) || (c =? 8233)
   || (c =? 8239) || (c =? 8287) || (c =? 12288) || (c =? 65279))%N.

(** What the regular-expression atom [.] refuses (no [s] flag). *)
Definition isLineTerminator (c : code_unit) : bool :=
  ((c =? 10) || (c =? 13) || (c =? 8232) || (c =? 8233))%N.

Definition isDigit (c : code_unit) : bool := ((48 <=? c) && (c <=? 57))%N.

Fixpoint trimStart (s : jsstring) : jsstring :=
  match s with
  | [] => []
  | c :: t => if isWhiteSpace c then trimStart t else s
  end.

Fixpoint trimEnd (s : jsstring) : jsstring :=
  match s with
  | [] => []
  | c :: t =>
      match trimEnd t with
      | [] => if isWhiteSpace c then [] else [c]
      | t' => c :: t'
      end
  end.

(** [String.prototype.trim] *)
Definition trim (s : jsstring) : jsstring := trimEnd (trimStart s).

(** [s.startsWith(p)], returning what follows the prefix. *)
Fixpoint stripPrefix (p s : jsstring) : option jsstring :=
  match p, s with
  | [], _ => Some s
  | a :: p', b :: s' => if (a =? b)%N then stripPrefix p' s' else None
  | _ :: _, [] => None
  end.

Definition startsWith (p s : jsstring) : bool :=
  match stripPrefix p s with Some _ => true | None => false end.

(** [s.includes(p)] *)
Fixpoint includes (p s : jsstring) : bool :=
  startsWith p s ||
  match s with
  | [] => false
  | _ :: t => includes p t
  end.

(** [Array.prototype.join] on strings. *)
Fixpoint join (sep : jsstring) (l : list jsstring) : jsstring :=
  match l with
  | [] => []
  | [x] => x
  | x :: t => x ++ sep ++ join sep t
  end.

(** [s.split(sep)] for a separator of one character: the pieces between
    the separators, in order; a text without the separator is the one
    piece.  [piece] holds the characters read since the last separator. *)
Fixpoint splitFrom (sep : code_unit) (piece s : jsstring)
  : list jsstring :=
  match s with
  | [] => [piece]
  | c :: t =>
      if (c =? sep)%N then piece :: splitFrom sep [] t
      else splitFrom sep (piece ++ [c]) t
  end.

Definition split (sep : code_unit) (s : jsstring) : list jsstring :=
  splitFrom sep [] s.

End JsString.
Import JsString.

(* ================================================================= *)
(** ** JavaScript numbers *)

(** A Number is an IEEE 754 binary64 value.  What the embedded code does
    with numbers is read them from a JSON literal, test them for truthiness
    and print them with [String(...)] or a template literal; these three
    operations are defined on exact integer arithmetic. *)
Module JsNumber.
Local Open Scope Z_scope.

(** A finite non-zero value is [m * 2^e] with [2^52 <= m < 2^53], or with
    [0 < m < 2^52] and [e = -1074] (subnormal). *)
Inductive number : Type :=
| NaN
| Zero (neg : bool)
| Inf (neg : bool)
| Fin (neg : bool) (m e : Z).

Definition eqb_number (a b : number) : bool :=
  match a, b with
  | NaN, NaN => true
  | Zero s, Zero s' => Bool.eqb s s'
  | Inf s, Inf s' => Bool.eqb s s'
  | Fin s m e, Fin s' m' e' => Bool.eqb s s' && (m =? m') && (e =? e')
  | _, _ => false
  end.

(** The binary64 value nearest to [p / q] (ties to even), for [q > 0]. *)
Definition roundRatio (neg : bool) (p q : Z) : number :=
  if p <=? 0 then Zero neg else
  let e0 := Z.log2 p - Z.log2 q - 52 in
  let reaches (e : Z) :=
    if 0 <=? e + 52 then q * 2 ^ (e + 52) <=? p
    else q <=? p * 2 ^ (- (e + 52)) in
  let e1 := if reaches e0 then e0 else e0 - 1 in
  let e := Z.max e1 (-1074) in
  let num := if 0 <=? e then p else p * 2 ^ (- e) in
  let den := if 0 <=? e then q * 2 ^ e else q in
  let m0 := num / den in
  let r := num mod den in
  let m1 := if (den <? 2 * r) || ((den =? 2 * r) && Z.odd m0)
            then m0 + 1 else m0 in
  let m := if m1 =? 2 ^ 53 then 2 ^ 52 else m1 in
  let e' := if m1 =? 2 ^ 53 then e + 1 else e in
  if m =? 0 then Zero neg
  else if 971 <? e' then Inf neg
  else Fin neg m e'.

Definition digitValue (c : code_unit) : Z := Z.of_N c - 48.

Definition digitsValue (ds : jsstring) : Z :=
  fold_left (fun acc c => acc * 10 + digitValue c) ds 0.

(** The value of the decimal literal
    [(-)? int (. frac)? (e (-)? exp)?] ([StringToNumber]). *)
Definition ofDecimal (neg : bool) (int frac : jsstring)
           (expNeg : bool) (exp : jsstring) : number :=
  let mant := digitsValue (int ++ frac) in
  let ex := (if expNeg then - digitsValue exp else digitsValue exp)
            - Z.of_nat (length frac) in
  if 0 <=? ex then roundRatio neg (mant * 10 ^ ex) 1
  else roundRatio neg mant (10 ^ (- ex)).

Fixpoint digitsOf (fuel : nat) (v : Z) (acc : jsstring) : jsstring :=
  match fuel with
  | O => acc
  | S f =>
      let acc' := Z.to_N (48 + v mod 10) :: acc in
      if v <? 10 then acc' else digitsOf f (v / 10) acc'
  end.

(** The decimal digits of a non-negative integer. *)
Definition decimal (v : Z) : jsstring :=
  digitsOf (S (Z.to_nat (Z.log2 v))) v [].

Fixpoint scaleUp (fuel : nat) (p q t : Z) : Z :=
  match fuel with
  | O => t
  | S f => if q <=? p then t else scaleUp f (p * 10) q (t + 1)
  end.

(** The [n] with [10^(n-1) <= p/q < 10^n]. *)
Definition pointPosition (p q : Z) : Z :=
  if q <=? p then Z.of_nat (length (decimal (p / q)))
  else 1 - scaleUp 400 p q 0.

(** With [k] digits: the [s] (and its [n]) such that [s * 10^(n-k)] is
    nearest to [p/q] among those that read back as [x], if any. *)
Definition candidate (x : number) (p q n k : Z) : option (Z * Z) :=
  let sh := n - k in
  let num := if 0 <=? sh then p else p * 10 ^ (- sh) in
  let den := if 0 <=? sh then q * 10 ^ sh else q in
  let lo := num / den in
  let r := num mod den in
  let hi := lo + 1 in
  let value s :=
    if 0 <=? sh then roundRatio false (s * 10 ^ sh) 1
    else roundRatio false s (10 ^ (- sh)) in
  let okLo := eqb_number (value lo) x in
  let okHi := eqb_number (value hi) x in
  let preferLo := (2 * r <? den) || ((2 * r =? den) && Z.even lo) in
  if okLo && (preferLo || negb okHi) then Some (lo, n)
  else if okHi then
    Some (if hi =? 10 ^ k then (10 ^ (k - 1), n + 1) else (hi, n))
  else None.

Fixpoint shortest (fuel : nat) (x : number) (p q n k : Z) : Z * Z * Z :=
  match fuel with
  | O => (p / q, k, n)
  | S f =>
      match candidate x p q n k with
      | Some (s, n') => (s, k, n')
      | None => shortest f x p q n (k + 1)
      end
  end.

Definition zeros (n : Z) : jsstring := repeat 48%N (Z.to_nat n).

(** Steps 7 to 11 of [Number::toString] for radix 10. *)
Definition formatDecimal (digits : jsstring) (k n : Z) : jsstring :=
  if (k <=? n) && (n <=? 21) then digits ++ zeros (n - k)
  else if (0 <? n) && (n <=? 21) then
    firstn (Z.to_nat n) digits ++ js "." ++ skipn (Z.to_nat n) digits
  else if (-6 <? n) && (n <=? 0) then js "0." ++ zeros (- n) ++ digits
  else
    let mant := match digits with
                | d :: (_ :: _) as rest => d :: js "." ++ rest
                | _ => digits
                end in
    mant ++ js "e" ++ (if 0 <=? n - 1 then js "+" else js "-")
         ++ decimal (Z.abs (n - 1)).

(** [Number::toString(x)]: what [String(x)] and a template literal give. *)
Definition toString (x : number) : jsstring :=
  match x with
  | NaN => js "NaN"
  | Zero _ => js "0"
  | Inf neg => (if neg then js "-" else []) ++ js "Infinity"
  | Fin neg m e =>
      let p := if 0 <=? e then m * 2 ^ e else m in
      let q := if 0 <=? e then 1 else 2 ^ (- e) in
      let n := pointPosition p q in
      let '(s, k, n') := shortest 17 (Fin false m e) p q n 1 in
      (if neg then js "-" else []) ++ formatDecimal (decimal s) k n'
  end.

(** [ToBoolean] on a Number. *)
Definition truthy (x : number) : bool :=
  match x with
  | NaN | Zero _ => false
  | _ => true
  end.

Definition ofZ (z : Z) : number :=
  roundRatio (z <? 0) (Z.abs z) 1.

End JsNumber.


(* ================================================================= *)
(** ** Exceptions *)

(** A JavaScript computation returns a value or throws.  [IllTyped] is the
    embedding's own marker for a value outside its TypeScript type at an
    unchecked cast ([as CardType]); no run of the program raises it (see
    [normalizeCard_throws]). *)
Inductive exn : Type :=
| SyntaxError
| TypeError
| Error (message : jsstring)
| Rejected (reason : jsstring)
| IllTyped.

Inductive outcome (A : Type) : Type :=
| Return (a : A)
| Throw (e : exn).
Arguments Return {A} a.
Arguments Throw {A} e.

Definition bindO {A B} (x : outcome A) (f : A -> outcome B) : outcome B :=
  match x with
  | Return a => f a
  | Throw e => Throw e
  end.

Notation "x <- a ;; b" := (bindO a (fun x => b))
  (at level 61, a at next level, right associativity).

(** [try { body } catch (error) { handler }] *)
Definition tryCatch {A} (body : outcome A) (handler : exn -> outcome A)
  : outcome A :=
  match body with
  | Return a => Return a
  | Throw e => handler e
  end.

(** [array.map(f)] where [f] may throw: the first exception ends the map. *)
Definition mapO {A B} (f : A -> outcome B) : list A -> outcome (list B) :=
  fix go (l : list A) : outcome (list B) :=
    match l with
    | [] => Return []
    | a :: t => b <- f a;; bs <- go t;; Return (b :: bs)
    end.

(* ================================================================= *)
(** ** JSON values, [JSON.parse], [JSON.stringify] and [String(...)] *)

Module Json.
Import JsNumber.
Local Open Scope N_scope.

(** What [JSON.parse] returns.  An object keeps its members as written;
    a property read ([getProp]) takes the last one of a name, which is the
    one [JSON.parse] leaves in the object. *)
#[local] Unset Elimination Schemes.
Inductive value : Type :=
| JNull
| JBool (b : bool)
| JNumber (n : number)
| JString (s : jsstring)
| JArray (items : list value)
| JObject (members : list (jsstring * value)).
#[local] Set Elimination Schemes.

(** *** Lexical level *)

(** JSON white space: tab, line feed, carriage return, space. *)
Definition isJsonSpace (c : code_unit) : bool :=
  (c =? 9) || (c =? 10) || (c =? 13) || (c =? 32).

Fixpoint skipSpace (s : jsstring) : jsstring :=
  match s with
  | c :: t => if isJsonSpace c then skipSpace t else s
  | [] => []
  end.

Definition hexValue (c : code_unit) : option N :=
  if (48 <=? c) && (c <=? 57) then Some (c - 48)
  else if (97 <=? c) && (c <=? 102) then Some (c - 87)
  else if (65 <=? c) && (c <=? 70) then Some (c - 55)
  else None.

Definition hex4 (a b c d : code_unit) : option code_unit :=
  match hexValue a, hexValue b, hexValue c, hexValue d with
  | Some x, Some y, Some z, Some w => Some (x * 4096 + y * 256 + z * 16 + w)
  | _, _, _, _ => None
  end.

(** The character a single-letter escape stands for. *)
Definition escapeValue (c : code_unit) : option code_unit :=
  if c =? 34 then Some 34          (* backslash, quote *)
  else if c =? 92 then Some 92     (* \\ *)
  else if c =? 47 then Some 47     (* \/ *)
  else if c =? 98 then Some 8      (* \b *)
  else if c =? 102 then Some 12    (* \f *)
  else if c =? 110 then Some 10    (* \n *)
  else if c =? 114 then Some 13    (* \r *)
  else if c =? 116 then Some 9     (* \t *)
  else None.

(** The characters of a string literal after its opening quote, up to and
    including the closing quote. *)
Fixpoint parseChars (s : jsstring) : option (jsstring * jsstring) :=
  match s with
  | [] => None
  | c :: t =>
      if c =? 34 then Some ([], t)
      else if c =? 92 then
        match t with
        | [] => None
        | e :: t' =>
            if e =? 117 then
              match t' with
              | h1 :: h2 :: h3 :: h4 :: t'' =>
                  match hex4 h1 h2 h3 h4 with
                  | Some u =>
                      match parseChars t'' with
                      | Some (cs, r) => Some (u :: cs, r)
                      | None => None
                      end
                  | None => None
                  end
              | _ => None
              end
            else
              match escapeValue e with
              | Some u =>
                  match parseChars t' with
                  | Some (cs, r) => Some (u :: cs, r)
                  | None => None
                  end
              | None => None
              end
        end
      else if c <? 32 then None
      else
        match parseChars t with
        | Some (cs, r) => Some (c :: cs, r)
        | None => None
        end
  end.

Fixpoint spanDigits (s : jsstring) : jsstring * jsstring :=
  match s with
  | c :: t =>
      if isDigit c then let '(ds, r) := spanDigits t in (c :: ds, r)
      else ([], s)
  | [] => ([], [])
  end.

(** [int]: a single [0], or a non-zero digit and more digits. *)
Definition parseInt (s : jsstring) : option (jsstring * jsstring) :=
  match s with
  | c :: t =>
      if c =? 48 then Some ([c], t)
      else if isDigit c then let '(ds, r) := spanDigits t in Some (c :: ds, r)
      else None
  | [] => None
  end.

(** [frac]: nothing, or a point and at least one digit. *)
Definition parseFrac (s : jsstring) : option (jsstring * jsstring) :=
  match s with
  | c :: t =>
      if c =? 46 then
        match spanDigits t with
        | ([], _) => None
        | (ds, r) => Some (ds, r)
        end
      else Some ([], s)
  | [] => Some ([], [])
  end.

(** [exp]: nothing, or [e]/[E], a sign and at least one digit. *)
Definition parseExp (s : jsstring) : option (bool * jsstring * jsstring) :=
  match s with
  | c :: t =>
      if (c =? 101) || (c =? 69) then
        let '(neg, t') :=
          match t with
          | sg :: u =>
              if sg =? 45 then (true, u)
              else if sg =? 43 then (false, u)
              else (false, t)
          | [] => (false, t)
          end in
        match spanDigits t' with
        | ([], _) => None
        | (ds, r) => Some (neg, ds, r)
        end
      else Some (false, [], s)
  | [] => Some (false, [], [])
  end.

Definition parseNumber (s : jsstring) : option (number * jsstring) :=
  let '(neg, s1) :=
    match s with
    | c :: t => if c =? 45 then (true, t) else (false, s)
    | [] => (false, s)
    end in
  match parseInt s1 with
  | None => None
  | Some (int, s2) =>
      match parseFrac s2 with
      | None => None
      | Some (frac, s3) =>
          match parseExp s3 with
          | None => None
          | Some (expNeg, ex, s4) =>
              Some (ofDecimal neg int frac expNeg ex, s4)
          end
      end
  end.

(** *** Grammar *)

(** [parseValue] reads one value after optional white space and returns
    it with what follows; [parseElements] reads [value (, value)* ]] and
    [parseMembers] reads [string : value (, string : value)* }].  The
    recursion is on a step counter, since the input shrinks but not
    structurally; [parse] gives it more steps than any input can use
    (lemma [parse_steps_enough]). *)
Fixpoint parseValue (fuel : nat) (s : jsstring)
  : option (value * jsstring) :=
  match fuel with
  | O => None
  | S f =>
      match skipSpace s with
      | [] => None
      | c :: t =>
          if c =? 123 then                         (* { *)
            match skipSpace t with
            | c' :: t' =>
                if c' =? 125 then Some (JObject [], t')
                else match parseMembers f t with
                     | Some (ms, r) => Some (JObject ms, r)
                     | None => None
                     end
            | [] => None
            end
          else if c =? 91 then                     (* [ *)
            match skipSpace t with
            | c' :: t' =>
                if c' =? 93 then Some (JArray [], t')
                else match parseElements f t with
                     | Some (vs, r) => Some (JArray vs, r)
                     | None => None
                     end
            | [] => None
            end
          else if c =? 34 then
            match parseChars t with
            | Some (cs, r) => Some (JString cs, r)
            | None => None
            end
          else if c =? 116 then                    (* true *)
            match stripPrefix (js "rue") t with
            | Some r => Some (JBool true, r)
            | None => None
            end
          else if c =? 102 then                    (* false *)
            match stripPrefix (js "alse") t with
            | Some r => Some (JBool false, r)
            | None => None
            end
          else if c =? 110 then                    (* null *)
            match stripPrefix (js "ull") t with
            | Some r => Some (JNull, r)
            | None => None
            end
          else
            match parseNumber (c :: t) with
            | Some (n, r) => Some (JNumber n, r)
            | None => None
            end
      end
  end

with parseElements (fuel : nat) (s : jsstring)
  : option (list value * jsstring) :=
  match fuel with
  | O => None
  | S f =>
      match parseValue f s with
      | None => None
      | Some (v, r) =>
          match skipSpace r with
          | c :: t =>
              if c =? 44 then
                match parseElements f t with
                | Some (vs, r') => Some (v :: vs, r')
                | None => None
                end
              else if c =? 93 then Some ([v], t)
              else None
          | [] => None
          end
      end
  end

with parseMembers (fuel : nat) (s : jsstring)
  : option (list (jsstring * value) * jsstring) :=
  match fuel with
  | O => None
  | S f =>
      match skipSpace s with
      | q :: t =>
          if q =? 34 then
            match parseChars t with
            | None => None
            | Some (k, r) =>
                match skipSpace r with
                | c :: r1 =>
                    if c =? 58 then
                      match parseValue f r1 with
                      | None => None
                      | Some (v, r2) =>
                          match skipSpace r2 with
                          | d :: r3 =>
                              if d =? 44 then
                                match parseMembers f r3 with
                                | Some (ms, r') => Some ((k, v) :: ms, r')
                                | None => None
                                end
                              else if d =? 125 then Some ([(k, v)], r3)
                              else None
                          | [] => None
                          end
                      end
                    else None
                | [] => None
                end
            end
          else None
      | [] => None
      end
  end.

(** [JSON.parse(text)]: one value, white space around it, nothing else. *)
Definition parse (text : jsstring) : outcome value :=
  match parseValue (2 * length text + 2) text with
  | Some (v, r) =>
      match skipSpace r with
      | [] => Return v
      | _ :: _ => Throw SyntaxError
      end
  | None => Throw SyntaxError
  end.

(** *** Property reads, truthiness, [String(...)] *)

Fixpoint lookupLast (k : jsstring) (ms : list (jsstring * value))
  : option value :=
  match ms with
  | [] => None
  | (k', v) :: t =>
      match lookupLast k t with
      | Some w => Some w
      | None => if eqb_string k' k then Some v else None
      end
  end.

(** [v.k] for one of the names the program reads ([type], [front],
    [back], [clozeText], [toString]): an own property of an object; an
    array has none of these names, and [Object.prototype] and
    [Array.prototype] carry no data under them.  [None] is [undefined]. *)
Definition getProp (v : value) (k : jsstring) : option value :=
  match v with
  | JObject ms => lookupLast k ms
  | _ => None
  end.

(** [ToBoolean] *)
Definition truthy (v : value) : bool :=
  match v with
  | JNull => false
  | JBool b => b
  | JNumber n => JsNumber.truthy n
  | JString s => match s with [] => false | _ => true end
  | JArray _ | JObject _ => true
  end.

(** [x || ''] with [x] a property that may be [undefined]. *)
Definition orEmpty (x : option value) : value :=
  match x with
  | Some v => if truthy v then v else JString []
  | None => JString []
  end.

(** [String(v)] ([ToString]).  An array prints as its elements joined by
    commas, with [null] printing as nothing ([Array.prototype.join]); a
    plain object prints as [[object Object]] through
    [Object.prototype.toString], unless it has a member named [toString]:
    that member shadows the method, is not callable, and [ToPrimitive]
    throws a [TypeError]. *)
Fixpoint toString (v : value) : outcome jsstring :=
  match v with
  | JNull => Return (js "null")
  | JBool b => Return (if b then js "true" else js "false")
  | JNumber n => Return (JsNumber.toString n)
  | JString s => Return s
  | JArray items =>
      strs <- mapO (fun x => match x with
                             | JNull => Return []
                             | _ => toString x
                             end) items;;
      Return (join (js ",") strs)
  | JObject ms =>
      match lookupLast (js "toString") ms with
      | Some _ => Throw TypeError
      | None => Return (js "[object Object]")
      end
  end.

(** *** [JSON.stringify] *)

Definition hexDigit (n : N) : code_unit :=
  if n <? 10 then 48 + n else 87 + n.

(** [\uXXXX] with lower-case digits. *)
Definition unicodeEscape (c : code_unit) : jsstring :=
  [92; 117; hexDigit (c / 4096 mod 16); hexDigit (c / 256 mod 16);
   hexDigit (c / 16 mod 16); hexDigit (c mod 16)].

Definition isHighSurrogate (c : code_unit) : bool :=
  (55296 <=? c) && (c <=? 56319).
Definition isLowSurrogate (c : code_unit) : bool :=
  (56320 <=? c) && (c <=? 57343).

(** One code unit that is not part of a surrogate pair
    ([QuoteJSONString], per code point). *)
Definition quoteUnit (c : code_unit) : jsstring :=
  if c =? 8 then js "\b"
  else if c =? 9 then js "\t"
  else if c =? 10 then js "\n"
  else if c =? 12 then js "\f"
  else if c =? 13 then js "\r"
  else if c =? 34 then [92; 34]
  else if c =? 92 then [92; 92]
  else if (c <? 32) || isHighSurrogate c || isLowSurrogate c
  then unicodeEscape c
  else [c].

Fixpoint quoteChars (s : jsstring) : jsstring :=
  match s with
  | [] => []
  | c :: t =>
      match t with
      | d :: t' =>
          if isHighSurrogate c && isLowSurrogate d
          then c :: d :: quoteChars t'
          else quoteUnit c ++ quoteChars t
      | [] => quoteUnit c
      end
  end.

Definition quote (s : jsstring) : jsstring := dq ++ quoteChars s ++ dq.

Definition isFinite (n : number) : bool :=
  match n with
  | Zero _ | Fin _ _ _ => true
  | NaN | Inf _ => false
  end.

(** [JSON.stringify(v)] without indentation. *)
Fixpoint stringify (v : value) : jsstring :=
  match v with
  | JNull => js "null"
  | JBool b => if b then js "true" else js "false"
  | JNumber n => if isFinite n then JsNumber.toString n else js "null"
  | JString s => quote s
  | JArray items =>
      js "[" ++ join (js ",") (map stringify items) ++ js "]"
  | JObject ms =>
      js "{"
         ++ join (js ",")
                 (map (fun m => quote (fst m) ++ js ":" ++ stringify (snd m))
                      ms)
         ++ js "}"
  end.

End Json.

(* ================================================================= *)
(** ** Regular expressions *)

(** The backtracking matcher of ECMAScript, for the constructs the program's
    patterns use.  A pattern is written in continuation-passing style:
    each piece takes the matcher of what follows it, so a quantifier can try
    its alternatives in the order the language fixes (greedy: longest first;
    lazy: shortest first). *)
Module RegExp.

Section Matcher.
Variable R : Type.

Definition cont : Type := jsstring -> option R.

(** A literal sequence of characters. *)
Definition lit (p : jsstring) (k : cont) : cont :=
  fun s => match stripPrefix p s with
           | Some r => k r
           | None => None
           end.

(** [c*] for a character class [c]: as many as possible, then fewer. *)
Fixpoint greedyStar (cls : code_unit -> bool) (k : cont) (s : jsstring)
  : option R :=
  match s with
  | c :: t =>
      if cls c then
        match greedyStar cls k t with
        | Some r => Some r
        | None => k s
        end
      else k s
  | [] => k []
  end.

(** [c+] *)
Definition greedyPlus (cls : code_unit -> bool) (k : cont) : cont :=
  fun s => match s with
           | c :: t => if cls c then greedyStar cls k t else None
           | [] => None
           end.

(** One character of a class [[...]]. *)
Definition oneOf (cls : code_unit -> bool) (k : cont) : cont :=
  fun s => match s with
           | c :: t => if cls c then k t else None
           | [] => None
           end.

(** [c{n,}]: [n] characters of the class, then as many more as
    possible. *)
Fixpoint atLeast (n : nat) (cls : code_unit -> bool) (k : cont)
         (s : jsstring) : option R :=
  match n with
  | O => greedyStar cls k s
  | S n' =>
      match s with
      | c :: t => if cls c then atLeast n' cls k t else None
      | [] => None
      end
  end.

(** [(c*?)]: as few as possible, then more; the continuation receives
    the captured group. *)
Fixpoint lazyStar (cls : code_unit -> bool) (k : jsstring -> cont)
         (s : jsstring) : option R :=
  match k [] s with
  | Some r => Some r
  | None =>
      match s with
      | c :: t =>
          if cls c then lazyStar cls (fun g => k (c :: g)) t else None
      | [] => None
      end
  end.

(** [s.match(re)] without the [g] flag: the match at the leftmost
    position that has one. *)
Fixpoint search (m : cont) (s : jsstring) : option R :=
  match m s with
  | Some r => Some r
  | None =>
      match s with
      | _ :: t => search m t
      | [] => None
      end
  end.
End Matcher.
Arguments lit {R} p k s.
Arguments greedyStar {R} cls k s.
Arguments greedyPlus {R} cls k s.
Arguments oneOf {R} cls k s.
Arguments atLeast {R} n cls k s.
Arguments lazyStar {R} cls k s.
Arguments search {R} m s.

(** [s.replace(re, ...)] with the [g] flag, for a pattern that matches no
    empty string: [m] gives, for a match at the head, the replacement and
    what follows the match.  After a match the scan resumes behind it:
    [skip] counts the matched characters still to pass. *)
Fixpoint replaceFrom (m : jsstring -> option (jsstring * jsstring))
         (skip : nat) (s : jsstring) : jsstring :=
  match s with
  | [] => []
  | c :: t =>
      match skip with
      | S n => replaceFrom m n t
      | O =>
          match m s with
          | Some (replacement, rest) =>
              replacement ++ replaceFrom m (length t - length rest) t
          | None => c :: replaceFrom m 0 t
          end
      end
  end.

Definition replaceAll (m : jsstring -> option (jsstring * jsstring))
           (s : jsstring) : jsstring :=
  replaceFrom m 0 s.

Definition anyChar (c : code_unit) : bool := true.
Definition notLineTerminator (c : code_unit) : bool :=
  negb (isLineTerminator c).

End RegExp.

(* ================================================================= *)
(** ** [src/types/index.ts] *)

Inductive CardType : Type :=
| Basic           (* 'basic' *)
| BasicReverse    (* 'basic-reverse' *)
| Cloze           (* 'cloze' *)
| ListCard        (* 'list' *)
| Descriptor.     (* 'descriptor' *)

(** The string each member of the union type is. *)
Definition cardTypeName (t : CardType) : jsstring :=
  match t with
  | Basic => js "basic"
  | BasicReverse => js "basic-reverse"
  | Cloze => js "cloze"
  | ListCard => js "list"
  | Descriptor => js "descriptor"
  end.

(** [string | string[]] *)
Inductive Back : Type :=
| BackString (s : jsstring)
| BackList (items : list jsstring).

Record FlashcardData : Type := mkCard {
  type : CardType;
  front : jsstring;
  back : Back;
  clozeText : option jsstring
}.

(* ================================================================= *)
(** ** [src/utils/promptBuilder.ts] *)

Module PromptBuilder.
Import Json RegExp.

Definition nl : jsstring := [10%N].
Definition lines (l : list jsstring) : jsstring := join nl l.

(** [{"k": "v"] pieces of the templates: a quoted name, a colon, a quoted
    text. *)
Definition quoted (s : jsstring) : jsstring := dq ++ s ++ dq.
Definition keyValue (k v : string) : jsstring :=
  quoted (js k) ++ js ": " ++ quoted (js v).
Definition keyEmpty (k : string) : jsstring :=
  quoted (js k) ++ js ": " ++ quoted [].

(** The [descriptions] record of [getCardTypeDescriptions]. *)
Definition descriptions (t : CardType) : jsstring :=
  match t with
  | Basic => lines [
      js "**basic（基础问答卡）**";
      js "  - 用途：简单的问答对";
      js "  - 格式：{" ++ keyValue "type" "basic" ++ js ", "
         ++ keyValue "front" "问题" ++ js ", " ++ keyValue "back" "答案" ++ js "}";
      js "  - 示例：{" ++ keyValue "type" "basic" ++ js ", "
         ++ keyValue "front" "什么是光合作用？" ++ js ", "
         ++ keyValue "back" "植物利用阳光、水和二氧化碳制造葡萄糖和氧气的过程"
         ++ js "}" ]
  | BasicReverse => lines [
      js "**basic-reverse（双向问答卡）**";
      js "  - 用途：需要双向记忆的概念对";
      js "  - 格式：{" ++ keyValue "type" "basic-reverse" ++ js ", "
         ++ keyValue "front" "概念A" ++ js ", " ++ keyValue "back" "概念B"
         ++ js "}";
      js "  - 示例：{" ++ keyValue "type" "basic-reverse" ++ js ", "
         ++ keyValue "front" "中国首都" ++ js ", " ++ keyValue "back" "北京"
         ++ js "}" ]
  | Cloze => lines [
      js "**cloze（填空卡）**";
      js "  - 用途：记忆句子中的关键词或短语";
      js "  - 格式：{" ++ keyValue "type" "cloze" ++ js ", "
         ++ keyEmpty "front" ++ js ", " ++ keyEmpty "back" ++ js ", "
         ++ keyValue "clozeText" "句子，关键词用{{双大括号}}包裹" ++ js "}";
      js "  - 示例：{" ++ keyValue "type" "cloze" ++ js ", "
         ++ keyEmpty "front" ++ js ", " ++ keyEmpty "back" ++ js ", "
         ++ keyValue "clozeText" "光合作用主要发生在植物细胞的{{叶绿体}}中"
         ++ js "}" ]
  | ListCard => lines [
      js "**list（列表卡）**";
      js "  - 用途：需要记忆多个相关项目";
      js "  - 格式：{" ++ keyValue "type" "list" ++ js ", "
         ++ keyValue "front" "问题" ++ js ", " ++ quoted (js "back") ++ js ": ["
         ++ quoted (js "项目1") ++ js ", " ++ quoted (js "项目2") ++ js ", "
         ++ quoted (js "项目3") ++ js "]}";
      js "  - 示例：{" ++ keyValue "type" "list" ++ js ", "
         ++ keyValue "front" "列举三原色" ++ js ", " ++ quoted (js "back")
         ++ js ": [" ++ quoted (js "红色") ++ js ", " ++ quoted (js "绿色")
         ++ js ", " ++ quoted (js "蓝色") ++ js "]}" ]
  | Descriptor => lines [
      js "**descriptor（描述卡）**";
      js "  - 用途：定义某个概念的具体属性";
      js "  - 格式：{" ++ keyValue "type" "descriptor" ++ js ", "
         ++ keyValue "front" "属性名" ++ js ", " ++ keyValue "back" "属性值"
         ++ js "}";
      js "  - 示例：{" ++ keyValue "type" "descriptor" ++ js ", "
         ++ keyValue "front" "化学符号" ++ js ", " ++ keyValue "back" "H2O"
         ++ js "}" ]
  end.

(** A non-empty string is truthy. *)
Definition nonEmpty (s : jsstring) : bool :=
  match s with [] => false | _ :: _ => true end.

Definition getCardTypeDescriptions (cardTypes : list CardType) : jsstring :=
  join (nl ++ nl)
       (map (fun type => descriptions type)
            (filter (fun type => nonEmpty (descriptions type)) cardTypes)).

(** [cardTypes.map(t => `"${t}"`).join(', ')] *)
Definition typeList (cardTypes : list CardType) : jsstring :=
  join (js ", ") (map (fun t => quoted (cardTypeName t)) cardTypes).

(** The template of [buildPrompt], cut at its four interpolations. *)
Definition promptIntro : jsstring := lines [
  js "你是一个专业的教育内容分析师。请分析以下文本，提取关键知识点并生成记忆卡片。";
  [];
  js "## 任务说明";
  js "1. 仔细阅读文本内容，识别重要的知识点、概念、定义、关系等";
  js "2. 为每个知识点选择最合适的卡片类型";
  js "3. 确保问题清晰具体，答案准确简洁";
  js "4. 生成 " ].

Definition promptTypes : jsstring := lines [
  js " 张以内的卡片";
  [];
  js "## 可用的卡片类型";
  [] ].

Definition promptFormat : jsstring := lines [
  [];
  [];
  js "## 输出格式";
  js "请严格按照以下 JSON 格式输出，不要添加任何其他内容：";
  js "```json";
  js "[";
  js "  {" ++ keyValue "type" "卡片类型" ++ js ", " ++ keyValue "front" "问题/正面"
     ++ js ", " ++ keyValue "back" "答案/反面" ++ js "},";
  js "  {" ++ keyValue "type" "cloze" ++ js ", " ++ keyEmpty "front" ++ js ", "
     ++ keyEmpty "back" ++ js ", "
     ++ keyValue "clozeText" "完整句子，关键词用{{双大括号}}包裹" ++ js "}";
  js "]";
  js "```";
  [];
  js "## 注意事项";
  js "- type 必须是以下之一：" ].

Definition promptNotes : jsstring := lines [
  [];
  js "- cloze 类型的卡片必须包含 clozeText 字段";
  js "- list 类型的 back 字段必须是字符串数组";
  js "- 确保 JSON 格式正确，可以被解析";
  [];
  js "## 待分析的文本内容";
  [] ].

Definition buildPrompt (text : jsstring) (cardTypes : list CardType)
           (maxCards : JsNumber.number) : jsstring :=
  let cardTypeDescriptions := getCardTypeDescriptions cardTypes in
  promptIntro ++ JsNumber.toString maxCards ++ promptTypes
    ++ cardTypeDescriptions ++ promptFormat ++ typeList cardTypes
    ++ promptNotes ++ text.

(** *** [parseAIResponse] *)

(** [/```json\s*([\s\S]*?)\s*```/], giving group 1. *)
Definition fenceRe : jsstring -> option jsstring :=
  lit (js "```json")
    (greedyStar isWhiteSpace
      (lazyStar anyChar (fun group =>
        greedyStar isWhiteSpace
          (lit (js "```") (fun _ => Some group))))).

(** [/,\s*]/] and [/,\s*}/], with the replacement [']'] and ['}']. *)
Definition trailingCommaRe (closer : string)
  : jsstring -> option (jsstring * jsstring) :=
  lit (js ",")
    (greedyStar isWhiteSpace
      (lit (js closer) (fun rest => Some (js closer, rest)))).

(** [.trim().replace(/,\s*]/g, ']').replace(/,\s*}/g, '}')] *)
Definition cleanJson (jsonStr : jsstring) : jsstring :=
  replaceAll (trailingCommaRe "}")
    (replaceAll (trailingCommaRe "]") (trim jsonStr)).

Definition cardTypeOfName (s : jsstring) : option CardType :=
  if eqb_string s (js "basic") then Some Basic
  else if eqb_string s (js "basic-reverse") then Some BasicReverse
  else if eqb_string s (js "cloze") then Some Cloze
  else if eqb_string s (js "list") then Some ListCard
  else if eqb_string s (js "descriptor") then Some Descriptor
  else None.

(** [validTypes.includes(c.type)], with the member found. *)
Definition cardTypeOf (c : value) : option CardType :=
  match getProp c (js "type") with
  | Some (JString s) => cardTypeOfName s
  | _ => None
  end.

Definition isString (x : option value) : bool :=
  match x with Some (JString _) => true | _ => false end.

Definition isArray (x : option value) : bool :=
  match x with Some (JArray _) => true | _ => false end.

Definition isValidCard (card : value) : bool :=
  match card with
  | JObject _ | JArray _ =>          (* typeof card === 'object', not null *)
      let c := card in
      match cardTypeOf c with
      | None => false
      | Some Cloze =>
          match getProp c (js "clozeText") with
          | Some (JString s) => includes (js "{{") s
          | _ => false
          end
      | Some ListCard =>
          isString (getProp c (js "front")) && isArray (getProp c (js "back"))
      | Some _ =>
          isString (getProp c (js "front")) && isString (getProp c (js "back"))
      end
  | _ => false
  end.

Definition normalizeCard (card : value) : outcome FlashcardData :=
  match cardTypeOf card with
  | None => Throw IllTyped                       (* card.type as CardType *)
  | Some ty =>
      front' <- toString (orEmpty (getProp card (js "front")));;
      back' <- match ty with
               | ListCard =>
                   match getProp card (js "back") with
                   | Some (JArray items) =>
                       items' <- mapO toString items;;
                       Return (BackList items')
                   | _ => Throw IllTyped          (* card.back as string[] *)
                   end
               | _ =>
                   s <- toString (orEmpty (getProp card (js "back")));;
                   Return (BackString s)
               end;;
      let base := mkCard ty front' back' None in
      match ty, getProp card (js "clozeText") with
      | Cloze, Some ct =>
          if truthy ct then
            ct' <- toString ct;;
            Return (mkCard ty front' back' (Some ct'))
          else Return base
      | _, _ => Return base
      end
  end.

(** [jsonMatch ? jsonMatch[1] : response] *)
Definition jsonStrOf (response : jsstring) : jsstring :=
  let jsonMatch := search fenceRe response in
  match jsonMatch with
  | Some group1 => group1
  | None => response
  end.

(** The body of the [try] block. *)
Definition parseAIResponseBody (response : jsstring)
  : outcome (list FlashcardData) :=
  let jsonStr := jsonStrOf response in
  let cleanedJson := cleanJson jsonStr in
  parsed <- Json.parse cleanedJson;;
  match parsed with
  | JArray items => mapO normalizeCard (filter isValidCard items)
  | _ => Throw (Error (js "响应格式错误：期望数组"))
  end.

(** [try { ... } catch (error) { console.error(...); return []; }] *)
Definition parseAIResponse (response : jsstring)
  : outcome (list FlashcardData) :=
  tryCatch (parseAIResponseBody response) (fun error => Return []).

(** *** The JSON form of a canonical sequence *)

(** The object [normalizeCard] builds: [type], [front], [back], then
    [clozeText] when it was set. *)
Definition toJson (c : FlashcardData) : value :=
  JObject
    ([(js "type", JString (cardTypeName (type c)));
      (js "front", JString (front c));
      (js "back", match back c with
                  | BackString s => JString s
                  | BackList items => JArray (map JString items)
                  end)]
     ++ match clozeText c with
        | Some s => [(js "clozeText", JString s)]
        | None => []
        end).

(** [JSON.stringify(cards)] *)
Definition stringifyCards (cards : list FlashcardData) : jsstring :=
  stringify (JArray (map toJson cards)).

End PromptBuilder.

(* ================================================================= *)
(** ** [src/services/cardGenerator.ts] *)

Module CardGenerator.
Import RegExp.

(** [type RemObject = { _id: string; ... }] *)
Record RemObject : Type := mkRem { _id : jsstring }.

(** *** Asynchronous code over the host

    The generator reaches the host through one primitive,
    [plugin.rem.createSingleRemWithMarkdown(markdown, parentId)], whose
    promise resolves to a Rem, resolves to [undefined], or rejects.  An
    [async] computation is the tree of its host calls: at each call the
    host's answer selects how it goes on.  [await] of a rejected promise
    throws at the place of the call. *)
Inductive async (A : Type) : Type :=
| Ret (a : A)
| Fail (e : exn)
| Call (markdown : jsstring) (parentId : option jsstring)
       (k : outcome (option RemObject) -> async A).
Arguments Ret {A} a.
Arguments Fail {A} e.
Arguments Call {A} markdown parentId k.

Fixpoint bind {A B} (p : async A) (f : A -> async B) : async B :=
  match p with
  | Ret a => f a
  | Fail e => Fail e
  | Call md pid k => Call md pid (fun r => bind (k r) f)
  end.

Notation "x <~ a ;; b" := (bind a (fun x => b))
  (at level 61, a at next level, right associativity).

(** [try { body } catch (error) { handler }] around awaited code. *)
Fixpoint try {A} (body : async A) (handler : exn -> async A) : async A :=
  match body with
  | Ret a => Ret a
  | Fail e => handler e
  | Call md pid k => Call md pid (fun r => try (k r) handler)
  end.

(** [await this.plugin.rem.createSingleRemWithMarkdown(markdown, parentId)] *)
Definition createSingleRemWithMarkdown (markdown : jsstring)
           (parentId : option jsstring) : async (option RemObject) :=
  Call markdown parentId
       (fun r => match r with
                 | Return rem => Ret rem
                 | Throw e => Fail e
                 end).

(** [`${card.back}`]: an array prints as its elements joined by commas. *)
Definition backText (b : Back) : jsstring :=
  match b with
  | BackString s => s
  | BackList items => join (js ",") items
  end.

Definition createBasicCard (card : FlashcardData)
           (parentRemId : option jsstring) (bidirectional : bool)
  : async (option RemObject) :=
  let separator := if bidirectional then js " <> " else js " >> " in
  let markdown := front card ++ separator ++ backText (back card) in
  createSingleRemWithMarkdown markdown parentRemId.

(** [/\{\{c\d+::(.*?)\}\}/g] with the replacement ['{{$1}}']. *)
Definition numberedClozeRe : jsstring -> option (jsstring * jsstring) :=
  lit (js "{{c")
    (greedyPlus isDigit
      (lit (js "::")
        (lazyStar notLineTerminator (fun group1 =>
          lit (js "}}")
              (fun rest => Some (js "{{" ++ group1 ++ js "}}", rest)))))).

Definition createClozeCard (card : FlashcardData)
           (parentRemId : option jsstring) : async (option RemObject) :=
  match clozeText card with
  | None | Some [] => Ret None                  (* !card.clozeText *)
  | Some text =>
      let clozeText := replaceAll numberedClozeRe text in
      createSingleRemWithMarkdown clozeText parentRemId
  end.

(** [for (const item of backItems) { await create(item, parentRem._id); }] *)
Fixpoint createChildren (backItems : list jsstring) (parentId : jsstring)
  : async unit :=
  match backItems with
  | [] => Ret tt
  | item :: rest =>
      _ <~ createSingleRemWithMarkdown item (Some parentId);;
      createChildren rest parentId
  end.

Definition createListCard (card : FlashcardData)
           (parentRemId : option jsstring) : async (option RemObject) :=
  let backItems := match back card with
                   | BackList items => items
                   | BackString s => [s]
                   end in
  parentRem <~ createSingleRemWithMarkdown (front card ++ js " >>>")
                                          parentRemId;;
  match parentRem with
  | None => Ret None
  | Some rem =>
      _ <~ createChildren backItems (_id rem);;
      Ret (Some rem)
  end.

Definition createDescriptorCard (card : FlashcardData)
           (parentRemId : option jsstring) : async (option RemObject) :=
  let markdown := front card ++ js " ;; " ++ backText (back card) in
  createSingleRemWithMarkdown markdown parentRemId.

Definition createSingleCard (card : FlashcardData)
           (parentRemId : option jsstring) : async (option RemObject) :=
  match type card with
  | Basic => createBasicCard card parentRemId false
  | BasicReverse => createBasicCard card parentRemId true
  | Cloze => createClozeCard card parentRemId
  | ListCard => createListCard card parentRemId
  | Descriptor => createDescriptorCard card parentRemId
  end.

(** The [for] loop of [createFlashcards], with [createdRems] passed on. *)
Fixpoint createEach (cards : list FlashcardData)
         (parentRemId : option jsstring) (createdRems : list RemObject)
  : async (list RemObject) :=
  match cards with
  | [] => Ret createdRems
  | card :: rest =>
      createdRems' <~
        try (rem <~ createSingleCard card parentRemId;;
             Ret (match rem with
                  | Some r => createdRems ++ [r]
                  | None => createdRems
                  end))
            (fun error => Ret createdRems);;
      createEach rest parentRemId createdRems'
  end.

Definition createFlashcards (cards : list FlashcardData)
           (parentRemId : option jsstring) : async (list RemObject) :=
  createEach cards parentRemId [].

(** *** Running against a host *)

(** One creation call: the markup text and the parent it is put under. *)
Abbreviation call := (jsstring * option jsstring)%type.

(** A host answers a call knowing every call made so far (the last of
    the list is the call being answered). *)
Definition host : Type := list call -> outcome (option RemObject).

(** The result of a computation and the calls made, in order, after
    those of [log]. *)
Fixpoint run {A} (h : host) (log : list call) (p : async A)
  : outcome A * list call :=
  match p with
  | Ret a => (Return a, log)
  | Fail e => (Throw e, log)
  | Call md pid k =>
      let log' := log ++ [(md, pid)] in
      run h log' (k (h log'))
  end.

End CardGenerator.

(* ================================================================= *)
(** ** [src/services/documentParser.ts] *)

Module DocumentParser.
Import RegExp.

(** *** [validateText] *)

(** [{ valid: boolean; error?: string }] *)
Record Validation : Type := mkValidation {
  valid : bool;
  error : option jsstring
}.

Definition validateText (text : jsstring) : Validation :=
  match text with
  | [] => mkValidation false (Some (js "请提供有效的文本内容"))
  | _ :: _ =>
      let trimmedText := trim text in
      let len := N.of_nat (length trimmedText) in
      if (len =? 0)%N then
        mkValidation false (Some (js "文本内容为空"))
      else if (len <? 20)%N then
        mkValidation false (Some (js "文本内容太短，至少需要 20 个字符"))
      else if (50000 <? len)%N then
        mkValidation false (Some (js "文本内容过长，最多支持 50000 个字符"))
      else mkValidation true None
  end.

(** *** [preprocessText] *)

(** [/\r\n/g] with the replacement ['\n']. *)
Definition crlfRe : jsstring -> option (jsstring * jsstring) :=
  lit [13; 10]%N (fun rest => Some ([10]%N, rest)).

Definition isLineFeed (c : code_unit) : bool := (c =? 10)%N.

(** [/\n{3,}/g] with the replacement ['\n\n']. *)
Definition blankLinesRe : jsstring -> option (jsstring * jsstring) :=
  atLeast 3 isLineFeed (fun rest => Some ([10; 10]%N, rest)).

(** [/\t/g] with the replacement of two spaces. *)
Definition tabRe : jsstring -> option (jsstring * jsstring) :=
  lit [9]%N (fun rest => Some (js "  ", rest)).

Definition preprocessText (text : jsstring) : jsstring :=
  replaceAll tabRe
    (replaceAll blankLinesRe
      (replaceAll crlfRe (trim text))).

(** *** Uploaded files *)

(** What the [FileReader] reports for [readAsText(file, 'UTF-8')]: the
    [load] event with its [result] (a string, or something else), or the
    [error] event. *)
Inductive ReadResult : Type :=
| Loaded (result : option jsstring)
| ReadFailed.

(** A [File]: its name and what reading it as text gives. *)
Record File : Type := mkFile {
  name : jsstring;
  reading : ReadResult
}.

Definition parseTextFile (file : File) : outcome jsstring :=
  match reading file with
  | Loaded (Some content) => Return content
  | Loaded None => Throw (Error (js "无法读取文件内容"))
  | ReadFailed => Throw (Error (js "读取文件失败"))
  end.

(** [[\x00-\x08\x0B\x0C\x0E-\x1F]] *)
Definition isControl (c : code_unit) : bool :=
  ((c <=? 8) || (c =? 11) || (c =? 12) || (14 <=? c) && (c <=? 31))%N.

(** [/[\x00-\x08\x0B\x0C\x0E-\x1F]/g] with the empty replacement. *)
Definition controlRe : jsstring -> option (jsstring * jsstring) :=
  oneOf isControl (fun rest => Some ([], rest)).

(** [/\s+/g] with the replacement of one space. *)
Definition spacesRe : jsstring -> option (jsstring * jsstring) :=
  greedyPlus isWhiteSpace (fun rest => Some (js " ", rest)).

(** The warning [parsePDFFile] writes to the console is not part of the
    embedding.  The error thrown for a text of fewer than 50 characters
    is thrown inside the [try] block, so the [catch] replaces it. *)
Definition parsePDFFile (file : File) : outcome jsstring :=
  tryCatch
    (text <- parseTextFile file;;
     let cleanedText :=
       trim (replaceAll spacesRe (replaceAll controlRe text)) in
     if (N.of_nat (length cleanedText) <? 50)%N
     then Throw (Error (js "PDF 内容提取失败，请使用 TXT 或 MD 格式"))
     else Return cleanedText)
    (fun _ =>
       Throw (Error (js "PDF 解析失败，请将内容转换为 TXT 格式后重试"))).

(** [String.prototype.toLowerCase] follows the case tables of Unicode,
    which are not written out here: the functions that call it take it
    as [toLowerCase], and what is proved of them holds whatever the
    tables are. *)
Section CaseMapping.
Variable toLowerCase : jsstring -> jsstring.

Definition getFileExtension (filename : jsstring) : jsstring :=
  let parts := split 46 filename in
  if (1 <? length parts)%nat then toLowerCase (last parts [])
  else [].

Definition parseDocument (file : File) : outcome jsstring :=
  let extension := getFileExtension (name file) in
  if eqb_string extension (js "txt") then parseTextFile file
  else if eqb_string extension (js "md") then parseTextFile file
  else if eqb_string extension (js "pdf") then parsePDFFile file
  else Throw (Error (js "不支持的文件格式: " ++ extension)).
End CaseMapping.

End DocumentParser.
(* ================================================================= *)
(** ** [src/services/aiService.ts] *)

Module AiService.
Import Json PromptBuilder.

(** [AISettings]; [provider] is the string the settings store holds
    (the callers cast it to ['openai' | 'claude'] unchecked). *)
Record AISettings : Type := mkSettings {
  provider : jsstring;
  apiKey : jsstring;
  model : jsstring;
  apiUrl : jsstring;
  maxCards : JsNumber.number
}.

(** [AIResponse]: [{ success: boolean; cards?: ...; error?: string }] *)
Record AIResponse : Type := mkAIResponse {
  success : bool;
  cards : option (list FlashcardData);
  error : option jsstring
}.

(** What [fetch] is called with. *)
Record Request : Type := mkRequest {
  url : jsstring;
  method : jsstring;
  headers : list (jsstring * jsstring);
  body : jsstring
}.

(** What [fetch] resolves to: [response.ok], [response.status], and the
    text of the body as [response.json()] reads it, or the failure of
    reading it. *)
Record Response : Type := mkResponse {
  ok : bool;
  status : N;
  bodyText : outcome jsstring
}.

(** The run time of a provider: [fetch], which resolves or rejects, and
    the message text the engine gives an error it raises itself (a
    [SyntaxError] of [JSON.parse], a [TypeError] of a property read on
    [null]). *)
Record Runtime : Type := mkRuntime {
  fetch : Request -> outcome Response;
  engineMessage : exn -> jsstring
}.

(** [await response.json()] *)
Definition json (response : Response) : outcome value :=
  text <- bodyText response;;
  Json.parse text.

(** [v.k] for a value read from JSON and one of the names [choices],
    [content], [message], [text], [error]: reading a property of [null]
    throws; a string, a number and a boolean have no property of these
    names. *)
Definition prop (v : value) (k : jsstring) : outcome (option value) :=
  match v with
  | JNull => Throw TypeError
  | _ => Return (getProp v k)
  end.

(** [x?.k]: [undefined] when [x] is [undefined] or [null]. *)
Definition optProp (x : option value) (k : jsstring) : option value :=
  match x with
  | Some v => getProp v k
  | None => None
  end.

(** [x?.[0]]: the first element of an array, the first character of a
    string, the member [0] of an object. *)
Definition optFirst (x : option value) : option value :=
  match x with
  | Some (JArray (item :: _)) => Some item
  | Some (JObject ms) => lookupLast (js "0") ms
  | Some (JString (c :: _)) => Some (JString [c])
  | _ => None
  end.

(** [parseAIResponse(content)] for a [content] of any type: a value that
    is no string has no method [match], the call throws inside the [try]
    of [parseAIResponse], and the result is empty. *)
Definition parseContent (content : value) : outcome (list FlashcardData) :=
  match content with
  | JString s => parseAIResponse s
  | _ => Return []
  end.

(** [`API 请求失败: ${response.status}`] *)
Definition statusMessage (response : Response) : jsstring :=
  js "API 请求失败: "
     ++ JsNumber.toString (JsNumber.ofZ (Z.of_N (status response))).

(** The block under [if (!response.ok)]: it always throws. *)
Definition throwApiError {A} (response : Response) : outcome A :=
  errorData <- tryCatch (json response) (fun _ => Return (JObject []));;
  e <- prop errorData (js "error");;
  match optProp e (js "message") with
  | Some m =>
      if truthy m then
        message <- toString m;;           (* new Error(m) *)
        Throw (Error message)
      else Throw (Error (statusMessage response))
  | None => Throw (Error (statusMessage response))
  end.

(** [error instanceof Error ? error.message : '未知错误'].  [Rejected]
    stands for a reason that is no [Error] object. *)
Definition messageOf (rt : Runtime) (e : exn) : jsstring :=
  match e with
  | Error message => message
  | Rejected _ => js "未知错误"
  | _ => engineMessage rt e
  end.

Definition systemPrompt : jsstring :=
  js "你是一个专业的教育内容分析助手，擅长创建高质量的记忆卡片。请始终使用中文回复。".

Definition message (role content : jsstring) : value :=
  JObject [(js "role", JString role); (js "content", JString content)].

Module OpenAIProvider.

Definition request (settings : AISettings) (prompt : jsstring)
  : Request :=
  mkRequest
    (apiUrl settings ++ js "/chat/completions")
    (js "POST")
    [(js "Content-Type", js "application/json");
     (js "Authorization", js "Bearer " ++ apiKey settings)]
    (stringify
       (JObject
          [(js "model", JString (model settings));
           (js "messages",
            JArray [message (js "system") systemPrompt;
                    message (js "user") prompt]);
           (js "temperature",
            JNumber (JsNumber.ofDecimal false (js "0") (js "7")
                                        false []));
           (js "max_tokens", JNumber (JsNumber.ofZ 4000))])).

Definition generateFlashcards (rt : Runtime) (settings : AISettings)
           (text : jsstring) (cardTypes : list CardType) : AIResponse :=
  let prompt := buildPrompt text cardTypes (maxCards settings) in
  let attempt : outcome (list FlashcardData) :=
    response <- fetch rt (request settings prompt);;
    if negb (ok response) then throwApiError response
    else
      data <- json response;;
      choices <- prop data (js "choices");;
      let content :=
        optProp (optProp (optFirst choices) (js "message"))
                (js "content") in
      match content with
      | Some content =>
          if truthy content then
            cards <- parseContent content;;
            match cards with
            | [] => Throw (Error (js "无法从 AI 响应中解析出有效的卡片"))
            | _ :: _ => Return cards
            end
          else Throw (Error (js "AI 返回内容为空"))
      | None => Throw (Error (js "AI 返回内容为空"))
      end in
  match attempt with
  | Return cards => mkAIResponse true (Some cards) None
  | Throw e => mkAIResponse false None (Some (messageOf rt e))
  end.

End OpenAIProvider.

Module ClaudeProvider.

Definition request (settings : AISettings) (prompt : jsstring)
  : Request :=
  let apiUrl :=
    match apiUrl settings with
    | [] => js "https://api.anthropic.com"
    | _ :: _ =>
        if eqb_string (apiUrl settings) (js "https://api.openai.com/v1")
        then js "https://api.anthropic.com"
        else apiUrl settings
    end in
  mkRequest
    (apiUrl ++ js "/v1/messages")
    (js "POST")
    [(js "Content-Type", js "application/json");
     (js "x-api-key", apiKey settings);
     (js "anthropic-version", js "2023-06-01")]
    (stringify
       (JObject
          [(js "model",
            JString match model settings with
                    | [] => js "claude-3-sonnet-20240229"
                    | _ :: _ => model settings
                    end);
           (js "max_tokens", JNumber (JsNumber.ofZ 4000));
           (js "messages", JArray [message (js "user") prompt]);
           (js "system", JString systemPrompt)])).

Definition generateFlashcards (rt : Runtime) (settings : AISettings)
           (text : jsstring) (cardTypes : list CardType) : AIResponse :=
  let prompt := buildPrompt text cardTypes (maxCards settings) in
  let attempt : outcome (list FlashcardData) :=
    response <- fetch rt (request settings prompt);;
    if negb (ok response) then throwApiError response
    else
      data <- json response;;
      content <- prop data (js "content");;
      let content := optProp (optFirst content) (js "text") in
      match content with
      | Some content =>
          if truthy content then
            cards <- parseContent content;;
            match cards with
            | [] => Throw (Error (js "无法从 AI 响应中解析出有效的卡片"))
            | _ :: _ => Return cards
            end
          else Throw (Error (js "AI 返回内容为空"))
      | None => Throw (Error (js "AI 返回内容为空"))
      end in
  match attempt with
  | Return cards => mkAIResponse true (Some cards) None
  | Throw e => mkAIResponse false None (Some (messageOf rt e))
  end.

End ClaudeProvider.

(** The factory: the [generateFlashcards] of the provider chosen. *)
Definition createAIService (settings : AISettings)
  : Runtime -> jsstring -> list CardType -> AIResponse :=
  if eqb_string (provider settings) (js "claude")
  then fun rt => ClaudeProvider.generateFlashcards rt settings
  else fun rt => OpenAIProvider.generateFlashcards rt settings.

End AiService.
(* ================================================================= *)
(** ** The input panel (the component [InputPanel]) *)

(** The two pieces of the panel that compute: the test [handleDrop] makes
    on the name of a dropped file, and the update [toggleCardType] makes
    to the card types switched on. *)
Module InputPanel.

(** [DEFAULT_CARD_TYPES] of [src/types/index.ts], the first value of
    [enabledTypes]. *)
Definition DEFAULT_CARD_TYPES : list CardType := [Basic; Cloze; ListCard].

(** [a === b] on card types, which are strings. *)
Definition sameType (a b : CardType) : bool :=
  eqb_string (cardTypeName a) (cardTypeName b).

(** The updater of [toggleCardType]:
    [prev.includes(cardType) ? prev.filter(t => t !== cardType)
                             : [...prev, cardType]]. *)
Definition toggleCardType (cardType : CardType) (prev : list CardType)
  : list CardType :=
  if existsb (fun t => sameType t cardType) prev
  then filter (fun t => negb (sameType t cardType)) prev
  else prev ++ [cardType].

(** The test of [handleDrop]:
    [validTypes.includes('.' + file.name.split('.').pop()?.toLowerCase())]
    with [validTypes = ['.txt', '.md', '.pdf']]; [toLowerCase] as in
    [DocumentParser]. *)
Definition dropAccepts (toLowerCase : jsstring -> jsstring)
           (fileName : jsstring) : bool :=
  let validTypes := [js ".txt"; js ".md"; js ".pdf"] in
  let ext := js "." ++ toLowerCase (last (split 46 fileName) []) in
  existsb (fun t => eqb_string t ext) validTypes.

End InputPanel.

(* ================================================================= *)
(** * Statements

    The predicates the properties are stated with, written from the words
    of the specification, and the concrete replies, cards and hosts they
    are tried on. *)

Module Statements.
Import Json RegExp PromptBuilder CardGenerator.

(** The validity predicate in the words of the specification. *)
Definition isStringValue (x : option value) : Prop :=
  exists s, x = Some (JString s).
Definition isArrayValue (x : option value) : Prop :=
  exists items, x = Some (JArray items).
Definition containsOpenBraces (s : jsstring) : Prop :=
  exists a b, s = a ++ js "{{" ++ b.

Definition acceptedBySpec (element : value) : Prop :=
  (* a non-null object *)
  match element with JObject _ | JArray _ => True | _ => False end
  (* whose type is one of the five *)
  /\ exists t : CardType,
      getProp element (js "type") = Some (JString (cardTypeName t))
      /\ match t with
         | Cloze =>
             exists s, getProp element (js "clozeText") = Some (JString s)
                       /\ containsOpenBraces s
         | ListCard =>
             isStringValue (getProp element (js "front"))
             /\ isArrayValue (getProp element (js "back"))
         | _ =>
             isStringValue (getProp element (js "front"))
             /\ isStringValue (getProp element (js "back"))
         end.

(** The shape of the cards [parseAIResponse] returns. *)
Definition canonical (c : FlashcardData) : Prop :=
  match type c with
  | ListCard => exists items, back c = BackList items
  | _ => exists s, back c = BackString s
  end
  /\ match type c with
     | Cloze => exists s, clozeText c = Some s
                          /\ includes (js "{{") s = true
     | _ => clozeText c = None
     end.

(** [coreOf s core]: [core] is [s] without the white space at its two
    ends. *)
Definition coreOf (s core : jsstring) : Prop :=
  exists a b,
    s = a ++ core ++ b
    /\ forallb isWhiteSpace a = true /\ forallb isWhiteSpace b = true
    /\ (forall c t, core = c :: t -> isWhiteSpace c = false)
    /\ (forall t c, core = t ++ [c] -> isWhiteSpace c = false).

(** A trailing comma at the head of a text: a comma, white space if any,
    and the closing bracket. *)
Definition trailingCommaAt (closer s : jsstring) : Prop :=
  exists ws rest,
    s = 44%N :: ws ++ closer ++ rest /\ forallb isWhiteSpace ws = true.

(** [Repaired closer s t]: reading [s] from the left, [t] has [closer]
    for every trailing comma before [closer] - the comma and the white
    space behind it are taken out - and every other character of [s] in
    its place. *)
Inductive Repaired (closer : jsstring) : jsstring -> jsstring -> Prop :=
| Repaired_end : Repaired closer [] []
| Repaired_keep (c : code_unit) (s t : jsstring) :
    ~ trailingCommaAt closer (c :: s) ->
    Repaired closer s t ->
    Repaired closer (c :: s) (c :: t)
| Repaired_strip (ws s t : jsstring) :
    forallb isWhiteSpace ws = true ->
    Repaired closer s t ->
    Repaired closer (44%N :: ws ++ closer ++ s) (closer ++ t).

(** The repair in the words of the specification: a comma is taken out
    when a closing bracket follows it immediately, and nothing else is
    changed. *)
Fixpoint stripImmediate (s : jsstring) : jsstring :=
  match s with
  | [] => []
  | c :: t =>
      if (c =? 44)%N && (startsWith (js "]") t || startsWith (js "}") t)
      then stripImmediate t
      else c :: stripImmediate t
  end.

(** The closed-list sentence of the prompt. *)
Definition closedListSentence (cardTypes : list CardType) : jsstring :=
  js "- type 必须是以下之一："
     ++ join (js ", ") (map (fun t => dq ++ cardTypeName t ++ dq) cardTypes)
     ++ nl.

(** The number of places at which [p] occurs in [s]. *)
Fixpoint occurrences (p s : jsstring) : nat :=
  (if startsWith p s then 1 else 0)
  + match s with
    | [] => 0
    | _ :: t => occurrences p t
    end.

(** The call that creates one child under a parent. *)
Definition childCall (parentId : jsstring) (item : jsstring) : call :=
  (item, Some parentId).

(** [Array.isArray(card.back) ? card.back : [card.back]] *)
Definition backItemsOf (card : FlashcardData) : list jsstring :=
  match back card with
  | BackList items => items
  | BackString s => [s]
  end.

(** What the specification asks of a batch: the cards are rendered one
    after the other; a card whose rendering returns a reference adds it to
    the result; a card whose rendering returns no reference, or throws,
    adds nothing, and the next card is rendered all the same. *)
Inductive batch (h : host) (parentRemId : option jsstring)
  : list call -> list FlashcardData -> list RemObject -> list call -> Prop :=
| batch_done (log : list call) :
    batch h parentRemId log [] [] log
| batch_created (log log' log'' : list call) (card : FlashcardData)
                (cards : list FlashcardData) (rem : RemObject)
                (rems : list RemObject) :
    run h log (createSingleCard card parentRemId) = (Return (Some rem), log') ->
    batch h parentRemId log' cards rems log'' ->
    batch h parentRemId log (card :: cards) (rem :: rems) log''
| batch_no_reference (log log' log'' : list call) (card : FlashcardData)
                     (cards : list FlashcardData) (rems : list RemObject) :
    run h log (createSingleCard card parentRemId) = (Return None, log') ->
    batch h parentRemId log' cards rems log'' ->
    batch h parentRemId log (card :: cards) rems log''
| batch_thrown (log log' log'' : list call) (card : FlashcardData)
               (cards : list FlashcardData) (rems : list RemObject)
               (e : exn) :
    run h log (createSingleCard card parentRemId) = (Throw e, log') ->
    batch h parentRemId log' cards rems log'' ->
    batch h parentRemId log (card :: cards) rems log''.

(** Values without numbers: strings, booleans, [null], and arrays and
    objects of them. *)
Fixpoint numberFree (v : value) : bool :=
  match v with
  | JNumber _ => false
  | JArray items => forallb numberFree items
  | JObject ms => forallb (fun m => numberFree (snd m)) ms
  | _ => true
  end.

(** [reads v]: with enough steps, the text of [v] is read back as [v],
    whatever follows it. *)
Definition reads (v : value) : Prop :=
  exists f0, forall f rest,
      (f0 <= f)%nat -> parseValue f (stringify v ++ rest) = Some (v, rest).

Definition readsElements (items : list value) : Prop :=
  exists f0, forall f rest,
      (f0 <= f)%nat ->
      parseElements f (join (js ",") (map stringify items) ++ 93%N :: rest)
      = Some (items, rest).

Definition memberText (m : jsstring * value) : jsstring :=
  quote (fst m) ++ js ":" ++ stringify (snd m).

Definition readsMembers (ms : list (jsstring * value)) : Prop :=
  exists f0, forall f rest,
      (f0 <= f)%nat ->
      parseMembers f (join (js ",") (map memberText ms) ++ 125%N :: rest)
      = Some (ms, rest).

(** The first character of the text of a value is no white space and no
    closing bracket. *)
Definition opensValue (s : jsstring) : Prop :=
  exists c u, s = c :: u /\ isJsonSpace c = false
              /\ (c =? 93)%N = false /\ (c =? 125)%N = false.

(** A reply that is one card object, not an array of cards. *)
Definition singleObjectReply : jsstring :=
  js "{" ++ keyValue "type" "basic" ++ js ", " ++ keyValue "front" "Q"
     ++ js ", " ++ keyValue "back" "A" ++ js "}".

(** A reply with a cloze entry that has no [{{], a list entry whose
    [back] is a string, and a well-formed basic entry. *)
Definition mixedReply : jsstring :=
  js "[{" ++ keyValue "type" "cloze" ++ js ", "
     ++ keyValue "clozeText" "no marker" ++ js "}, {"
     ++ keyValue "type" "list" ++ js ", " ++ keyValue "front" "F"
     ++ js ", " ++ keyValue "back" "scalar" ++ js "}, {"
     ++ keyValue "type" "basic" ++ js ", " ++ keyValue "front" "Q"
     ++ js ", " ++ keyValue "back" "A" ++ js "}]".

(** A basic entry that carries a [clozeText]: the field is gone from the
    card. *)
Definition basicWithCloze : jsstring :=
  js "[{" ++ keyValue "type" "basic" ++ js ", " ++ keyValue "front" "Q"
     ++ js ", " ++ keyValue "back" "A" ++ js ", "
     ++ keyValue "clozeText" "{{x}}" ++ js "}]".

(** The reply of the specification: a fenced array with a comma before its
    closing bracket. *)
Definition fencedTrailingComma : jsstring :=
  js "```json" ++ nl ++ js "[{" ++ quoted (js "type") ++ js ":"
     ++ quoted (js "basic") ++ js "," ++ quoted (js "front") ++ js ":"
     ++ quoted (js "Q") ++ js "," ++ quoted (js "back") ++ js ":"
     ++ quoted (js "A") ++ js "},]" ++ nl ++ js "```".

(** The one card of that reply, as JSON text. *)
Definition questionText : jsstring :=
  js "{" ++ quoted (js "type") ++ js ":" ++ quoted (js "basic") ++ js ","
     ++ quoted (js "front") ++ js ":" ++ quoted (js "Q") ++ js ","
     ++ quoted (js "back") ++ js ":" ++ quoted (js "A") ++ js "}".

(** An array with a space between its trailing comma and its bracket,
    and an array behind a byte order mark. *)
Definition spacedTrailingComma : jsstring :=
  js "[" ++ questionText ++ js ", ]".

Definition markedReply : jsstring :=
  [65279%N] ++ js "[" ++ questionText ++ js "]".

(** A reply with a cloze and a list entry, and the cards it gives. *)
Definition plainReply : jsstring :=
  js "[{" ++ keyValue "type" "cloze" ++ js ", "
     ++ keyValue "clozeText" "The capital of {{France}} is Paris" ++ js "}, {"
     ++ keyValue "type" "list" ++ js ", " ++ keyValue "front" "Primary colours"
     ++ js ", " ++ quoted (js "back") ++ js ": [" ++ quoted (js "red")
     ++ js ", " ++ quoted (js "green") ++ js "]}]".

Definition plainCards : list FlashcardData :=
  [mkCard Cloze [] (BackString [])
          (Some (js "The capital of {{France}} is Paris"));
   mkCard ListCard (js "Primary colours")
          (BackList [js "red"; js "green"]) None].

(** A reply whose one card asks about the array literal [[1,,]].  The
    repair takes the second comma out of the question; the question of
    the card then holds a comma in front of a bracket, which the repair
    takes out of the JSON form of the result in turn. *)
Definition arrayLiteralReply : jsstring :=
  js "[{" ++ keyValue "type" "basic" ++ js ", "
     ++ keyValue "front" "[1,,]" ++ js ", " ++ keyValue "back" "b"
     ++ js "}]".

(** A numbered deletion at the head of a text, as the pattern of the
    renderer reads it: [{{c], one or more digits, [::], a text [x] on one
    line that the first [}}] after it closes, and the [rest] of the
    text. *)
Definition numberedAt (s x rest : jsstring) : Prop :=
  exists n,
    s = js "{{c" ++ n ++ js "::" ++ x ++ js "}}" ++ rest
    /\ n <> []
    /\ forallb isDigit n = true
    /\ forallb notLineTerminator x = true
    /\ includes (js "}}") (x ++ js "}") = false.

(** [Rewritten s t]: reading [s] from the left, [t] has the bare form
    [{{x}}] for every numbered deletion of [s] - the reading goes on
    behind its closing braces - and every other character of [s] in its
    place. *)
Inductive Rewritten : jsstring -> jsstring -> Prop :=
| Rewritten_end : Rewritten [] []
| Rewritten_keep (c : code_unit) (s t : jsstring) :
    (forall x rest, ~ numberedAt (c :: s) x rest) ->
    Rewritten s t ->
    Rewritten (c :: s) (c :: t)
| Rewritten_form (s x rest t : jsstring) :
    numberedAt s x rest ->
    Rewritten rest t ->
    Rewritten s (js "{{" ++ x ++ js "}}" ++ t).

(** A cloze text whose numbered deletion runs over two lines, the card
    that holds it, and a reply that gives this card: in the JSON text the
    line feed is written as an escape. *)
Definition twoLineText : jsstring := js "{{c1::a" ++ [10%N] ++ js "b}}".

Definition twoLineCard : FlashcardData :=
  mkCard Cloze [] (BackString []) (Some twoLineText).

Definition twoLineReply : jsstring :=
  js "[{" ++ keyValue "type" "cloze" ++ js ", "
     ++ keyValue "clozeText" "{{c1::a\nb}}" ++ js "}]".

(** A host that creates whatever it is asked to, naming each Rem after
    the number of the call. *)
Definition creatingHost : host :=
  fun log =>
    Return (Some (mkRem (js "rem"
                            ++ JsNumber.decimal (Z.of_nat (length log))))).

Definition threeItemList : FlashcardData :=
  mkCard ListCard (js "F") (BackList [js "A"; js "B"; js "C"]) None.

(** A host that rejects the second request it receives and creates
    whatever else it is asked to. *)
Definition rejectingSecondCall : host :=
  fun log =>
    match log with
    | [_; _] => Throw (Rejected (js "rejected"))
    | _ => Return (Some (mkRem (js "rem"
                                   ++ JsNumber.decimal
                                        (Z.of_nat (length log)))))
    end.

Definition questionCard : FlashcardData :=
  mkCard Basic (js "Q") (BackString (js "A")) None.

End Statements.
(* ================================================================= *)
(** * Statements about the code

    The predicates with which further properties of the code are stated:
    what a matcher of [replace] does with its input, the texts
    [preprocessText] and the PDF reader produce, the calls of a batch. *)

Module CodeStatements.
Import Json RegExp PromptBuilder CardGenerator Statements.

(** A matcher of [replaceAll] is handed the text from some position on
    and gives back what follows the match: an end piece of that text,
    the match itself holding at least one character. *)
Definition consumes (m : jsstring -> option (jsstring * jsstring)) : Prop :=
  m [] = None
  /\ forall c t replacement rest,
      m (c :: t) = Some (replacement, rest) -> exists a, t = a ++ rest.

(** A character [b] no match of [m] reaches over or depends on: with [b]
    after the text, [m] matches what it matched without it. *)
Definition passes (m : jsstring -> option (jsstring * jsstring))
           (b : code_unit) : Prop :=
  forall s,
    m (s ++ [b])
    = match m s with
      | Some (replacement, rest) => Some (replacement, rest ++ [b])
      | None => None
      end.

(** The number of characters of a class a text starts with. *)
Fixpoint leading (cls : code_unit -> bool) (s : jsstring) : nat :=
  match s with
  | c :: t => if cls c then S (leading cls t) else 0
  | [] => 0
  end.

(** Three line feeds in a row, and a carriage return with its line
    feed. *)
Definition threeLineFeeds : jsstring := [10; 10; 10]%N.
Definition crlf : jsstring := [13; 10]%N.

(** Two carriage returns before a line feed: the first replacement of
    [preprocessText] takes the second with the line feed and leaves the
    first in front of the line feed it puts. *)
Definition twoReturns : jsstring := [13; 13; 10]%N.

(** A text that neither starts nor ends with white space. *)
Definition trimmed (s : jsstring) : Prop := trim s = s.

(** A text whose only white space is the space, no two of them in a
    row. *)
Definition singleSpaced (s : jsstring) : Prop :=
  Forall (fun c => isWhiteSpace c = true -> c = 32%N) s
  /\ includes (js "  ") s = false.

(** No character below the space: no control character, no tab, no
    line break. *)
Definition printable (s : jsstring) : Prop :=
  Forall (fun c => (32 <= c)%N) s.

(** The extensions [parseDocument] has a reader for. *)
Definition supported (extension : jsstring) : bool :=
  eqb_string extension (js "txt") || eqb_string extension (js "md")
  || eqb_string extension (js "pdf").

(** The values [enabledTypes] can take in the input panel: the default,
    and what [toggleCardType] makes of a value it can take. *)
Inductive enabled : list CardType -> Prop :=
| enabled_default : enabled InputPanel.DEFAULT_CARD_TYPES
| enabled_toggled (cardType : CardType) (prev : list CardType) :
    enabled prev -> enabled (InputPanel.toggleCardType cardType prev).

(** A numbered deletion can start here: [{{c] and a digit. *)
Definition opensNumbered (s : jsstring) : bool :=
  match stripPrefix (js "{{c") s with
  | Some (d :: _) => isDigit d
  | _ => false
  end.

(** A cloze text in which no numbered deletion starts: after every
    [{{c] comes something else than a digit. *)
Fixpoint unnumbered (text : jsstring) : bool :=
  negb (opensNumbered text)
  && match text with
     | [] => true
     | _ :: t => unnumbered t
     end.

(** A host that answers every creation call with a Rem. *)
Definition alwaysCreates (h : host) : Prop :=
  forall log, exists rem, h log = Return (Some rem).

(** The creation calls a card takes when every call is answered with a
    Rem: one, and for a list card one more per element. *)
Definition callsNeeded (card : FlashcardData) : nat :=
  match type card with
  | ListCard => S (length (backItemsOf card))
  | _ => 1
  end.

(** [under h parentRemId base calls]: each of the [calls], made after
    those of [base], puts its Rem under [parentRemId] or under a Rem the
    host has returned for an earlier one of the [calls]. *)
Definition under (h : host) (parentRemId : option jsstring)
           (base calls : list call) : Prop :=
  forall pre c post,
    calls = pre ++ c :: post ->
    snd c = parentRemId
    \/ exists pre' c' mid rem,
        pre = pre' ++ c' :: mid
        /\ h (base ++ pre' ++ [c']) = Return (Some rem)
        /\ snd c = Some (_id rem).

(** What a caller may rely on in an [AIResponse]: with [success] there
    are cards, at least one, each of the canonical shape, read by
    [parseAIResponse] from a text, and no error; without [success] there
    are no cards and there is an error message. *)
Definition wellFormed (r : AiService.AIResponse) : Prop :=
  if AiService.success r then
    AiService.error r = None
    /\ exists cards,
        AiService.cards r = Some cards
        /\ cards <> []
        /\ Forall canonical cards
        /\ exists content, parseAIResponse content = Return cards
  else
    AiService.cards r = None
    /\ exists message, AiService.error r = Some message.

(** The request sent for a text: that of the provider [createAIService]
    chooses, with the prompt [buildPrompt] makes of the text, the card
    types and [maxCards]. *)
Definition requestOf (settings : AiService.AISettings) (text : jsstring)
           (cardTypes : list CardType) : AiService.Request :=
  let prompt := buildPrompt text cardTypes (AiService.maxCards settings) in
  if eqb_string (AiService.provider settings) (js "claude")
  then AiService.ClaudeProvider.request settings prompt
  else AiService.OpenAIProvider.request settings prompt.

(** A response with [success] comes from a [request] that was answered
    with a status in the [ok] range and a body of JSON. *)
Definition served (rt : AiService.Runtime) (request : AiService.Request)
           (r : AiService.AIResponse) : Prop :=
  AiService.success r = true ->
  exists response data,
    AiService.fetch rt request = Return response
    /\ AiService.ok response = true
    /\ AiService.json response = Return data.

(** Where the provider chosen looks for the reply in the body of a
    response: [content[0].text] for Claude, [choices[0].message.content]
    otherwise, each step but the first giving [undefined] when there is
    nothing to read from. *)
Definition replyOf (settings : AiService.AISettings) (data : value)
  : outcome (option value) :=
  if eqb_string (AiService.provider settings) (js "claude") then
    content <- AiService.prop data (js "content");;
    Return (AiService.optProp (AiService.optFirst content) (js "text"))
  else
    choices <- AiService.prop data (js "choices");;
    Return (AiService.optProp
              (AiService.optProp (AiService.optFirst choices)
                                 (js "message"))
              (js "content")).

(** The [request] was answered with a status in the [ok] range and a
    body of JSON that holds the string [content], not empty, where the
    provider looks for the reply. *)
Definition answered (rt : AiService.Runtime)
           (settings : AiService.AISettings)
           (request : AiService.Request) (content : jsstring) : Prop :=
  exists response data,
    AiService.fetch rt request = Return response
    /\ AiService.ok response = true
    /\ AiService.json response = Return data
    /\ replyOf settings data = Return (Some (JString content))
    /\ content <> [].

End CodeStatements.

(* ================================================================= *)
(** * Properties *)

(** ** Numbers *)

Module JsNumberFacts.
Import JsNumber.

(** [String(1.5)], [String(1e21)], [String(0.000001)], [String(1e-7)] *)
Example toString_fraction :
  toString (ofDecimal false (js "1") (js "5") false []) = js "1.5".
Proof. vm_compute. reflexivity. Qed.

Example toString_large :
  toString (ofDecimal false (js "1") [] false (js "21")) = js "1e+21".
Proof. vm_compute. reflexivity. Qed.

Example toString_small :
  toString (ofDecimal false (js "0") (js "000001") false []) = js "0.000001"
  /\ toString (ofDecimal false (js "1") [] true (js "7")) = js "1e-7".
Proof. split; vm_compute; reflexivity. Qed.

(** A literal beyond the integers a Number holds exactly is rounded to
    even, and printed with the fewest digits that read back. *)
Example toString_rounded :
  toString (ofDecimal false (js "9007199254740993") [] false [])
  = js "9007199254740992"
  /\ toString (ofDecimal false (js "0") (js "30000000000000004") false [])
     = js "0.30000000000000004".
Proof. split; vm_compute; reflexivity. Qed.

(** [1e400] is [Infinity]; [-0] prints as [0] and is falsy. *)
Example toString_limits :
  toString (ofDecimal false (js "1") [] false (js "400")) = js "Infinity"
  /\ toString (ofDecimal true (js "0") [] false []) = js "0"
  /\ truthy (ofDecimal true (js "0") [] false []) = false.
Proof. repeat split; vm_compute; reflexivity. Qed.

End JsNumberFacts.

(** ** Strings *)

Lemma eqb_string_eq (a b : jsstring) : eqb_string a b = true <-> a = b.
Proof.
  revert b; induction a as [|x a IH]; intros [|y b]; simpl;
    try (split; [discriminate | congruence]); try tauto.
  rewrite andb_true_iff, N.eqb_eq, IH. split.
  - intros [-> ->]; reflexivity.
  - intros H; inversion H; auto.
Qed.

Lemma eqb_string_refl (a : jsstring) : eqb_string a a = true.
Proof. apply eqb_string_eq; reflexivity. Qed.

Lemma trimStart_length (s : jsstring) : length (trimStart s) <= length s.
Proof.
  induction s as [|c s IH]; simpl; [lia|].
  destruct (isWhiteSpace c); simpl; lia.
Qed.

Lemma trimEnd_length (s : jsstring) : length (trimEnd s) <= length s.
Proof.
  induction s as [|c s IH]; simpl; [lia|].
  destruct (trimEnd s) as [|d u]; [destruct (isWhiteSpace c)|];
    simpl in *; lia.
Qed.

Lemma trim_length (s : jsstring) : length (trim s) <= length s.
Proof.
  unfold trim. pose proof (trimEnd_length (trimStart s)).
  pose proof (trimStart_length s). lia.
Qed.

Lemma stripPrefix_spec (p s r : jsstring) :
  stripPrefix p s = Some r <-> s = p ++ r.
Proof.
  revert s; induction p as [|a p IH]; intros s; simpl.
  - split; congruence.
  - destruct s as [|b s]; [split; discriminate|].
    destruct (N.eqb_spec a b) as [->|N].
    + rewrite IH. split; [intros ->; reflexivity | congruence].
    + split; [discriminate | congruence].
Qed.

Lemma stripPrefix_app (p r : jsstring) : stripPrefix p (p ++ r) = Some r.
Proof. apply stripPrefix_spec. reflexivity. Qed.

(** Literals are reduced to their code units before an equation between
    texts is taken apart. *)
Ltac js_literals :=
  repeat match goal with
         | H : context [js ?s] |- _ =>
             let v := eval vm_compute in (js s) in
             change (js s) with v in H
         | |- context [js ?s] =>
             let v := eval vm_compute in (js s) in
             change (js s) with v
         end.

Lemma startsWith_spec (p s : jsstring) :
  startsWith p s = true <-> exists r, s = p ++ r.
Proof.
  unfold startsWith. destruct (stripPrefix p s) as [r|] eqn:E.
  - apply stripPrefix_spec in E. split; eauto.
  - split; [discriminate|]. intros [r H].
    apply stripPrefix_spec in H. congruence.
Qed.

(** [includes] finds exactly the texts that hold the pattern somewhere. *)
Lemma includes_spec (p s : jsstring) :
  includes p s = true <-> exists a b, s = a ++ p ++ b.
Proof.
  induction s as [|c s IH].
  - simpl. rewrite orb_false_r, startsWith_spec. split.
    + intros [r H]. exists [], r. exact H.
    + intros (a & b & H). destruct a; simpl in H; [eauto | discriminate].
  - cbn [includes]. rewrite orb_true_iff, startsWith_spec, IH. split.
    + intros [[r H] | (a & b & H)].
      * exists [], r. exact H.
      * exists (c :: a), b. rewrite H. reflexivity.
    + intros (a & b & H). destruct a as [|x a]; simpl in H.
      * left. eauto.
      * right. inversion H; subst. eauto.
Qed.

(** ** [mapO] *)

Lemma mapO_cons {A B} (f : A -> outcome B) (a : A) (l : list A) :
  mapO f (a :: l) = (b <- f a;; bs <- mapO f l;; Return (b :: bs)).
Proof. reflexivity. Qed.

Lemma mapO_Return {A B} (f : A -> outcome B) (l : list A) (bs : list B) :
  mapO f l = Return bs <-> Forall2 (fun a b => f a = Return b) l bs.
Proof.
  revert bs; induction l as [|a l IH]; intros bs.
  - split.
    + intros H; inversion H; constructor.
    + intros H; inversion H; reflexivity.
  - rewrite mapO_cons. split.
    + destruct (f a) as [b|e] eqn:Fa; simpl; [|discriminate].
      destruct (mapO f l) as [bs'|e] eqn:M; simpl; [|discriminate].
      intros H; inversion H; subst. constructor; [exact Fa|].
      apply IH. reflexivity.
    + intros H. inversion H as [|a' b l' bs' Fa F2]; subst.
      rewrite Fa. simpl. apply IH in F2. rewrite F2. reflexivity.
Qed.

(** An exception of [mapO] is the exception of one of the elements. *)
Lemma mapO_Throw {A B} (f : A -> outcome B) (l : list A) (e : exn) :
  mapO f l = Throw e -> exists a, In a l /\ f a = Throw e.
Proof.
  induction l as [|a l IH]; [discriminate|].
  rewrite mapO_cons.
  destruct (f a) as [b|e'] eqn:Fa; simpl.
  - destruct (mapO f l) as [bs|e'] eqn:M; simpl; [discriminate|].
    intros H; inversion H; subst.
    destruct (IH eq_refl) as (x & I & Fx). exists x. simpl. auto.
  - intros H; inversion H; subst. exists a. simpl. auto.
Qed.

Lemma Forall2_In_result {A B} (R : A -> B -> Prop) (l : list A) (l' : list B) b :
  Forall2 R l l' -> In b l' -> exists a, In a l /\ R a b.
Proof.
  induction 1 as [|a b' l l' H F IH]; simpl; [tauto|].
  intros [->|I]; [exists a; auto|].
  destruct (IH I) as (a' & Ia & Ra). exists a'; auto.
Qed.


(** ** [JSON.parse] after [JSON.stringify] *)

Module JsonFacts.
Import Json Statements.
Local Open Scope N_scope.

(** *** Strings *)

Lemma hexValue_hexDigit (n : N) : n < 16 -> hexValue (hexDigit n) = Some n.
Proof.
  intros H. unfold hexDigit, hexValue.
  destruct (N.ltb_spec n 10) as [Small|Large].
  - assert (T : (48 <=? 48 + n) && (48 + n <=? 57) = true)
      by (apply andb_true_iff; split; apply N.leb_le; lia).
    rewrite T. f_equal. lia.
  - assert (F : (48 <=? 87 + n) && (87 + n <=? 57) = false)
      by (apply andb_false_iff; right; apply N.leb_gt; lia).
    assert (T : (97 <=? 87 + n) && (87 + n <=? 102) = true)
      by (apply andb_true_iff; split; apply N.leb_le; lia).
    rewrite F, T. f_equal. lia.
Qed.

Lemma hex_digits (c : code_unit) :
  c < 65536 ->
  (c / 4096 mod 16) * 4096 + (c / 256 mod 16) * 256
  + (c / 16 mod 16) * 16 + c mod 16 = c.
Proof.
  intros H.
  pose proof (N.div_mod c 16 ltac:(lia)) as E0.
  pose proof (N.div_mod (c / 16) 16 ltac:(lia)) as E1.
  pose proof (N.div_mod (c / 16 / 16) 16 ltac:(lia)) as E2.
  pose proof (N.mod_lt c 16 ltac:(lia)).
  pose proof (N.mod_lt (c / 16) 16 ltac:(lia)).
  pose proof (N.mod_lt (c / 16 / 16) 16 ltac:(lia)).
  assert (D2 : c / 256 = c / 16 / 16)
    by (rewrite N.Div0.div_div; reflexivity).
  assert (D3 : c / 4096 = c / 16 / 16 / 16)
    by (rewrite !N.Div0.div_div; reflexivity).
  assert (S : c / 16 / 16 / 16 < 16).
  { rewrite <- D3. apply N.Div0.div_lt_upper_bound. lia. }
  rewrite D2, D3.
  rewrite (N.mod_small (c / 16 / 16 / 16) 16 S).
  pose proof (N.div_mod (c / 16 / 16) 16 ltac:(lia)) as E3.
  lia.
Qed.

Lemma hex4_unicodeEscape (c : code_unit) :
  c < 65536 ->
  hex4 (hexDigit (c / 4096 mod 16)) (hexDigit (c / 256 mod 16))
       (hexDigit (c / 16 mod 16)) (hexDigit (c mod 16)) = Some c.
Proof.
  intros H. unfold hex4.
  rewrite !hexValue_hexDigit by (apply N.mod_lt; lia).
  rewrite hex_digits by exact H. reflexivity.
Qed.

Lemma parseChars_close (r : jsstring) : parseChars (34 :: r) = Some ([], r).
Proof. reflexivity. Qed.

Lemma parseChars_literal (c : code_unit) (t : jsstring) :
  c <> 34 -> c <> 92 -> 32 <= c ->
  parseChars (c :: t)
  = match parseChars t with
    | Some (cs, r) => Some (c :: cs, r)
    | None => None
    end.
Proof.
  intros A B C. cbn [parseChars].
  destruct (N.eqb_spec c 34); [contradiction|].
  destruct (N.eqb_spec c 92); [contradiction|].
  destruct (N.ltb_spec c 32); [lia | reflexivity].
Qed.

Lemma parseChars_escape (e u : code_unit) (t : jsstring) :
  e <> 117 -> escapeValue e = Some u ->
  parseChars (92 :: e :: t)
  = match parseChars t with
    | Some (cs, r) => Some (u :: cs, r)
    | None => None
    end.
Proof.
  intros A E. cbn [parseChars].
  change (92 =? 34) with false. change (92 =? 92) with true. cbv iota.
  destruct (N.eqb_spec e 117); [contradiction|]. rewrite E. reflexivity.
Qed.

Lemma parseChars_unicode (h1 h2 h3 h4 u : code_unit) (t : jsstring) :
  hex4 h1 h2 h3 h4 = Some u ->
  parseChars (92 :: 117 :: h1 :: h2 :: h3 :: h4 :: t)
  = match parseChars t with
    | Some (cs, r) => Some (u :: cs, r)
    | None => None
    end.
Proof.
  intros E. cbn [parseChars].
  change (92 =? 34) with false. change (92 =? 92) with true.
  change (117 =? 117) with true. cbv iota. rewrite E. reflexivity.
Qed.

(** What [quoteUnit] writes for a code unit reads back as that unit. *)
Lemma parseChars_quoteUnit (c : code_unit) (t cs r : jsstring) :
  parseChars t = Some (cs, r) ->
  parseChars (quoteUnit c ++ t) = Some (c :: cs, r).
Proof.
  intros H. unfold quoteUnit.
  repeat match goal with
         | c : N |- context [if ?x =? ?k then _ else _] =>
             constr_eq x c;
             destruct (N.eqb_spec c k);
             [subst c; js_literals; cbn [app];
              erewrite parseChars_escape;
              [rewrite H; reflexivity | discriminate | reflexivity] |]
         end.
  destruct ((c <? 32) || isHighSurrogate c || isLowSurrogate c) eqn:U.
  - unfold unicodeEscape. cbn [app].
    erewrite parseChars_unicode; [rewrite H; reflexivity|].
    apply hex4_unicodeEscape.
    unfold isHighSurrogate, isLowSurrogate in U.
    repeat rewrite orb_true_iff in U. repeat rewrite andb_true_iff in U.
    repeat rewrite N.leb_le in U. rewrite N.ltb_lt in U. lia.
  - cbn [app]. rewrite parseChars_literal; [rewrite H; reflexivity | | |];
      try assumption.
    apply orb_false_iff in U. destruct U as [U _].
    apply orb_false_iff in U. destruct U as [U _].
    apply N.ltb_ge in U. exact U.
Qed.

Lemma quoteChars_pair (c d : code_unit) (t : jsstring) :
  quoteChars (c :: d :: t)
  = if isHighSurrogate c && isLowSurrogate d
    then c :: d :: quoteChars t
    else quoteUnit c ++ quoteChars (d :: t).
Proof. reflexivity. Qed.

Lemma parseChars_quoteChars_bounded (n : nat) :
  forall s r, (length s <= n)%nat ->
              parseChars (quoteChars s ++ 34 :: r) = Some (s, r).
Proof.
  induction n as [|n IH]; intros s r L.
  - destruct s; [reflexivity | simpl in L; lia].
  - destruct s as [|c [|d t]].
    + reflexivity.
    + cbn [quoteChars]. apply parseChars_quoteUnit. reflexivity.
    + rewrite quoteChars_pair.
      destruct (isHighSurrogate c && isLowSurrogate d) eqn:P.
      * apply andb_true_iff in P. destruct P as [Hc Hd].
        unfold isHighSurrogate in Hc. unfold isLowSurrogate in Hd.
        apply andb_true_iff in Hc. apply andb_true_iff in Hd.
        rewrite !N.leb_le in Hc, Hd.
        cbn [app].
        rewrite parseChars_literal by lia.
        rewrite parseChars_literal by lia.
        rewrite IH by (simpl in L; lia). reflexivity.
      * rewrite <- app_assoc. apply parseChars_quoteUnit.
        apply IH. simpl in *. lia.
Qed.

(** A quoted string reads back as the string, whatever follows it. *)
Lemma parseChars_quoteChars (s r : jsstring) :
  parseChars (quoteChars s ++ 34 :: r) = Some (s, r).
Proof. apply (parseChars_quoteChars_bounded (length s)). lia. Qed.

(** *** Values *)

Section ValueInduction.
Variable P : value -> Prop.
Hypothesis HNull : P JNull.
Hypothesis HBool : forall b, P (JBool b).
Hypothesis HNumber : forall n, P (JNumber n).
Hypothesis HString : forall s, P (JString s).
Hypothesis HArray : forall items, Forall P items -> P (JArray items).
Hypothesis HObject :
  forall ms, Forall (fun m => P (snd m)) ms -> P (JObject ms).

Fixpoint value_induction (v : value) : P v :=
  match v with
  | JNull => HNull
  | JBool b => HBool b
  | JNumber n => HNumber n
  | JString s => HString s
  | JArray items =>
      HArray items
        ((fix all (l : list value) : Forall P l :=
            match l with
            | [] => Forall_nil P
            | x :: t => Forall_cons x (value_induction x) (all t)
            end) items)
  | JObject ms =>
      HObject ms
        ((fix all (l : list (jsstring * value))
           : Forall (fun m => P (snd m)) l :=
            match l with
            | [] => Forall_nil _
            | m :: t => Forall_cons m (value_induction (snd m)) (all t)
            end) ms)
  end.
End ValueInduction.

Lemma stringify_opens (v : value) (rest : jsstring) :
  numberFree v = true -> opensValue (stringify v ++ rest).
Proof.
  unfold opensValue. destruct v as [|[|]|n|s|items|ms]; intros NF;
    try discriminate NF;
    eexists _, _; (split; [reflexivity|]); repeat split.
Qed.

Lemma skipSpace_opens (s : jsstring) : opensValue s -> skipSpace s = s.
Proof.
  intros (c & u & -> & W & _). cbn [skipSpace]. rewrite W. reflexivity.
Qed.

(** One step of each parser on the text it expects. *)
Lemma parseValue_string (f : nat) (t : jsstring) :
  parseValue (S f) (34 :: t)
  = match parseChars t with
    | Some (cs, r) => Some (JString cs, r)
    | None => None
    end.
Proof. reflexivity. Qed.

Lemma parseValue_array (f : nat) (t : jsstring) :
  opensValue t ->
  parseValue (S f) (91 :: t)
  = match parseElements f t with
    | Some (vs, r) => Some (JArray vs, r)
    | None => None
    end.
Proof.
  intros O. pose proof (skipSpace_opens _ O) as E.
  destruct O as (c & u & -> & W & A & B).
  change (parseValue (S f) (91 :: c :: u))
    with (match skipSpace (c :: u) with
          | c' :: t' =>
              if c' =? 93 then Some (JArray [], t')
              else match parseElements f (c :: u) with
                   | Some (vs, r) => Some (JArray vs, r)
                   | None => None
                   end
          | [] => None
          end).
  rewrite E, A. reflexivity.
Qed.

Lemma parseValue_object (f : nat) (t : jsstring) :
  opensValue t ->
  parseValue (S f) (123 :: t)
  = match parseMembers f t with
    | Some (ms, r) => Some (JObject ms, r)
    | None => None
    end.
Proof.
  intros O. pose proof (skipSpace_opens _ O) as E.
  destruct O as (c & u & -> & W & A & B).
  change (parseValue (S f) (123 :: c :: u))
    with (match skipSpace (c :: u) with
          | c' :: t' =>
              if c' =? 125 then Some (JObject [], t')
              else match parseMembers f (c :: u) with
                   | Some (ms, r) => Some (JObject ms, r)
                   | None => None
                   end
          | [] => None
          end).
  rewrite E, B. reflexivity.
Qed.

Lemma parseElements_step (f : nat) (s : jsstring) :
  parseElements (S f) s
  = match parseValue f s with
    | None => None
    | Some (v, r) =>
        match skipSpace r with
        | c :: t =>
            if c =? 44 then
              match parseElements f t with
              | Some (vs, r') => Some (v :: vs, r')
              | None => None
              end
            else if c =? 93 then Some ([v], t)
            else None
        | [] => None
        end
    end.
Proof. reflexivity. Qed.

Lemma parseMembers_step (f : nat) (t : jsstring) :
  parseMembers (S f) (34 :: t)
  = match parseChars t with
    | None => None
    | Some (k, r) =>
        match skipSpace r with
        | c :: r1 =>
            if c =? 58 then
              match parseValue f r1 with
              | None => None
              | Some (v, r2) =>
                  match skipSpace r2 with
                  | d :: r3 =>
                      if d =? 44 then
                        match parseMembers f r3 with
                        | Some (ms, r') => Some ((k, v) :: ms, r')
                        | None => None
                        end
                      else if d =? 125 then Some ([(k, v)], r3)
                      else None
                  | [] => None
                  end
              end
            else None
        | [] => None
        end
    end.
Proof. reflexivity. Qed.

Lemma readsElements_cons (x : value) (items : list value) :
  reads x -> (items = [] \/ readsElements items) ->
  readsElements (x :: items).
Proof.
  intros [fx Hx] [->|[fi Hi]].
  - exists (S fx). intros f rest L. destruct f as [|f]; [lia|].
    rewrite parseElements_step. cbn [map join].
    rewrite Hx by lia. reflexivity.
  - exists (S (max fx fi)). intros f rest L. destruct f as [|f]; [lia|].
    rewrite parseElements_step.
    destruct items as [|y items].
    + cbn [map join]. rewrite Hx by lia. reflexivity.
    + change (join (js ",") (map stringify (x :: y :: items)))
        with (stringify x ++ js ","
                ++ join (js ",") (map stringify (y :: items))).
      rewrite <- !app_assoc. rewrite Hx by lia.
      change (skipSpace (js "," ++ join (js ",") (map stringify (y :: items))
                            ++ 93 :: rest))
        with (44 :: join (js ",") (map stringify (y :: items)) ++ 93 :: rest).
      change (44 =? 44) with true. cbv iota.
      rewrite Hi by lia. reflexivity.
Qed.

Lemma readsElements_all (items : list value) :
  Forall reads items -> items <> [] -> readsElements items.
Proof.
  induction 1 as [|x items Hx F IH]; [congruence|]. intros _.
  apply readsElements_cons; [exact Hx|].
  destruct items; [left; reflexivity | right; apply IH; discriminate].
Qed.

Lemma readsMembers_cons (m : jsstring * value)
      (ms : list (jsstring * value)) :
  numberFree (snd m) = true ->
  reads (snd m) -> (ms = [] \/ readsMembers ms) ->
  readsMembers (m :: ms).
Proof.
  destruct m as [k x]. cbn [snd]. intros NF [fx Hx] Hms.
  assert (Step : forall f tail,
             (fx <= f)%nat ->
             parseMembers (S f) (memberText (k, x) ++ tail)
             = match skipSpace tail with
               | d :: r3 =>
                   if d =? 44 then
                     match parseMembers f r3 with
                     | Some (ms', r') => Some ((k, x) :: ms', r')
                     | None => None
                     end
                   else if d =? 125 then Some ([(k, x)], r3)
                   else None
               | [] => None
               end).
  { intros f tail L. unfold memberText, quote. cbn [fst snd].
    change (dq ++ quoteChars k ++ dq) with (34 :: quoteChars k ++ [34]).
    change (((34 :: quoteChars k ++ [34]) ++ js ":" ++ stringify x) ++ tail)
      with (34 :: ((quoteChars k ++ [34]) ++ js ":" ++ stringify x) ++ tail).
    rewrite parseMembers_step.
    rewrite <- !app_assoc.
    change ([34] ++ js ":" ++ stringify x ++ tail)
      with (34 :: 58 :: stringify x ++ tail).
    rewrite parseChars_quoteChars.
    change (skipSpace (58 :: stringify x ++ tail))
      with (58 :: stringify x ++ tail).
    change (58 =? 58) with true. cbv iota.
    rewrite Hx by lia. reflexivity. }
  destruct Hms as [->|[fm Hm]].
  - exists (S fx). intros f rest L. destruct f as [|f]; [lia|].
    cbn [map join]. rewrite Step by lia. reflexivity.
  - exists (S (max fx fm)). intros f rest L. destruct f as [|f]; [lia|].
    destruct ms as [|m' ms].
    + cbn [map join]. rewrite Step by lia. reflexivity.
    + change (join (js ",") (map memberText ((k, x) :: m' :: ms)))
        with (memberText (k, x) ++ js ","
                ++ join (js ",") (map memberText (m' :: ms))).
      rewrite <- !app_assoc. rewrite Step by lia.
      change (skipSpace (js "," ++ join (js ",") (map memberText (m' :: ms))
                            ++ 125 :: rest))
        with (44 :: join (js ",") (map memberText (m' :: ms)) ++ 125 :: rest).
      change (44 =? 44) with true. cbv iota.
      rewrite Hm by lia. reflexivity.
Qed.

Lemma readsMembers_all (ms : list (jsstring * value)) :
  Forall (fun m => numberFree (snd m) = true -> reads (snd m)) ms ->
  forallb (fun m => numberFree (snd m)) ms = true ->
  ms <> [] -> readsMembers ms.
Proof.
  induction 1 as [|m ms Hm F IH]; [congruence|]. intros NF _.
  cbn [forallb] in NF. apply andb_true_iff in NF. destruct NF as [NFm NF].
  apply readsMembers_cons; [exact NFm | apply Hm; exact NFm |].
  destruct ms; [left; reflexivity | right; apply IH; [exact NF|discriminate]].
Qed.

(** [JSON.parse] reads back what [JSON.stringify] wrote, for a value
    without numbers. *)
Lemma parseValue_stringify (v : value) : numberFree v = true -> reads v.
Proof.
  induction v as [|b|n|s|items IH|ms IH] using value_induction; intros NF.
  - exists 1%nat. intros [|f] rest L; [lia | reflexivity].
  - exists 1%nat. intros [|f] rest L; [lia | destruct b; reflexivity].
  - discriminate NF.
  - exists 1%nat. intros [|f] rest L; [lia|].
    cbn [stringify]. unfold quote.
    change ((dq ++ quoteChars s ++ dq) ++ rest)
      with (34 :: (quoteChars s ++ [34]) ++ rest).
    rewrite parseValue_string, <- app_assoc.
    change ([34] ++ rest) with (34 :: rest).
    rewrite parseChars_quoteChars. reflexivity.
  - cbn [numberFree] in NF. destruct items as [|x items].
    + exists 1%nat. intros [|f] rest L; [lia | reflexivity].
    + assert (R : readsElements (x :: items)).
      { apply readsElements_all; [|discriminate].
        rewrite Forall_forall in IH. apply Forall_forall.
        intros y Iy. apply IH; [exact Iy|].
        rewrite forallb_forall in NF. apply NF. exact Iy. }
      destruct R as [fe He]. exists (S fe).
      intros [|f] rest L; [lia|].
      cbn [stringify].
      change ((js "[" ++ join (js ",") (map stringify (x :: items)) ++ js "]")
                ++ rest)
        with (91 :: (join (js ",") (map stringify (x :: items)) ++ [93])
                 ++ rest).
      rewrite <- app_assoc. change ([93] ++ rest) with (93 :: rest).
      rewrite parseValue_array.
      * rewrite He by lia. reflexivity.
      * cbn [forallb] in NF. apply andb_true_iff in NF.
        destruct NF as [NFx _].
        destruct items as [|y items].
        -- cbn [map join]. apply stringify_opens. exact NFx.
        -- change (join (js ",") (map stringify (x :: y :: items)))
             with (stringify x ++ js ","
                     ++ join (js ",") (map stringify (y :: items))).
           rewrite <- app_assoc. apply stringify_opens. exact NFx.
  - cbn [numberFree] in NF. destruct ms as [|m ms].
    + exists 1%nat. intros [|f] rest L; [lia | reflexivity].
    + assert (R : readsMembers (m :: ms))
        by (apply readsMembers_all; [exact IH | exact NF | discriminate]).
      destruct R as [fe He]. exists (S fe).
      intros [|f] rest L; [lia|].
      cbn [stringify]. fold memberText.
      change ((js "{" ++ join (js ",") (map memberText (m :: ms)) ++ js "}")
                ++ rest)
        with (123 :: (join (js ",") (map memberText (m :: ms)) ++ [125])
                  ++ rest).
      rewrite <- app_assoc. change ([125] ++ rest) with (125 :: rest).
      rewrite parseValue_object.
      * rewrite He by lia. reflexivity.
      * exists 34, ((quoteChars (fst m) ++ dq) ++ js ":" ++ stringify (snd m)
                      ++ match ms with
                         | [] => []
                         | _ :: _ =>
                             js "," ++ join (js ",") (map memberText ms)
                         end ++ 125 :: rest).
        split; [|repeat split].
        destruct ms as [|m' ms].
        -- cbn [map join]. unfold memberText, quote.
           rewrite <- !app_assoc. reflexivity.
        -- change (join (js ",") (map memberText (m :: m' :: ms)))
             with (memberText m ++ js ","
                     ++ join (js ",") (map memberText (m' :: ms))).
           unfold memberText at 1, quote.
           rewrite <- !app_assoc. reflexivity.
Qed.

(** *** The step counter of the parser

    Every call of the parser consumes input, so the [2 * length text + 2]
    steps that [parse] provides are never used up: with that many steps or
    more, the result is the same. *)

Lemma skipSpace_length (s : jsstring) :
  (length (skipSpace s) <= length s)%nat.
Proof.
  induction s as [|c s IH]; cbn [skipSpace]; [lia|].
  destruct (isJsonSpace c); cbn [length] in *; lia.
Qed.

Lemma skipSpace_cons_length (s t : jsstring) (c : code_unit) :
  skipSpace s = c :: t -> (length t < length s)%nat.
Proof.
  intros H. pose proof (skipSpace_length s) as L. rewrite H in L.
  cbn [length] in L. lia.
Qed.

Lemma stripPrefix_length (p s r : jsstring) :
  stripPrefix p s = Some r -> (length r <= length s)%nat.
Proof.
  intros H. apply stripPrefix_spec in H. subst. rewrite length_app. lia.
Qed.

(** Case analysis on what a hypothesis examines, innermost first. *)
Ltac break_match :=
  match goal with
  | H : context [match ?x with _ => _ end] |- _ =>
      lazymatch x with
      | context [match _ with _ => _ end] => fail
      | _ => destruct x eqn:?
      end
  end.

Ltac injections :=
  repeat match goal with
         | E : (_, _) = (_, _) |- _ => inversion E; subst; clear E
         | E : Some _ = Some _ |- _ => inversion E; subst; clear E
         end.

Lemma parseChars_length_bounded (n : nat) :
  forall s cs r, (length s <= n)%nat ->
                 parseChars s = Some (cs, r) -> (length r < length s)%nat.
Proof.
  induction n as [|n IH]; intros s cs r L H.
  - destruct s; [discriminate H | cbn [length] in L; lia].
  - destruct s as [|c t]; [discriminate H|].
    cbn [parseChars] in H.
    repeat (break_match; try discriminate);
      injections; cbn [length] in *;
      repeat match goal with
             | E : parseChars _ = Some _ |- _ =>
                 apply IH in E; [|cbn [length]; lia]
             end;
      cbn [length] in *; lia.
Qed.

Lemma parseChars_length (s cs r : jsstring) :
  parseChars s = Some (cs, r) -> (length r < length s)%nat.
Proof. apply (parseChars_length_bounded (length s)). lia. Qed.

Lemma spanDigits_length (s ds r : jsstring) :
  spanDigits s = (ds, r) -> (length r <= length s)%nat.
Proof.
  revert ds r. induction s as [|c s IH]; intros ds r H; cbn [spanDigits] in H.
  - inversion H; subst. cbn [length]. lia.
  - destruct (isDigit c).
    + destruct (spanDigits s) as [ds' r'] eqn:E. inversion H; subst.
      specialize (IH _ _ eq_refl). cbn [length]. lia.
    + inversion H; subst. lia.
Qed.

Lemma parseNumber_length (s r : jsstring) (n : JsNumber.number) :
  parseNumber s = Some (n, r) -> (length r < length s)%nat.
Proof.
  unfold parseNumber, parseInt, parseFrac, parseExp. intros H.
  repeat (break_match; try discriminate);
    injections;
    repeat match goal with
           | E : spanDigits _ = (_, _) |- _ => apply spanDigits_length in E
           end;
    cbn [length] in *; lia.
Qed.

Ltac length_facts :=
  repeat match goal with
         | E : skipSpace _ = _ :: _ |- _ => apply skipSpace_cons_length in E
         | E : parseChars _ = Some _ |- _ => apply parseChars_length in E
         | E : stripPrefix _ _ = Some _ |- _ => apply stripPrefix_length in E
         | E : parseNumber _ = Some _ |- _ => apply parseNumber_length in E
         end.

Lemma parse_consumes (f : nat) :
  (forall s v r, parseValue f s = Some (v, r) -> (length r < length s)%nat)
  /\ (forall s vs r,
        parseElements f s = Some (vs, r) -> (length r < length s)%nat)
  /\ (forall s ms r,
        parseMembers f s = Some (ms, r) -> (length r < length s)%nat).
Proof.
  induction f as [|f (IHv & IHe & IHm)];
    [repeat split; intros; discriminate|].
  repeat split; intros s x r H.
  - cbn [parseValue] in H.
    repeat (break_match; try discriminate);
      injections;
      repeat match goal with
             | E : parseElements f _ = Some _ |- _ => apply IHe in E
             | E : parseMembers f _ = Some _ |- _ => apply IHm in E
             end;
      length_facts; cbn [length] in *; lia.
  - cbn [parseElements] in H.
    repeat (break_match; try discriminate);
      injections;
      repeat match goal with
             | E : parseValue f _ = Some _ |- _ => apply IHv in E
             | E : parseElements f _ = Some _ |- _ => apply IHe in E
             end;
      length_facts; cbn [length] in *; lia.
  - cbn [parseMembers] in H.
    repeat (break_match; try discriminate);
      injections;
      repeat match goal with
             | E : parseValue f _ = Some _ |- _ => apply IHv in E
             | E : parseMembers f _ = Some _ |- _ => apply IHm in E
             end;
      length_facts; cbn [length] in *; lia.
Qed.

Ltac consumed :=
  repeat match goal with
         | E : parseValue ?f _ = Some _ |- _ =>
             apply (proj1 (parse_consumes f)) in E
         | E : parseElements ?f _ = Some _ |- _ =>
             apply (proj1 (proj2 (parse_consumes f))) in E
         | E : parseMembers ?f _ = Some _ |- _ =>
             apply (proj2 (proj2 (parse_consumes f))) in E
         end;
  length_facts; cbn [length] in *.

Lemma parse_steps_enough (f : nat) :
  (forall s f', (2 * length s < f)%nat -> (f <= f')%nat ->
                parseValue f s = parseValue f' s)
  /\ (forall s f', (2 * length s + 1 < f)%nat -> (f <= f')%nat ->
                   parseElements f s = parseElements f' s)
  /\ (forall s f', (2 * length s + 1 < f)%nat -> (f <= f')%nat ->
                   parseMembers f s = parseMembers f' s).
Proof.
  induction f as [|f (IHv & IHe & IHm)]; [repeat split; intros; lia|].
  repeat split; intros s [|f'] L1 L2; try lia.
  - cbn [parseValue].
    repeat match goal with
           | |- context [match ?x with _ => _ end] =>
               lazymatch x with
               | parseElements f ?t =>
                   rewrite (IHe t f') by (consumed; lia)
               | parseMembers f ?t =>
                   rewrite (IHm t f') by (consumed; lia)
               | _ => destruct x eqn:?
               end
           end; reflexivity.
  - cbn [parseElements].
    repeat match goal with
           | |- context [match ?x with _ => _ end] =>
               lazymatch x with
               | parseValue f ?t =>
                   rewrite (IHv t f') by (consumed; lia)
               | parseElements f ?t =>
                   rewrite (IHe t f') by (consumed; lia)
               | _ => destruct x eqn:?
               end
           end; reflexivity.
  - cbn [parseMembers].
    repeat match goal with
           | |- context [match ?x with _ => _ end] =>
               lazymatch x with
               | parseValue f ?t =>
                   rewrite (IHv t f') by (consumed; lia)
               | parseMembers f ?t =>
                   rewrite (IHm t f') by (consumed; lia)
               | _ => destruct x eqn:?
               end
           end; reflexivity.
Qed.

(** [JSON.parse(JSON.stringify(v))] is [v], for a value without
    numbers. *)
Lemma parse_stringify (v : value) :
  numberFree v = true -> parse (stringify v) = Return v.
Proof.
  intros NF. destruct (parseValue_stringify v NF) as [f0 H].
  unfold parse.
  set (text := stringify v).
  rewrite (proj1 (parse_steps_enough (2 * length text + 2)) text
             (max f0 (2 * length text + 2))) by lia.
  subst text.
  rewrite <- (app_nil_r (stringify v)) at 2.
  rewrite H by lia. reflexivity.
Qed.

End JsonFacts.


(** ** Regular expressions *)

Module RegExpFacts.
Import RegExp Statements.

(** A successful [c*] has passed characters of the class and handed the
    rest to its continuation. *)
Lemma greedyStar_inv {R} (cls : code_unit -> bool)
      (k : jsstring -> option R) (s : jsstring) (r : R) :
  greedyStar cls k s = Some r ->
  exists ws rest,
    s = ws ++ rest /\ forallb cls ws = true /\ k rest = Some r.
Proof.
  induction s as [|c t IH]; simpl.
  - intros H. exists [], []. auto.
  - destruct (cls c) eqn:C.
    + destruct (greedyStar cls k t) as [r'|] eqn:G.
      * intros H; inversion H; subst.
        destruct (IH eq_refl) as (ws & rest & -> & F & K).
        exists (c :: ws), rest. simpl. rewrite C, F. auto.
      * intros H. exists [], (c :: t). auto.
    + intros H. exists [], (c :: t). auto.
Qed.

(** When what follows cannot start with a character of the class, [c*]
    passes all of them: there is nothing to backtrack to. *)
Lemma greedyStar_all {R} (cls : code_unit -> bool)
      (k : jsstring -> option R) (ws rest : jsstring) :
  (forall c t, cls c = true -> k (c :: t) = None) ->
  forallb cls ws = true ->
  match rest with c :: _ => cls c = false | [] => True end ->
  greedyStar cls k (ws ++ rest) = k rest.
Proof.
  intros K. induction ws as [|c ws IH]; simpl; intros F H.
  - destruct rest as [|c t]; [reflexivity|]. simpl. rewrite H. reflexivity.
  - apply andb_true_iff in F. destruct F as [C F]. rewrite C.
    rewrite (IH F H).
    destruct (k rest) as [r|] eqn:E; [reflexivity|].
    apply K. exact C.
Qed.

Lemma lazyStar_inv {R} (cls : code_unit -> bool)
      (k : jsstring -> jsstring -> option R) (s : jsstring) (r : R) :
  lazyStar cls k s = Some r ->
  exists group rest,
    s = group ++ rest /\ forallb cls group = true /\ k group rest = Some r.
Proof.
  revert k; induction s as [|c t IH]; intros k; simpl.
  - destruct (k [] []) eqn:E; [|discriminate].
    intros H; inversion H; subst. exists [], []. auto.
  - destruct (k [] (c :: t)) eqn:E.
    + intros H; inversion H; subst. exists [], (c :: t). auto.
    + destruct (cls c) eqn:C; [|discriminate].
      intros H. destruct (IH _ H) as (g & rest & -> & F & K).
      exists (c :: g), rest. simpl. rewrite C, F. auto.
Qed.

(** The scan passes the characters of a match it has replaced. *)
Lemma replaceFrom_skip (m : jsstring -> option (jsstring * jsstring))
      (a r : jsstring) :
  replaceFrom m (length a) (a ++ r) = replaceFrom m 0 r.
Proof. induction a as [|x a IH]; simpl; auto. Qed.

Lemma replaceAll_nil m : replaceAll m [] = [].
Proof. reflexivity. Qed.

Lemma replaceAll_miss m (c : code_unit) (t : jsstring) :
  m (c :: t) = None -> replaceAll m (c :: t) = c :: replaceAll m t.
Proof. unfold replaceAll. simpl. intros ->. reflexivity. Qed.

Lemma replaceAll_hit m (c : code_unit) (t a replacement rest : jsstring) :
  m (c :: t) = Some (replacement, rest) ->
  t = a ++ rest ->
  replaceAll m (c :: t) = replacement ++ replaceAll m rest.
Proof.
  unfold replaceAll. simpl. intros -> ->. f_equal.
  rewrite length_app.
  replace (length a + length rest - length rest)%nat with (length a) by lia.
  apply replaceFrom_skip.
Qed.

Lemma replaceAll_match m (s : jsstring) (c : code_unit)
      (a replacement rest : jsstring) :
  m s = Some (replacement, rest) ->
  s = c :: a ++ rest ->
  replaceAll m s = replacement ++ replaceAll m rest.
Proof.
  intros M ->. apply (replaceAll_hit m c (a ++ rest) a); auto.
Qed.

End RegExpFacts.


(** ** [validateText] *)

Module DocumentParserFacts.
Import DocumentParser Statements.

Lemma validateText_accepts (text : jsstring) :
  valid (validateText text) = true <->
  (20 <= N.of_nat (length (trim text)) <= 50000)%N.
Proof.
  unfold validateText. destruct text as [|c t].
  - simpl. split; [discriminate | lia].
  - cbv zeta.
    destruct (N.eqb_spec (N.of_nat (length (trim (c :: t)))) 0) as [E|E];
      [simpl; split; [discriminate | lia]|].
    destruct (N.ltb_spec (N.of_nat (length (trim (c :: t)))) 20);
      [simpl; split; [discriminate | lia]|].
    destruct (N.ltb_spec 50000 (N.of_nat (length (trim (c :: t)))));
      simpl; split; try discriminate; try lia; auto.
Qed.

(** C9, as amended.  The validator measures the text after [trim]: it
    accepts exactly the texts whose trimmed length is between 20 and
    50,000; so every text of length 19 is rejected, and a text is accepted
    at the boundary when its trimmed length is 20. *)
Theorem validateText_boundary (text : jsstring) :
  (valid (validateText text) = true <->
   (20 <= N.of_nat (length (trim text)) <= 50000)%N)
  /\ (length text = 19%nat -> valid (validateText text) = false)
  /\ (length (trim text) = 20%nat -> valid (validateText text) = true).
Proof.
  split; [apply validateText_accepts|]. split.
  - intros H. pose proof (trim_length text) as L.
    destruct (valid (validateText text)) eqn:V; [|reflexivity].
    apply validateText_accepts in V. lia.
  - intros H. apply validateText_accepts. rewrite H. lia.
Qed.

Lemma validateText_boundary_witness :
  valid (validateText (js "12345678901234567890")) = true.
Proof.
  apply (proj2 (proj2 (validateText_boundary (js "12345678901234567890")))).
  reflexivity.
Defined.

(** Twenty characters, the last of them a space: after [trim] they are
    nineteen, and the text is rejected. *)
Lemma validateText_length_20_rejected :
  length (js "1234567890123456789 ") = 20%nat
  /\ valid (validateText (js "1234567890123456789 ")) = false.
Proof. split; reflexivity. Qed.

End DocumentParserFacts.

(** ** [parseAIResponse], [isValidCard], [normalizeCard] *)

Module PromptBuilderFacts.
Import Json JsonFacts RegExp PromptBuilder Statements.

(** *** Errors give the empty sequence *)

(** C1.  [parseAIResponse] returns on every input: whatever the body of
    its [try] block throws (a [SyntaxError] of [JSON.parse], the error for
    a top-level value that is not an array, a [TypeError] of a
    conversion), the result is the empty sequence; in particular a
    payload that parses to anything but an array, a single object
    included, gives the empty sequence. *)
Theorem parseAIResponse_never_throws (response : jsstring) :
  (exists cards, parseAIResponse response = Return cards)
  /\ (forall e, parseAIResponseBody response = Throw e ->
                parseAIResponse response = Return [])
  /\ (forall e, Json.parse (cleanJson (jsonStrOf response)) = Throw e ->
                parseAIResponse response = Return [])
  /\ (forall v, Json.parse (cleanJson (jsonStrOf response)) = Return v ->
                (forall items, v <> JArray items) ->
                parseAIResponse response = Return []).
Proof.
  unfold parseAIResponse, parseAIResponseBody.
  repeat split.
  - destruct (Json.parse _) as [v|e]; simpl; [|eauto].
    destruct v; simpl; eauto.
    destruct (mapO _ _); simpl; eauto.
  - intros e ->. reflexivity.
  - intros e ->. reflexivity.
  - intros v -> N. destruct v; simpl; try reflexivity.
    exfalso. eapply N. reflexivity.
Qed.

Lemma parseAIResponse_never_throws_witness :
  parseAIResponse singleObjectReply = Return [].
Proof.
  destruct (parseAIResponse_never_throws singleObjectReply)
    as (_ & _ & _ & H).
  eapply H.
  - vm_compute. reflexivity.
  - intros items. discriminate.
Defined.

(** *** The validity predicate *)

Lemma cardTypeOfName_spec (s : jsstring) (t : CardType) :
  cardTypeOfName s = Some t <-> s = cardTypeName t.
Proof.
  unfold cardTypeOfName. split.
  - repeat match goal with
           | |- context [eqb_string s ?l] =>
               let E := fresh "E" in
               destruct (eqb_string s l) eqn:E;
               [apply eqb_string_eq in E; rewrite E;
                intros H; inversion H; reflexivity |]
           end.
    intros H; discriminate H.
  - intros ->. destruct t; reflexivity.
Qed.

Lemma cardTypeOf_spec (v : value) (t : CardType) :
  cardTypeOf v = Some t <->
  getProp v (js "type") = Some (JString (cardTypeName t)).
Proof.
  unfold cardTypeOf.
  destruct (getProp v (js "type")) as [[| | |s| |]|];
    try (split; discriminate).
  rewrite cardTypeOfName_spec. split; congruence.
Qed.

Lemma isString_spec x : isString x = true <-> isStringValue x.
Proof.
  unfold isString, isStringValue.
  destruct x as [[| | |s| |]|]; split; try discriminate; eauto;
    intros [? ?]; discriminate.
Qed.

Lemma isArray_spec x : isArray x = true <-> isArrayValue x.
Proof.
  unfold isArray, isArrayValue.
  destruct x as [[| | | |l|]|]; split; try discriminate; eauto;
    intros [? ?]; discriminate.
Qed.

Lemma isValidCard_spec (v : value) :
  isValidCard v = true <-> acceptedBySpec v.
Proof.
  unfold acceptedBySpec. split.
  - intros H.
    assert (O : match v with JObject _ | JArray _ => True | _ => False end)
      by (destruct v; simpl in H; try discriminate; exact I).
    split; [exact O|].
    assert (H' : match cardTypeOf v with
                 | None => false
                 | Some Cloze =>
                     match getProp v (js "clozeText") with
                     | Some (JString s) => includes (js "{{") s
                     | _ => false
                     end
                 | Some ListCard =>
                     isString (getProp v (js "front"))
                     && isArray (getProp v (js "back"))
                 | Some _ =>
                     isString (getProp v (js "front"))
                     && isString (getProp v (js "back"))
                 end = true)
      by (destruct v; simpl in H; try discriminate; exact H).
    destruct (cardTypeOf v) as [t|] eqn:T; [|discriminate].
    exists t. split; [apply cardTypeOf_spec; exact T|].
    destruct t;
      try (apply andb_true_iff in H'; destruct H' as [F B];
           split; first [apply isString_spec | apply isArray_spec];
           assumption).
    destruct (getProp v (js "clozeText")) as [[| | |s| |]|];
      try discriminate.
    exists s. split; [reflexivity|]. apply includes_spec. exact H'.
  - intros (O & t & T & H). apply cardTypeOf_spec in T.
    assert (G : match cardTypeOf v with
                 | None => false
                 | Some Cloze =>
                     match getProp v (js "clozeText") with
                     | Some (JString s) => includes (js "{{") s
                     | _ => false
                     end
                 | Some ListCard =>
                     isString (getProp v (js "front"))
                     && isArray (getProp v (js "back"))
                 | Some _ =>
                     isString (getProp v (js "front"))
                     && isString (getProp v (js "back"))
                 end = true).
    { rewrite T. destruct t;
        try (destruct H as [F B]; apply andb_true_iff;
             split; first [apply isString_spec | apply isArray_spec];
             assumption).
      destruct H as (s & -> & C). apply includes_spec. exact C. }
    destruct v; simpl in O; try contradiction; exact G.
Qed.

(** *** The exceptions of the body *)

(** A conversion to a string throws nothing but a [TypeError]. *)
Lemma toString_throws (v : value) (e : exn) :
  toString v = Throw e -> e = TypeError.
Proof.
  revert e.
  induction v as [|b|n|s|items IH|ms IH] using value_induction;
    intros e; cbn [toString]; try discriminate.
  - destruct (mapO _ items) as [strs|e'] eqn:M; simpl; [discriminate|].
    intros H; inversion H; subst.
    apply mapO_Throw in M. destruct M as (x & I & Tx).
    rewrite Forall_forall in IH.
    destruct x; try discriminate Tx; apply (IH _ I); exact Tx.
  - destruct (lookupLast (js "toString") ms); [|discriminate].
    intros H; inversion H; reflexivity.
Qed.

(** On an element [isValidCard] accepts, [normalizeCard] returns a card
    or throws a [TypeError]: the casts of the source are sound there. *)
Lemma normalizeCard_throws (element : value) (e : exn) :
  isValidCard element = true ->
  normalizeCard element = Throw e -> e = TypeError.
Proof.
  intros V. apply isValidCard_spec in V.
  destruct V as (_ & t & T & H). apply cardTypeOf_spec in T.
  unfold normalizeCard. rewrite T.
  destruct (toString (orEmpty (getProp element (js "front"))))
    as [f|e'] eqn:F; simpl;
    [|intros K; inversion K; subst; eapply toString_throws; exact F].
  assert (Plain : forall ty,
             match (s <- toString (orEmpty (getProp element (js "back")));;
                    Return (BackString s)) with
             | Return b => Return (mkCard ty f b None)
             | Throw x => Throw x
             end = Throw e -> e = TypeError).
  { intros ty.
    destruct (toString (orEmpty (getProp element (js "back"))))
      as [b|e'] eqn:B; simpl; [discriminate|].
    intros K; inversion K; subst. eapply toString_throws; exact B. }
  destruct t.
  - apply Plain.
  - apply Plain.
  - destruct (toString (orEmpty (getProp element (js "back"))))
      as [b|e'] eqn:B; simpl;
      [|intros K; inversion K; subst; eapply toString_throws; exact B].
    destruct H as (s & C & _). rewrite C.
    destruct s; simpl; discriminate.
  - destruct H as (_ & items & B). rewrite B.
    destruct (mapO toString items) as [l|e'] eqn:M; simpl; [discriminate|].
    intros K; inversion K; subst.
    apply mapO_Throw in M. destruct M as (x & _ & Tx).
    eapply toString_throws; exact Tx.
  - apply Plain.
Qed.

(** The body of the [try] block throws a [SyntaxError] (the payload is
    no JSON), the error of a payload that is no array, or a [TypeError]
    (an accepted element holds a value that has no string form). *)
Lemma parseAIResponseBody_throws (response : jsstring) (e : exn) :
  parseAIResponseBody response = Throw e ->
  e = SyntaxError \/ e = TypeError
  \/ e = Error (js "响应格式错误：期望数组").
Proof.
  unfold parseAIResponseBody, Json.parse.
  destruct (parseValue _ _) as [[v r]|]; simpl;
    [|intros H; inversion H; auto].
  destruct (skipSpace r); simpl; [|intros H; inversion H; auto].
  destruct v; simpl; try (intros H; inversion H; auto).
  apply mapO_Throw in H. destruct H as (x & I & N).
  apply filter_In in I. destruct I as [_ V].
  right. left. eapply normalizeCard_throws; eauto.
Qed.

(** What [parseAIResponse] returns when the payload is an array: the
    normal forms of the elements [isValidCard] accepts, in order, or
    nothing at all when a conversion threw. *)
Lemma parseAIResponse_array (response : jsstring) (items : list value)
      (cards : list FlashcardData) :
  Json.parse (cleanJson (jsonStrOf response)) = Return (JArray items) ->
  parseAIResponse response = Return cards ->
  cards = [] \/
  Forall2 (fun element card => normalizeCard element = Return card)
          (filter isValidCard items) cards.
Proof.
  unfold parseAIResponse, parseAIResponseBody. intros -> H. simpl in H.
  destruct (mapO normalizeCard (filter isValidCard items)) as [cs|e] eqn:M;
    simpl in H; inversion H; subst; [|left; reflexivity].
  right. apply mapO_Return. exact M.
Qed.

(** C2.  [isValidCard] accepts an element exactly when the predicate of
    the specification holds of it, and every card of the result of
    [parseAIResponse] is the normal form of an element of the parsed
    array that the predicate accepts: the result lists the accepted
    elements in order, the others are dropped. *)
Theorem isValidCard_filters :
  (forall element, isValidCard element = true <-> acceptedBySpec element)
  /\ (forall response items cards,
        Json.parse (cleanJson (jsonStrOf response)) = Return (JArray items) ->
        parseAIResponse response = Return cards ->
        (cards = [] \/
         Forall2 (fun element card => normalizeCard element = Return card)
                 (filter isValidCard items) cards)
        /\ (forall card, In card cards ->
              exists element, In element items /\ acceptedBySpec element
                              /\ normalizeCard element = Return card)).
Proof.
  split; [exact isValidCard_spec|].
  intros response items cards P R.
  destruct (parseAIResponse_array _ _ _ P R) as [->|F].
  - split; [left; reflexivity | intros card []].
  - split; [right; exact F|].
    intros card I.
    destruct (Forall2_In_result _ _ _ _ F I) as (element & Ie & N).
    apply filter_In in Ie. destruct Ie as [Ie V].
    exists element.
    split; [exact Ie | split; [apply isValidCard_spec; exact V | exact N]].
Qed.

Lemma isValidCard_filters_witness :
  parseAIResponse mixedReply
    = Return [mkCard Basic (js "Q") (BackString (js "A")) None]
  /\ exists element,
       acceptedBySpec element
       /\ normalizeCard element
          = Return (mkCard Basic (js "Q") (BackString (js "A")) None).
Proof.
  assert (R : parseAIResponse mixedReply
              = Return [mkCard Basic (js "Q") (BackString (js "A")) None])
    by (vm_compute; reflexivity).
  split; [exact R|].
  destruct isValidCard_filters as [_ H].
  destruct (H mixedReply
              [JObject [(js "type", JString (js "cloze"));
                        (js "clozeText", JString (js "no marker"))];
               JObject [(js "type", JString (js "list"));
                        (js "front", JString (js "F"));
                        (js "back", JString (js "scalar"))];
               JObject [(js "type", JString (js "basic"));
                        (js "front", JString (js "Q"));
                        (js "back", JString (js "A"))]]
              _ ltac:(vm_compute; reflexivity) R) as [_ K].
  destruct (K _ (or_introl eq_refl)) as (element & _ & A & N).
  exists element. split; assumption.
Defined.

(** *** The shape of the result *)

Lemma parseAIResponse_In (response : jsstring)
      (cards : list FlashcardData) (card : FlashcardData) :
  parseAIResponse response = Return cards -> In card cards ->
  exists element,
    isValidCard element = true /\ normalizeCard element = Return card.
Proof.
  unfold parseAIResponse, parseAIResponseBody.
  destruct (Json.parse _) as [v|e]; simpl;
    [|intros H; inversion H; subst; intros []].
  destruct v; simpl; try (intros H; inversion H; subst; intros []).
  destruct (mapO normalizeCard (filter isValidCard items)) as [cs|e] eqn:M;
    simpl; intros H; inversion H; subst; [|intros []].
  intros I. apply mapO_Return in M.
  destruct (Forall2_In_result _ _ _ _ M I) as (element & Ie & N).
  apply filter_In in Ie. exists element. tauto.
Qed.

Lemma includes_nonempty (p s : jsstring) :
  p <> [] -> includes p s = true -> s <> [].
Proof.
  intros P H ->. simpl in H. rewrite orb_false_r in H.
  apply startsWith_spec in H. destruct H as [r H].
  destruct p; [congruence | discriminate].
Qed.

(** The shape of a card [normalizeCard] makes from an accepted element. *)
Lemma normalizeCard_shape (element : value) (card : FlashcardData) :
  isValidCard element = true ->
  normalizeCard element = Return card ->
  cardTypeOf element = Some (type card)
  /\ match type card with
     | ListCard => exists items, back card = BackList items
     | _ => exists s, back card = BackString s
     end
  /\ match type card with
     | Cloze => exists s, getProp element (js "clozeText") = Some (JString s)
                          /\ clozeText card = Some s
                          /\ includes (js "{{") s = true
     | _ => clozeText card = None
     end.
Proof.
  intros V. apply isValidCard_spec in V.
  destruct V as (_ & t & T & H). apply cardTypeOf_spec in T.
  unfold normalizeCard. rewrite T.
  destruct (toString (orEmpty (getProp element (js "front")))) as [f|e];
    simpl; [|discriminate].
  destruct t.
  - destruct (toString (orEmpty (getProp element (js "back")))) as [b|e];
      simpl; [|discriminate].
    intros N; inversion N; subst; simpl. eauto.
  - destruct (toString (orEmpty (getProp element (js "back")))) as [b|e];
      simpl; [|discriminate].
    intros N; inversion N; subst; simpl. eauto.
  - destruct (toString (orEmpty (getProp element (js "back")))) as [b|e];
      simpl; [|discriminate].
    destruct H as (s & C & B). rewrite C.
    apply includes_spec in B.
    pose proof (includes_nonempty (js "{{") s ltac:(discriminate) B) as NE.
    destruct s as [|c s]; [congruence|]. simpl.
    intros N; inversion N; subst; simpl.
    split; [reflexivity|]. split; [eauto|]. eauto.
  - destruct H as (_ & items & B). rewrite B.
    destruct (mapO toString items) as [l|e]; simpl; [|discriminate].
    intros N; inversion N; subst; simpl. eauto.
  - destruct (toString (orEmpty (getProp element (js "back")))) as [b|e];
      simpl; [|discriminate].
    intros N; inversion N; subst; simpl. eauto.
Qed.

(** C10.  Every card [parseAIResponse] returns has an array for [back]
    exactly when its type is [list] and a string otherwise, and a
    [clozeText] exactly when its type is [cloze], which then contains
    [{{]; the [clozeText] of an element of another type is left out by
    [normalizeCard]. *)
Theorem parseAIResponse_shape :
  (forall response cards card,
      parseAIResponse response = Return cards -> In card cards ->
      ((exists items, back card = BackList items) <-> type card = ListCard)
      /\ ((exists s, back card = BackString s) <-> type card <> ListCard)
      /\ ((exists s, clozeText card = Some s) <-> type card = Cloze)
      /\ (forall s, clozeText card = Some s ->
                    includes (js "{{") s = true))
  /\ (forall element card supplied,
        isValidCard element = true ->
        getProp element (js "clozeText") = Some supplied ->
        cardTypeOf element <> Some Cloze ->
        normalizeCard element = Return card ->
        clozeText card = None).
Proof.
  split.
  - intros response cards card R I.
    destruct (parseAIResponse_In _ _ _ R I) as (element & V & N).
    destruct (normalizeCard_shape _ _ V N) as (_ & B & C).
    destruct card as [ty f b ct]; simpl in *.
    destruct ty;
      repeat match goal with
             | H : exists _, _ |- _ => destruct H
             | H : _ /\ _ |- _ => destruct H
             end; subst;
      repeat split; intros;
      repeat match goal with
             | H : exists _, _ |- _ => destruct H
             end;
      try congruence; try discriminate; eauto.
  - intros element card supplied V _ T N.
    destruct (normalizeCard_shape _ _ V N) as (Ty & _ & C).
    destruct (type card); try exact C. congruence.
Qed.

Lemma parseAIResponse_shape_witness :
  parseAIResponse basicWithCloze
    = Return [mkCard Basic (js "Q") (BackString (js "A")) None]
  /\ ((exists s, clozeText (mkCard Basic (js "Q") (BackString (js "A")) None)
                 = Some s) <-> Basic = Cloze).
Proof.
  assert (R : parseAIResponse basicWithCloze
              = Return [mkCard Basic (js "Q") (BackString (js "A")) None])
    by (vm_compute; reflexivity).
  split; [exact R|].
  destruct parseAIResponse_shape as [H _].
  destruct (H basicWithCloze _ _ R (or_introl eq_refl)) as (_ & _ & C & _).
  exact C.
Defined.

End PromptBuilderFacts.

(** ** The trailing-comma pattern *)

Module CleanJsonFacts.
Import Json RegExp RegExpFacts PromptBuilder Statements.

Lemma trailingCommaRe_inv (closer : string) (s replacement rest : jsstring) :
  trailingCommaRe closer s = Some (replacement, rest) ->
  exists ws,
    s = js "," ++ ws ++ js closer ++ rest
    /\ forallb isWhiteSpace ws = true
    /\ replacement = js closer.
Proof.
  unfold trailingCommaRe, lit at 1.
  destruct (stripPrefix (js ",") s) as [s1|] eqn:P; [|discriminate].
  apply stripPrefix_spec in P. subst s.
  intros G. apply greedyStar_inv in G.
  destruct G as (ws & s2 & -> & F & K).
  unfold lit in K.
  destruct (stripPrefix (js closer) s2) as [s3|] eqn:Q; [|discriminate].
  apply stripPrefix_spec in Q. subst s2.
  inversion K; subst. exists ws. auto.
Qed.

End CleanJsonFacts.

(** ** Parsing the JSON form of a result again *)

Module IdempotenceFacts.
Import Json JsonFacts RegExp PromptBuilder PromptBuilderFacts Statements.

Lemma parseAIResponse_canonical (response : jsstring)
      (cards : list FlashcardData) :
  parseAIResponse response = Return cards -> Forall canonical cards.
Proof.
  intros R. apply Forall_forall. intros c I.
  destruct (parseAIResponse_In _ _ _ R I) as (element & V & N).
  destruct (normalizeCard_shape _ _ V N) as (_ & B & C).
  split; [exact B|].
  destruct (type c); try exact C.
  destruct C as (s & _ & C & K). exists s. auto.
Qed.

Lemma forallb_numberFree_strings (items : list jsstring) :
  forallb numberFree (map JString items) = true.
Proof. induction items; simpl; auto. Qed.

Lemma toJson_numberFree (c : FlashcardData) : numberFree (toJson c) = true.
Proof.
  destruct c as [ty f b ct]. unfold toJson. cbn [type front back clozeText].
  destruct b as [s|items]; destruct ct as [t|]; cbn;
    rewrite ?forallb_numberFree_strings; reflexivity.
Qed.

Lemma stringifyCards_numberFree (cards : list FlashcardData) :
  numberFree (JArray (map toJson cards)) = true.
Proof.
  cbn [numberFree]. induction cards as [|c cards IH]; [reflexivity|].
  cbn [map forallb]. rewrite toJson_numberFree, IH. reflexivity.
Qed.

(** The properties of the object [toJson] builds. *)
Lemma getProp_type (c : FlashcardData) :
  getProp (toJson c) (js "type") = Some (JString (cardTypeName (type c))).
Proof. destruct c as [ty f b [t|]]; reflexivity. Qed.

Lemma getProp_front (c : FlashcardData) :
  getProp (toJson c) (js "front") = Some (JString (front c)).
Proof. destruct c as [ty f b [t|]]; reflexivity. Qed.

Lemma getProp_back (c : FlashcardData) :
  getProp (toJson c) (js "back")
  = Some (match back c with
          | BackString s => JString s
          | BackList items => JArray (map JString items)
          end).
Proof. destruct c as [ty f b [t|]]; reflexivity. Qed.

Lemma getProp_clozeText (c : FlashcardData) :
  getProp (toJson c) (js "clozeText")
  = match clozeText c with
    | Some s => Some (JString s)
    | None => None
    end.
Proof. destruct c as [ty f b [t|]]; reflexivity. Qed.

Lemma cardTypeOf_toJson (c : FlashcardData) :
  cardTypeOf (toJson c) = Some (type c).
Proof. apply cardTypeOf_spec. apply getProp_type. Qed.

Lemma toString_orEmpty_string (s : jsstring) :
  toString (orEmpty (Some (JString s))) = Return s.
Proof. destruct s; reflexivity. Qed.

Lemma mapO_toString_strings (items : list jsstring) :
  mapO toString (map JString items) = Return items.
Proof.
  induction items as [|s items IH]; [reflexivity|].
  cbn [map]. rewrite mapO_cons, IH. reflexivity.
Qed.

Lemma isValidCard_toJson (c : FlashcardData) :
  canonical c -> isValidCard (toJson c) = true.
Proof.
  intros [B C].
  assert (E : isValidCard (toJson c)
              = match cardTypeOf (toJson c) with
                | None => false
                | Some Cloze =>
                    match getProp (toJson c) (js "clozeText") with
                    | Some (JString s) => includes (js "{{") s
                    | _ => false
                    end
                | Some ListCard =>
                    isString (getProp (toJson c) (js "front"))
                    && isArray (getProp (toJson c) (js "back"))
                | Some _ =>
                    isString (getProp (toJson c) (js "front"))
                    && isString (getProp (toJson c) (js "back"))
                end) by reflexivity.
  rewrite E, cardTypeOf_toJson, getProp_front, getProp_back,
    getProp_clozeText.
  destruct (type c);
    try (destruct B as [s ->]; reflexivity).
  destruct C as (s & -> & K). exact K.
Qed.

Lemma normalizeCard_toJson (c : FlashcardData) :
  canonical c -> normalizeCard (toJson c) = Return c.
Proof.
  intros [B C]. unfold normalizeCard.
  rewrite cardTypeOf_toJson, getProp_front, getProp_back,
    getProp_clozeText, toString_orEmpty_string.
  destruct c as [ty f b ct]. cbn [type front back clozeText] in *.
  destruct ty.
  - destruct B as [s ->]. subst ct.
    rewrite toString_orEmpty_string. reflexivity.
  - destruct B as [s ->]. subst ct.
    rewrite toString_orEmpty_string. reflexivity.
  - destruct B as [s ->]. destruct C as (t & -> & K).
    rewrite toString_orEmpty_string. cbn [bindO].
    pose proof (includes_nonempty (js "{{") t ltac:(discriminate) K) as NE.
    destruct t as [|u t]; [congruence | reflexivity].
  - destruct B as [items ->]. subst ct. cbn [bindO].
    rewrite mapO_toString_strings. reflexivity.
  - destruct B as [s ->]. subst ct.
    rewrite toString_orEmpty_string. reflexivity.
Qed.

Lemma filter_valid_toJson (cards : list FlashcardData) :
  Forall canonical cards ->
  filter isValidCard (map toJson cards) = map toJson cards.
Proof.
  induction 1 as [|c cards Hc F IH]; [reflexivity|].
  cbn [map filter]. rewrite (isValidCard_toJson c Hc), IH. reflexivity.
Qed.

Lemma mapO_normalize_toJson (cards : list FlashcardData) :
  Forall canonical cards ->
  mapO normalizeCard (map toJson cards) = Return cards.
Proof.
  induction 1 as [|c cards Hc F IH]; [reflexivity|].
  cbn [map]. rewrite mapO_cons, (normalizeCard_toJson c Hc), IH.
  reflexivity.
Qed.

(** C3, as amended.  Let [cards] be a result of [parseAIResponse] and
    [text] its JSON form.  If [text] holds no fenced block for the
    extraction to cut out, and the repair of trailing commas leaves it as
    it is (no comma, followed by white space or not, stands in front of a
    closing bracket inside one of its strings), then [parseAIResponse]
    gives [cards] again on [text]. *)
Theorem parseAIResponse_idempotent (response : jsstring)
        (cards : list FlashcardData) :
  parseAIResponse response = Return cards ->
  search fenceRe (stringifyCards cards) = None ->
  cleanJson (stringifyCards cards) = stringifyCards cards ->
  parseAIResponse (stringifyCards cards) = Return cards.
Proof.
  intros R Fence Clean.
  pose proof (parseAIResponse_canonical _ _ R) as Can.
  unfold parseAIResponse, parseAIResponseBody, jsonStrOf.
  rewrite Fence, Clean. unfold stringifyCards.
  rewrite (parse_stringify _ (stringifyCards_numberFree cards)).
  cbn [bindO].
  rewrite (filter_valid_toJson _ Can), (mapO_normalize_toJson _ Can).
  reflexivity.
Qed.

Lemma parseAIResponse_idempotent_witness :
  parseAIResponse (stringifyCards plainCards) = Return plainCards.
Proof.
  apply (parseAIResponse_idempotent plainReply plainCards);
    vm_compute; reflexivity.
Defined.

Lemma parseAIResponse_reparse_differs :
  parseAIResponse arrayLiteralReply
    = Return [mkCard Basic (js "[1,]") (BackString (js "b")) None]
  /\ parseAIResponse
       (stringifyCards [mkCard Basic (js "[1,]") (BackString (js "b")) None])
     = Return [mkCard Basic (js "[1]") (BackString (js "b")) None].
Proof. split; vm_compute; reflexivity. Qed.

End IdempotenceFacts.

(** ** [buildPrompt] *)

Module BuildPromptFacts.
Import PromptBuilder Statements.

Lemma join_In {A} (f : A -> jsstring) (sep : jsstring) (l : list A) (x : A) :
  In x l -> exists a b, join sep (map f l) = a ++ f x ++ b.
Proof.
  induction l as [|y l IH]; [intros []|].
  intros [->|I].
  - destruct l as [|z l]; simpl.
    + exists [], []. rewrite app_nil_r. reflexivity.
    + exists [], (sep ++ join sep (map f (z :: l))). reflexivity.
  - destruct (IH I) as (a & b & E).
    destruct l as [|z l]; [destruct I|].
    exists (f y ++ sep ++ a), b.
    change (join sep (map f (y :: z :: l)))
      with (f y ++ sep ++ join sep (map f (z :: l))).
    rewrite E. rewrite <- !app_assoc. reflexivity.
Qed.

Lemma descriptions_nonEmpty (t : CardType) : nonEmpty (descriptions t) = true.
Proof. destruct t; reflexivity. Qed.

Lemma getCardTypeDescriptions_each (cardTypes : list CardType) :
  getCardTypeDescriptions cardTypes
  = join (nl ++ nl) (map descriptions cardTypes).
Proof.
  unfold getCardTypeDescriptions. f_equal. f_equal.
  induction cardTypes as [|t l IH]; simpl; [reflexivity|].
  rewrite descriptions_nonEmpty, IH. reflexivity.
Qed.

Lemma promptFormat_sentence :
  exists h, promptFormat = h ++ js "- type 必须是以下之一：".
Proof.
  exists (firstn (length promptFormat - 15) promptFormat).
  vm_compute. reflexivity.
Qed.

Lemma promptNotes_newline : exists r, promptNotes = nl ++ r.
Proof. exists (skipn 1 promptNotes). vm_compute. reflexivity. Qed.

(** C7, as amended.  Every requested type identifier appears in the
    prompt, and the closed-list sentence enumerates the requested types
    in the order given, a type requested twice being listed twice; the
    descriptive part holds one block for each entry of the request, in
    order, so a type requested twice is described twice. *)
Theorem buildPrompt_lists_requested_types
        (text : jsstring) (cardTypes : list CardType)
        (maxCards : JsNumber.number) :
  (forall t, In t cardTypes ->
     exists a b, buildPrompt text cardTypes maxCards
                 = a ++ cardTypeName t ++ b)
  /\ (exists pre post,
        buildPrompt text cardTypes maxCards
        = pre ++ closedListSentence cardTypes ++ post)
  /\ (exists pre post,
        buildPrompt text cardTypes maxCards
        = pre ++ join (nl ++ nl) (map descriptions cardTypes) ++ post).
Proof.
  unfold buildPrompt. rewrite getCardTypeDescriptions_each.
  set (blocks := join (nl ++ nl) (map descriptions cardTypes)).
  repeat split.
  - intros t I. unfold typeList.
    destruct (join_In (fun t => quoted (cardTypeName t)) (js ", ")
                      cardTypes t I) as (a & b & E).
    rewrite E. unfold quoted.
    exists (promptIntro ++ JsNumber.toString maxCards ++ promptTypes
              ++ blocks ++ promptFormat ++ a ++ dq),
           (dq ++ b ++ promptNotes ++ text).
    repeat rewrite <- app_assoc. reflexivity.
  - destruct promptFormat_sentence as [h ->].
    destruct promptNotes_newline as [r ->].
    unfold closedListSentence, typeList, quoted.
    exists (promptIntro ++ JsNumber.toString maxCards ++ promptTypes
              ++ blocks ++ h),
           (r ++ text).
    repeat rewrite <- app_assoc. reflexivity.
  - exists (promptIntro ++ JsNumber.toString maxCards ++ promptTypes),
           (promptFormat ++ typeList cardTypes ++ promptNotes ++ text).
    repeat rewrite <- app_assoc. reflexivity.
Qed.

Lemma buildPrompt_lists_requested_types_witness :
  exists a b,
    buildPrompt (js "text") [Basic; Cloze] (JsNumber.ofZ 10)
    = a ++ cardTypeName Cloze ++ b.
Proof.
  apply (proj1 (buildPrompt_lists_requested_types
                  (js "text") [Basic; Cloze] (JsNumber.ofZ 10))).
  right. left. reflexivity.
Defined.

(** A request that names [basic] twice: its block stands twice in the
    descriptive part and its heading twice in the prompt. *)
Lemma buildPrompt_duplicates_description :
  getCardTypeDescriptions [Basic; Basic]
    = descriptions Basic ++ nl ++ nl ++ descriptions Basic
  /\ occurrences (js "**basic（基础问答卡）**")
                 (buildPrompt (js "text") [Basic; Basic] (JsNumber.ofZ 10))
     = 2%nat.
Proof. split; vm_compute; reflexivity. Qed.

End BuildPromptFacts.

(** ** The card generator *)

Module CardGeneratorFacts.
Import RegExp RegExpFacts CardGenerator Statements.

(** *** Running sequenced and guarded code *)

Lemma run_bind {A B} (h : host) (p : async A) (f : A -> async B) :
  forall log,
    run h log (bind p f)
    = match run h log p with
      | (Return a, log') => run h log' (f a)
      | (Throw e, log') => (Throw e, log')
      end.
Proof.
  induction p as [a|e|md pid k IH]; intros log; simpl; auto.
Qed.

Lemma run_try {A} (h : host) (p : async A) (handler : exn -> async A) :
  forall log,
    run h log (try p handler)
    = match run h log p with
      | (Return a, log') => (Return a, log')
      | (Throw e, log') => run h log' (handler e)
      end.
Proof.
  induction p as [a|e|md pid k IH]; intros log; simpl; auto.
Qed.

(** One awaited call: the host is asked once, and its answer is the
    result. *)
Lemma run_create (h : host) (log : list call) (markdown : jsstring)
      (parentId : option jsstring) :
  run h log (createSingleRemWithMarkdown markdown parentId)
  = (h (log ++ [(markdown, parentId)]), log ++ [(markdown, parentId)]).
Proof.
  simpl. destruct (h (log ++ [(markdown, parentId)])); reflexivity.
Qed.

(** The calls of a run extend the calls made before it. *)
Lemma run_extends {A} (h : host) (p : async A) :
  forall log, exists calls, snd (run h log p) = log ++ calls.
Proof.
  induction p as [a|e|md pid k IH]; intros log; simpl.
  - exists []. rewrite app_nil_r. reflexivity.
  - exists []. rewrite app_nil_r. reflexivity.
  - destruct (IH (h (log ++ [(md, pid)])) (log ++ [(md, pid)])) as [cs E].
    exists ((md, pid) :: cs). rewrite E, <- app_assoc. reflexivity.
Qed.

(** *** The rewriting of numbered deletions *)

(** When the continuation refuses every shorter group, [(c*?)] captures
    the group it is offered. *)
Lemma lazyStar_first {R} (cls : code_unit -> bool)
      (k : jsstring -> jsstring -> option R) (x rest : jsstring) (r : R) :
  forallb cls x = true ->
  (forall a b, x = a ++ b -> b <> [] -> k a (b ++ rest) = None) ->
  k x rest = Some r ->
  lazyStar cls k (x ++ rest) = Some r.
Proof.
  revert k. induction x as [|c x IH]; intros k F N K; simpl.
  - destruct rest; simpl; rewrite K; reflexivity.
  - pose proof (N [] (c :: x) eq_refl ltac:(discriminate)) as N0.
    simpl in N0. rewrite N0.
    simpl in F. apply andb_true_iff in F. destruct F as [C F]. rewrite C.
    apply IH; auto.
    intros a b -> NE. apply (N (c :: a) b eq_refl NE).
Qed.

Lemma no_close_in_group (x a b post : jsstring) :
  includes (js "}}") (x ++ js "}") = false ->
  x = a ++ b -> b <> [] ->
  stripPrefix (js "}}") (b ++ js "}}" ++ post) = None.
Proof.
  intros I -> NE.
  destruct (stripPrefix (js "}}") (b ++ js "}}" ++ post)) as [r|] eqn:S;
    [|reflexivity].
  exfalso.
  assert (T : includes (js "}}") ((a ++ b) ++ js "}") = true);
    [|congruence].
  apply includes_spec. apply stripPrefix_spec in S.
  destruct b as [|u [|v b]]; [congruence| |];
    js_literals; cbn [app] in S; inversion S; subst.
  - exists a, []. rewrite <- app_assoc. reflexivity.
  - exists a, (b ++ [125%N]). rewrite <- app_assoc. reflexivity.
Qed.

(** At a numbered deletion the pattern matches, captures the text of the
    deletion, and leaves what follows its closing braces. *)
Lemma numberedClozeRe_form (n x post : jsstring) :
  n <> [] -> forallb isDigit n = true ->
  forallb notLineTerminator x = true ->
  includes (js "}}") (x ++ js "}") = false ->
  numberedClozeRe (js "{{c" ++ n ++ js "::" ++ x ++ js "}}" ++ post)
  = Some (js "{{" ++ x ++ js "}}", post).
Proof.
  intros NE D L I. destruct n as [|d n]; [congruence|].
  simpl in D. apply andb_true_iff in D. destruct D as [Dd D].
  unfold numberedClozeRe.
  unfold lit at 1. rewrite stripPrefix_app.
  unfold greedyPlus. cbn [app]. rewrite Dd.
  rewrite greedyStar_all.
  - unfold lit at 1. rewrite stripPrefix_app.
    apply lazyStar_first.
    + exact L.
    + intros a b E B. unfold lit.
      rewrite (no_close_in_group x a b post I E B). reflexivity.
    + unfold lit. rewrite stripPrefix_app. reflexivity.
  - intros c t C. unfold lit.
    destruct (stripPrefix (js "::") (c :: t)) as [r|] eqn:S;
      [|reflexivity].
    apply stripPrefix_spec in S. js_literals. cbn [app] in S.
    inversion S; subst. discriminate C.
  - exact D.
  - reflexivity.
Qed.

(** C4.  The reply [twoLineReply] is read as one cloze card whose text
    is the numbered deletion [{{c1::...}}] with a line feed in it, and
    that card is rendered, whatever the host answers, by one creation
    call whose markup is the text as it stands: the numbered form is
    still there, the bare form is not made. *)
Theorem createClozeCard_keeps_two_line_deletion :
  PromptBuilder.parseAIResponse twoLineReply = Return [twoLineCard]
  /\ replaceAll numberedClozeRe twoLineText = twoLineText
  /\ forall (h : host) (log : list call) (parentRemId : option jsstring),
       run h log (createClozeCard twoLineCard parentRemId)
       = (h (log ++ [(twoLineText, parentRemId)]),
          log ++ [(twoLineText, parentRemId)]).
Proof.
  assert (E : replaceAll numberedClozeRe twoLineText = twoLineText)
    by (vm_compute; reflexivity).
  split; [vm_compute; reflexivity|]. split; [exact E|].
  intros h log parentRemId.
  unfold createClozeCard.
  change (clozeText twoLineCard) with (Some twoLineText).
  change twoLineText with (123%N :: tl twoLineText) at 1.
  cbv iota.
  change (123%N :: tl twoLineText) with twoLineText.
  rewrite E. apply run_create.
Qed.

(** *** Cards of one node *)

(** A basic, a reversed and a descriptor card are rendered by one
    creation call, with the text [front + " >> " + back],
    [front + " <> " + back] and [front + " ;; " + back]. *)
Theorem createSingleCard_flat_markup
        (h : host) (log : list call) (card : FlashcardData)
        (parentRemId : option jsstring) (separator : jsstring) :
  match type card with
  | Basic => separator = js " >> "
  | BasicReverse => separator = js " <> "
  | Descriptor => separator = js " ;; "
  | Cloze | ListCard => False
  end ->
  let markdown := front card ++ separator ++ backText (back card) in
  run h log (createSingleCard card parentRemId)
  = (h (log ++ [(markdown, parentRemId)]), log ++ [(markdown, parentRemId)]).
Proof.
  intros S markdown. subst markdown. unfold createSingleCard.
  destruct (type card); try contradiction; subst separator;
    apply run_create.
Qed.

Lemma createSingleCard_flat_markup_witness :
  run creatingHost [] (createSingleCard questionCard None)
  = (Return (Some (mkRem (js "rem1"))), [(js "Q >> A", None)]).
Proof.
  apply (createSingleCard_flat_markup
           creatingHost [] questionCard None (js " >> ")).
  reflexivity.
Defined.

(** *** List cards *)

Lemma run_createChildren (h : host) (parentId : jsstring)
      (backItems : list jsstring) :
  forall log,
    (forall pre item post,
        backItems = pre ++ item :: post ->
        exists r, h (log ++ map (childCall parentId) (pre ++ [item]))
                  = Return r) ->
    run h log (createChildren backItems parentId)
    = (Return tt, log ++ map (childCall parentId) backItems).
Proof.
  induction backItems as [|item rest IH]; intros log H.
  - simpl. rewrite app_nil_r. reflexivity.
  - cbn [createChildren]. rewrite run_bind, run_create.
    destruct (H [] item rest eq_refl) as [r Hr]. simpl in Hr.
    unfold childCall in Hr at 1. rewrite Hr.
    rewrite IH.
    + simpl. rewrite <- app_assoc. reflexivity.
    + intros pre item' post E.
      destruct (H (item :: pre) item' post) as [r' Hr'].
      { rewrite E. reflexivity. }
      exists r'. rewrite <- Hr'. rewrite <- app_assoc. reflexivity.
Qed.

(** C5, as amended.  A list card is rendered by first asking for a parent
    with the text [front + " >>>"].  If the host returns no reference,
    that call is the only one and the card gives nothing.  If it returns
    a parent, and no creation of a child throws, one child is asked for
    per element of [back], in order, under the parent and with the
    element as its text, and the parent is the result: with three
    elements that makes four calls. *)
Theorem createListCard_parent_then_children
        (h : host) (log : list call) (card : FlashcardData)
        (parentRemId : option jsstring) :
  let parentCall := (front card ++ js " >>>", parentRemId) in
  (exists calls,
      snd (run h log (createListCard card parentRemId))
      = log ++ parentCall :: calls)
  /\ (h (log ++ [parentCall]) = Return None ->
      run h log (createListCard card parentRemId)
      = (Return None, log ++ [parentCall]))
  /\ (forall parentRem,
        h (log ++ [parentCall]) = Return (Some parentRem) ->
        (forall pre item post,
            backItemsOf card = pre ++ item :: post ->
            exists r,
              h (log ++ parentCall
                     :: map (childCall (_id parentRem)) (pre ++ [item]))
              = Return r) ->
        run h log (createListCard card parentRemId)
        = (Return (Some parentRem),
           log ++ parentCall
               :: map (childCall (_id parentRem)) (backItemsOf card))).
Proof.
  intros parentCall. subst parentCall. unfold createListCard.
  fold (backItemsOf card). rewrite run_bind, run_create.
  repeat split.
  - match goal with
    | |- context [match h ?l with _ => _ end] =>
        destruct (h l) as [[rem|]|e]; cbv beta iota
    end.
    + rewrite run_bind.
      match goal with
      | |- context [run h ?l (createChildren ?b ?i)] =>
          destruct (run_extends h (createChildren b i) l) as [cs E];
          destruct (run h l (createChildren b i)) as [[u|e] log']
      end; simpl in E; subst log'; simpl;
        exists cs; rewrite <- app_assoc; reflexivity.
    + exists []. reflexivity.
    + exists []. reflexivity.
  - intros E. rewrite E. reflexivity.
  - intros parentRem E H. rewrite E. cbv beta iota. rewrite run_bind.
    rewrite run_createChildren.
    + simpl. rewrite <- app_assoc. reflexivity.
    + intros pre item post B. destruct (H pre item post B) as [r Hr].
      exists r. rewrite <- Hr. rewrite <- app_assoc. reflexivity.
Qed.

Lemma createListCard_parent_then_children_witness :
  run creatingHost [] (createListCard threeItemList None)
  = (Return (Some (mkRem (js "rem1"))),
     [(js "F >>>", None); (js "A", Some (js "rem1"));
      (js "B", Some (js "rem1")); (js "C", Some (js "rem1"))]).
Proof.
  destruct (createListCard_parent_then_children
              creatingHost [] threeItemList None) as (_ & _ & H).
  apply (H (mkRem (js "rem1")) eq_refl).
  intros pre item post E. eexists. reflexivity.
Defined.

(** With that host the parent of the three-element list is created and
    the first child request throws: two calls are made, not four. *)
Lemma createListCard_child_rejected :
  rejectingSecondCall [(js "F >>>", None)]
    = Return (Some (mkRem (js "rem1")))
  /\ run rejectingSecondCall [] (createListCard threeItemList None)
     = (Throw (Rejected (js "rejected")),
        [(js "F >>>", None); (js "A", Some (js "rem1"))]).
Proof. split; vm_compute; reflexivity. Qed.

(** *** The batch *)

Lemma run_createEach (h : host) (parentRemId : option jsstring)
      (cards : list FlashcardData) :
  forall (createdRems : list RemObject) (log : list call),
  exists rems log',
    run h log (createEach cards parentRemId createdRems)
    = (Return (createdRems ++ rems), log')
    /\ batch h parentRemId log cards rems log'
    /\ length rems <= length cards.
Proof.
  induction cards as [|card cards IH]; intros createdRems log.
  - exists [], log. simpl. rewrite app_nil_r.
    repeat split; [constructor | lia].
  - cbn [createEach]. rewrite run_bind, run_try, run_bind.
    destruct (run h log (createSingleCard card parentRemId))
      as [[[rem|]|e] log1] eqn:R; simpl.
    + destruct (IH (createdRems ++ [rem]) log1) as (rems & log' & E & B & L).
      exists (rem :: rems), log'. rewrite E, <- app_assoc.
      repeat split; [eapply batch_created; eauto | simpl; lia].
    + destruct (IH createdRems log1) as (rems & log' & E & B & L).
      exists rems, log'. rewrite E.
      repeat split; [eapply batch_no_reference; eauto | simpl; lia].
    + destruct (IH createdRems log1) as (rems & log' & E & B & L).
      exists rems, log'. rewrite E.
      repeat split; [eapply batch_thrown; eauto | simpl; lia].
Qed.

(** C8.  [createFlashcards] returns for every host and every sequence of
    cards, whatever single renderings throw; its result holds, in order,
    the reference of each card whose rendering returned one, so it is at
    most as long as the input. *)
Theorem createFlashcards_isolates_failures
        (h : host) (log : list call) (cards : list FlashcardData)
        (parentRemId : option jsstring) :
  exists rems log',
    run h log (createFlashcards cards parentRemId) = (Return rems, log')
    /\ batch h parentRemId log cards rems log'
    /\ length rems <= length cards.
Proof.
  unfold createFlashcards.
  destruct (run_createEach h parentRemId cards [] log)
    as (rems & log' & E & B & L).
  exists rems, log'. auto.
Qed.

(** A batch of two cards against the host that rejects the second
    request: the list card is given up at its first child, the basic card
    is still rendered, and its reference is the result. *)
Lemma createFlashcards_isolates_failures_witness :
  (exists rems log',
      run rejectingSecondCall []
          (createFlashcards [threeItemList; questionCard] None)
      = (Return rems, log')
      /\ batch rejectingSecondCall None []
               [threeItemList; questionCard] rems log'
      /\ length rems <= 2)
  /\ run rejectingSecondCall []
         (createFlashcards [threeItemList; questionCard] None)
     = (Return [mkRem (js "rem3")],
        [(js "F >>>", None); (js "A", Some (js "rem1"));
         (js "Q >> A", None)]).
Proof.
  split.
  - exact (createFlashcards_isolates_failures
             rejectingSecondCall [] [threeItemList; questionCard] None).
  - vm_compute. reflexivity.
Defined.

End CardGeneratorFacts.

(* ================================================================= *)
(** * Properties of the code beyond the specification *)

(** ** [trim] and [replace] *)

Module ReplaceFacts.
Import RegExp RegExpFacts CodeStatements.

(** *** [trim] *)

Lemma trimEnd_snoc (s : jsstring) (b : code_unit) :
  isWhiteSpace b = false -> trimEnd (s ++ [b]) = s ++ [b].
Proof.
  intros B. induction s as [|c s IH]; simpl.
  - rewrite B. reflexivity.
  - rewrite IH. destruct (s ++ [b]) eqn:E; [|reflexivity].
    destruct s; discriminate.
Qed.

Lemma trimEnd_last (s : jsstring) :
  trimEnd s = []
  \/ exists v b, trimEnd s = v ++ [b] /\ isWhiteSpace b = false.
Proof.
  induction s as [|c s IH]; simpl; [auto|].
  destruct IH as [E | (v & b & E & B)]; rewrite E.
  - destruct (isWhiteSpace c) eqn:C; [auto|].
    right. exists [], c. auto.
  - right. exists (c :: v), b. split; [|exact B].
    destruct v; reflexivity.
Qed.

Lemma trimStart_head (s : jsstring) :
  trimStart s = []
  \/ exists a t, trimStart s = a :: t /\ isWhiteSpace a = false.
Proof.
  induction s as [|c s IH]; simpl; [auto|].
  destruct (isWhiteSpace c) eqn:C; [exact IH|].
  right. exists c, s. auto.
Qed.

(** What [trim] returns: nothing, one character that is no white space,
    or a text between two such characters. *)
Lemma trim_cases (s : jsstring) :
  trim s = []
  \/ (exists a, trim s = [a] /\ isWhiteSpace a = false)
  \/ exists a mid b,
      trim s = a :: mid ++ [b]
      /\ isWhiteSpace a = false /\ isWhiteSpace b = false.
Proof.
  unfold trim.
  destruct (trimStart_head s) as [E | (a & t & E & A)]; rewrite E.
  - left. reflexivity.
  - destruct (trimEnd_last (a :: t)) as [N | (v & b & L & B)].
    + simpl in N. destruct (trimEnd t); [rewrite A in N|]; discriminate.
    + right. rewrite L. destruct v as [|x v].
      * left. exists b. auto.
      * right. exists x, v, b. simpl in L. repeat split; auto.
        destruct (trimEnd t); [rewrite A in L|]; simpl in L;
          inversion L; subst; auto.
Qed.

Lemma trimmed_one (a : code_unit) :
  isWhiteSpace a = false -> trimmed [a].
Proof. intros A. unfold trimmed, trim. simpl. rewrite A. simpl. rewrite A. reflexivity. Qed.

Lemma trimmed_between (a b : code_unit) (mid : jsstring) :
  isWhiteSpace a = false -> isWhiteSpace b = false ->
  trimmed (a :: mid ++ [b]).
Proof.
  intros A B. unfold trimmed, trim. simpl. rewrite A.
  apply (trimEnd_snoc (a :: mid) b B).
Qed.

Lemma trim_trimmed (s : jsstring) : trimmed (trim s).
Proof.
  destruct (trim_cases s) as [E | [(a & E & A) | (a & mid & b & E & A & B)]];
    rewrite E.
  - reflexivity.
  - apply trimmed_one; auto.
  - apply trimmed_between; auto.
Qed.

(** *** [replace] with the [g] flag *)

(** The scan of [replaceAll], as an induction principle: at each place
    the matcher fails and the character is kept, or it matches and the
    replacement is put for the match. *)
Lemma replaceAll_scan (m : jsstring -> option (jsstring * jsstring))
      (P : jsstring -> jsstring -> Prop) :
  consumes m ->
  P [] [] ->
  (forall c t out,
      m (c :: t) = None -> P t out -> P (c :: t) (c :: out)) ->
  (forall c a replacement rest out,
      m (c :: a ++ rest) = Some (replacement, rest) ->
      P rest out -> P (c :: a ++ rest) (replacement ++ out)) ->
  forall s, P s (replaceAll m s).
Proof.
  intros [_ M] Pnil Pmiss Phit s.
  remember (length s) as n eqn:L.
  revert s L. induction n as [n IH] using lt_wf_ind. intros s L.
  destruct s as [|c t]; [exact Pnil|].
  destruct (m (c :: t)) as [[replacement rest]|] eqn:E.
  - destruct (M _ _ _ _ E) as [a ->].
    rewrite (replaceAll_match m (c :: a ++ rest) c a replacement rest E eq_refl).
    apply Phit; [exact E|].
    apply (IH (length rest)); [|reflexivity].
    subst n. simpl. rewrite length_app. lia.
  - rewrite (replaceAll_miss m c t E).
    apply Pmiss; [exact E|].
    apply (IH (length t)); [|reflexivity]. subst n. simpl. lia.
Qed.

(** A character the matcher passes stays where it is at the end. *)
Lemma replaceAll_snoc (m : jsstring -> option (jsstring * jsstring))
      (b : code_unit) (s : jsstring) :
  consumes m -> passes m b ->
  replaceAll m (s ++ [b]) = replaceAll m s ++ [b].
Proof.
  intros C Pb. pose proof C as [Mnil _].
  apply (replaceAll_scan m
           (fun s out => replaceAll m (s ++ [b]) = out ++ [b]) C).
  - pose proof (Pb []) as H. rewrite Mnil in H. simpl in H.
    simpl. rewrite (replaceAll_miss m b [] H). reflexivity.
  - intros c t out E IH.
    pose proof (Pb (c :: t)) as H. rewrite E in H. simpl in H.
    simpl. rewrite (replaceAll_miss m c (t ++ [b]) H), IH. reflexivity.
  - intros c a replacement rest out E IH.
    pose proof (Pb (c :: a ++ rest)) as H. rewrite E in H.
    rewrite (replaceAll_match m ((c :: a ++ rest) ++ [b]) c a replacement
                              (rest ++ [b]) H).
    + rewrite IH, app_assoc. reflexivity.
    + simpl. rewrite <- app_assoc. reflexivity.
Qed.

(** A text at no place of which the matcher matches is left as it is. *)
Lemma replaceAll_fixed (m : jsstring -> option (jsstring * jsstring))
      (s : jsstring) :
  (forall a b, s = a ++ b -> m b = None) -> replaceAll m s = s.
Proof.
  induction s as [|c t IH]; intros H; [reflexivity|].
  rewrite replaceAll_miss.
  - rewrite IH; [reflexivity|]. intros a b ->.
    apply (H (c :: a) b). reflexivity.
  - apply (H [] (c :: t)). reflexivity.
Qed.

(** The length of the result, when no replacement is more than [k] times
    as long as its match. *)
Lemma replaceAll_length (m : jsstring -> option (jsstring * jsstring))
      (k : nat) (s : jsstring) :
  consumes m -> 1 <= k ->
  (forall c a replacement rest,
      m (c :: a ++ rest) = Some (replacement, rest) ->
      length replacement <= k * S (length a)) ->
  length (replaceAll m s) <= k * length s.
Proof.
  intros C K H.
  apply (replaceAll_scan m (fun s out => length out <= k * length s) C).
  - simpl. lia.
  - intros c t out _ IH. simpl. lia.
  - intros c a r rest out E IH. pose proof (H c a r rest E).
    simpl. rewrite !length_app. lia.
Qed.

(** *** [includes] *)

Lemma includes_cons (p : jsstring) (c : code_unit) (s : jsstring) :
  includes p (c :: s) = startsWith p (c :: s) || includes p s.
Proof. reflexivity. Qed.

(** A text that does not hold [p] holds it in none of its parts. *)
Lemma includes_part (p s a b c : jsstring) :
  includes p s = false -> s = a ++ b ++ c -> includes p b = false.
Proof.
  intros H ->. destruct (includes p b) eqn:E; [|reflexivity].
  apply includes_spec in E. destruct E as (x & y & ->).
  assert (X : includes p (a ++ (x ++ p ++ y) ++ c) = true).
  { apply includes_spec. exists (a ++ x), (y ++ c).
    repeat rewrite <- app_assoc. reflexivity. }
  congruence.
Qed.

Lemma startsWith_part (p s a b : jsstring) :
  includes p s = false -> s = a ++ b -> startsWith p b = false.
Proof.
  intros H ->. destruct (startsWith p b) eqn:E; [|reflexivity].
  apply startsWith_spec in E. destruct E as [r ->].
  assert (X : includes p (a ++ p ++ r) = true)
    by (apply includes_spec; eauto).
  congruence.
Qed.

Lemma includes_end (p a b : jsstring) :
  includes p b = true -> includes p (a ++ b) = true.
Proof.
  intros H. apply includes_spec in H. destruct H as (x & y & ->).
  apply includes_spec. exists (a ++ x), y.
  rewrite <- app_assoc. reflexivity.
Qed.

Lemma trimStart_part (s : jsstring) : exists a, s = a ++ trimStart s.
Proof.
  induction s as [|c s [a IH]]; simpl; [exists []; reflexivity|].
  destruct (isWhiteSpace c); [|exists []; reflexivity].
  exists (c :: a). simpl. rewrite <- IH. reflexivity.
Qed.

Lemma trimEnd_part (s : jsstring) : exists b, s = trimEnd s ++ b.
Proof.
  induction s as [|c s [b IH]]; simpl; [exists []; reflexivity|].
  destruct (trimEnd s) as [|x u] eqn:E.
  - destruct (isWhiteSpace c); [exists (c :: s) | exists s]; reflexivity.
  - exists b. simpl in *. rewrite <- IH. reflexivity.
Qed.

Lemma trimStart_white (s : jsstring) :
  exists a, s = a ++ trimStart s /\ forallb isWhiteSpace a = true.
Proof.
  induction s as [|c s (a & IH & W)]; simpl; [exists []; auto|].
  destruct (isWhiteSpace c) eqn:C; [|exists []; auto].
  exists (c :: a). simpl. rewrite <- IH, C, W. auto.
Qed.

Lemma trimEnd_white (s : jsstring) :
  exists b, s = trimEnd s ++ b /\ forallb isWhiteSpace b = true.
Proof.
  induction s as [|c s (b & IH & W)]; simpl; [exists []; auto|].
  destruct (trimEnd s) as [|x u] eqn:E.
  - destruct (isWhiteSpace c) eqn:C.
    + exists (c :: s). simpl in IH. subst s. simpl. rewrite C, W. auto.
    + exists s. simpl in IH. subst s. auto.
  - exists b. simpl in *. rewrite <- IH. auto.
Qed.

(** What [trim] takes away is white space. *)
Lemma trim_white (s : jsstring) :
  exists a b,
    s = a ++ trim s ++ b
    /\ forallb isWhiteSpace a = true /\ forallb isWhiteSpace b = true.
Proof.
  destruct (trimStart_white s) as (a & E & A).
  destruct (trimEnd_white (trimStart s)) as (b & F & B).
  exists a, b. unfold trim. rewrite <- F. auto.
Qed.

(** [trim] cuts a piece out of the text. *)
Lemma trim_part (s : jsstring) : exists a b, s = a ++ trim s ++ b.
Proof.
  destruct (trimStart_part s) as [a E].
  destruct (trimEnd_part (trimStart s)) as [b F].
  exists a, b. unfold trim. rewrite <- F. exact E.
Qed.

End ReplaceFacts.

(** ** [preprocessText] *)

Module PreprocessFacts.
Import RegExp RegExpFacts DocumentParser DocumentParserFacts
       CodeStatements ReplaceFacts.

(** *** Quantifiers whose continuation always succeeds *)

Lemma leading_split (cls : code_unit -> bool) (s : jsstring) :
  s = firstn (leading cls s) s ++ skipn (leading cls s) s
  /\ forallb cls (firstn (leading cls s) s) = true
  /\ leading cls (skipn (leading cls s) s) = 0.
Proof.
  induction s as [|c t (E & F & L)]; simpl; [auto|].
  destruct (cls c) eqn:C; simpl; [|rewrite C; auto].
  rewrite C, F, <- E. auto.
Qed.

Lemma leading_le (cls : code_unit -> bool) (s : jsstring) :
  leading cls s <= length s.
Proof.
  induction s as [|c t IH]; simpl; [lia|]. destruct (cls c); lia.
Qed.

Lemma leading_snoc (cls : code_unit -> bool) (s : jsstring) (b : code_unit) :
  cls b = false ->
  leading cls (s ++ [b]) = leading cls s
  /\ skipn (leading cls s) (s ++ [b]) = skipn (leading cls s) s ++ [b].
Proof.
  intros B. induction s as [|c t [E K]]; simpl.
  - rewrite B. auto.
  - destruct (cls c); simpl; auto.
Qed.

Lemma greedyStar_always {R} (cls : code_unit -> bool)
      (f : jsstring -> R) (s : jsstring) :
  greedyStar cls (fun rest => Some (f rest)) s
  = Some (f (skipn (leading cls s) s)).
Proof.
  induction s as [|c t IH]; simpl; [reflexivity|].
  destruct (cls c); [rewrite IH|]; reflexivity.
Qed.

Lemma atLeast_always {R} (cls : code_unit -> bool)
      (f : jsstring -> R) (n : nat) :
  forall s,
    atLeast n cls (fun rest => Some (f rest)) s
    = if (n <=? leading cls s)%nat
      then Some (f (skipn (leading cls s) s)) else None.
Proof.
  induction n as [|n IH]; intros s.
  - simpl. apply greedyStar_always.
  - destruct s as [|c t]; simpl; [reflexivity|].
    destruct (cls c); [apply IH | reflexivity].
Qed.

(** *** The three patterns *)

Lemma crlfRe_inv (s replacement rest : jsstring) :
  crlfRe s = Some (replacement, rest)
  <-> s = crlf ++ rest /\ replacement = [10%N].
Proof.
  unfold crlfRe, lit, crlf.
  destruct (stripPrefix [13%N; 10%N] s) as [r|] eqn:E.
  - apply stripPrefix_spec in E. subst s. split.
    + intros H. inversion H. auto.
    + intros [H ->]. apply app_inv_head in H. subst. reflexivity.
  - split; [discriminate|]. intros [-> _].
    rewrite stripPrefix_app in E. discriminate.
Qed.

Lemma tabRe_inv (s replacement rest : jsstring) :
  tabRe s = Some (replacement, rest)
  <-> s = 9%N :: rest /\ replacement = [32%N; 32%N].
Proof.
  unfold tabRe, lit.
  destruct (stripPrefix [9%N] s) as [r|] eqn:E.
  - apply stripPrefix_spec in E. subst s. split.
    + intros H. inversion H. auto.
    + intros [H ->]. inversion H. reflexivity.
  - split; [discriminate|]. intros [-> _].
    cbn in E. discriminate.
Qed.

Lemma blankLinesRe_eq (s : jsstring) :
  blankLinesRe s
  = if (3 <=? leading isLineFeed s)%nat
    then Some ([10%N; 10%N], skipn (leading isLineFeed s) s)
    else None.
Proof.
  unfold blankLinesRe.
  apply (atLeast_always isLineFeed (fun rest => ([10%N; 10%N], rest)) 3).
Qed.

Lemma consumes_crlfRe : consumes crlfRe.
Proof.
  split; [reflexivity|]. intros c t r rest H.
  apply crlfRe_inv in H. destruct H as [H _]. inversion H.
  exists [10%N]. reflexivity.
Qed.

Lemma consumes_tabRe : consumes tabRe.
Proof.
  split; [reflexivity|]. intros c t r rest H.
  apply tabRe_inv in H. destruct H as [H _]. inversion H.
  exists []. reflexivity.
Qed.

Lemma consumes_leading (cls : code_unit -> bool) (c : code_unit)
      (t : jsstring) :
  (1 <= leading cls (c :: t))%nat ->
  exists a, t = a ++ skipn (leading cls (c :: t)) (c :: t).
Proof.
  simpl. destruct (cls c); [|lia]. intros _. simpl.
  exists (firstn (leading cls t) t). apply leading_split.
Qed.

Lemma consumes_blankLinesRe : consumes blankLinesRe.
Proof.
  split; [reflexivity|]. intros c t r rest H.
  rewrite blankLinesRe_eq in H.
  destruct (Nat.leb_spec 3 (leading isLineFeed (c :: t))) as [L|L];
    [|discriminate].
  inversion H; subst. apply consumes_leading. lia.
Qed.

(** A character that is no white space is passed by the three
    patterns. *)
Lemma passes_crlfRe (b : code_unit) :
  isWhiteSpace b = false -> passes crlfRe b.
Proof.
  intros B s. destruct (crlfRe s) as [[r rest]|] eqn:E.
  - apply crlfRe_inv in E. destruct E as [-> ->].
    apply crlfRe_inv. rewrite <- app_assoc. auto.
  - destruct (crlfRe (s ++ [b])) as [[r rest]|] eqn:E'; [|reflexivity].
    apply crlfRe_inv in E'. destruct E' as [H ->].
    destruct s as [|x [|y s]]; simpl in H; inversion H; subst.
    + discriminate B.
    + assert (X : crlfRe (crlf ++ s) = Some ([10%N], s))
        by (apply crlfRe_inv; auto).
      simpl in X. rewrite X in E. discriminate.
Qed.

Lemma passes_tabRe (b : code_unit) :
  isWhiteSpace b = false -> passes tabRe b.
Proof.
  intros B s. destruct (tabRe s) as [[r rest]|] eqn:E.
  - apply tabRe_inv in E. destruct E as [-> ->].
    apply tabRe_inv. auto.
  - destruct (tabRe (s ++ [b])) as [[r rest]|] eqn:E'; [|reflexivity].
    apply tabRe_inv in E'. destruct E' as [H ->].
    destruct s as [|x s]; simpl in H; inversion H; subst.
    + discriminate B.
    + assert (X : tabRe (9%N :: s) = Some ([32%N; 32%N], s))
        by (apply tabRe_inv; auto).
      rewrite X in E. discriminate.
Qed.

Lemma isLineFeed_white (b : code_unit) :
  isWhiteSpace b = false -> isLineFeed b = false.
Proof.
  unfold isLineFeed. intros B. destruct (N.eqb_spec b 10); [|reflexivity].
  subst b. discriminate B.
Qed.

Lemma passes_blankLinesRe (b : code_unit) :
  isWhiteSpace b = false -> passes blankLinesRe b.
Proof.
  intros B s. rewrite !blankLinesRe_eq.
  destruct (leading_snoc isLineFeed s b (isLineFeed_white b B)) as [-> ->].
  destruct (3 <=? leading isLineFeed s)%nat; reflexivity.
Qed.

Lemma crlfRe_head (a : code_unit) (t : jsstring) :
  isWhiteSpace a = false -> crlfRe (a :: t) = None.
Proof.
  intros A. destruct (crlfRe (a :: t)) as [[r rest]|] eqn:E; [|reflexivity].
  apply crlfRe_inv in E. destruct E as [H _]. inversion H; subst.
  discriminate A.
Qed.

Lemma tabRe_head (a : code_unit) (t : jsstring) :
  a <> 9%N -> tabRe (a :: t) = None.
Proof.
  intros A. destruct (tabRe (a :: t)) as [[r rest]|] eqn:E; [|reflexivity].
  apply tabRe_inv in E. destruct E as [H _]. inversion H; subst.
  contradiction.
Qed.

Lemma blankLinesRe_head (a : code_unit) (t : jsstring) :
  isLineFeed a = false -> blankLinesRe (a :: t) = None.
Proof.
  intros A. rewrite blankLinesRe_eq. simpl. rewrite A. reflexivity.
Qed.

(** *** The text between the first and the last character *)

Lemma replaceAll_between (m : jsstring -> option (jsstring * jsstring))
      (a b : code_unit) (mid : jsstring) :
  consumes m -> passes m b -> (forall t, m (a :: t) = None) ->
  replaceAll m (a :: mid ++ [b]) = a :: replaceAll m mid ++ [b].
Proof.
  intros C Pb A. rewrite (replaceAll_miss m a _ (A _)).
  rewrite (replaceAll_snoc m b mid C Pb). reflexivity.
Qed.

Lemma white_not_tab (a : code_unit) : isWhiteSpace a = false -> a <> 9%N.
Proof. intros A ->. discriminate A. Qed.

(** The three replacements leave the first and the last character of a
    trimmed text where they are, and work on what is between them. *)
Lemma preprocessText_between (text : jsstring) (a b : code_unit)
      (mid : jsstring) :
  trim text = a :: mid ++ [b] ->
  isWhiteSpace a = false -> isWhiteSpace b = false ->
  preprocessText text
  = a :: replaceAll tabRe
           (replaceAll blankLinesRe (replaceAll crlfRe mid)) ++ [b].
Proof.
  intros E A B. unfold preprocessText. rewrite E.
  rewrite (replaceAll_between crlfRe a b mid consumes_crlfRe
             (passes_crlfRe b B) (fun t => crlfRe_head a t A)).
  rewrite (replaceAll_between blankLinesRe a b _ consumes_blankLinesRe
             (passes_blankLinesRe b B)
             (fun t => blankLinesRe_head a t (isLineFeed_white a A))).
  apply (replaceAll_between tabRe a b _ consumes_tabRe
           (passes_tabRe b B) (fun t => tabRe_head a t (white_not_tab a A))).
Qed.

Lemma preprocessText_one (text : jsstring) (a : code_unit) :
  trim text = [a] -> isWhiteSpace a = false -> preprocessText text = [a].
Proof.
  intros E A. unfold preprocessText. rewrite E.
  rewrite (replaceAll_miss crlfRe a [] (crlfRe_head a [] A)).
  rewrite replaceAll_nil.
  rewrite (replaceAll_miss blankLinesRe a []
             (blankLinesRe_head a [] (isLineFeed_white a A))).
  rewrite replaceAll_nil.
  rewrite (replaceAll_miss tabRe a [] (tabRe_head a [] (white_not_tab a A))).
  reflexivity.
Qed.

Lemma preprocessText_trimmed (text : jsstring) :
  trimmed (preprocessText text).
Proof.
  destruct (trim_cases text)
    as [E | [(a & E & A) | (a & mid & b & E & A & B)]].
  - unfold preprocessText. rewrite E. reflexivity.
  - rewrite (preprocessText_one text a E A). apply trimmed_one. exact A.
  - rewrite (preprocessText_between text a b mid E A B).
    apply trimmed_between; assumption.
Qed.

(** *** No tab *)

Lemma tabRe_no_tab (s : jsstring) : ~ In 9%N (replaceAll tabRe s).
Proof.
  apply (replaceAll_scan tabRe (fun _ out => ~ In 9%N out) consumes_tabRe).
  - intros [].
  - intros c t out E IH [H|H]; [|exact (IH H)]. subst c.
    assert (X : tabRe (9%N :: t) = Some ([32%N; 32%N], t))
      by (apply tabRe_inv; auto).
    rewrite X in E. discriminate.
  - intros c a r rest out E IH H. apply tabRe_inv in E.
    destruct E as [_ ->]. simpl in H.
    destruct H as [H|[H|H]]; try discriminate. exact (IH H).
Qed.

(** *** No three line feeds in a row *)

Lemma startsWith_threeLineFeeds (s : jsstring) :
  startsWith threeLineFeeds s = (3 <=? leading isLineFeed s)%nat.
Proof.
  unfold startsWith, threeLineFeeds, isLineFeed.
  destruct s as [|x [|y [|z t]]]; cbn [stripPrefix leading];
    try reflexivity;
    repeat match goal with
           | |- context [(10 =? ?v)%N] =>
               rewrite (N.eqb_sym 10 v); destruct (v =? 10)%N
           end; reflexivity.
Qed.

Lemma blankLinesRe_collapses (s : jsstring) :
  leading isLineFeed (replaceAll blankLinesRe s)
  = Nat.min 2 (leading isLineFeed s)
  /\ includes threeLineFeeds (replaceAll blankLinesRe s) = false.
Proof.
  apply (replaceAll_scan blankLinesRe
           (fun s out =>
              leading isLineFeed out = Nat.min 2 (leading isLineFeed s)
              /\ includes threeLineFeeds out = false)
           consumes_blankLinesRe).
  - split; reflexivity.
  - intros c t out E [L I]. rewrite blankLinesRe_eq in E.
    destruct (Nat.leb_spec 3 (leading isLineFeed (c :: t))) as [G|G];
      [discriminate|].
    rewrite includes_cons, startsWith_threeLineFeeds, I, orb_false_r.
    cbn [leading] in *. destruct (isLineFeed c).
    + rewrite L. split; [lia|]. apply Nat.leb_gt. lia.
    + split; reflexivity.
  - intros c a r rest out E [L I]. rewrite blankLinesRe_eq in E.
    destruct (Nat.leb_spec 3 (leading isLineFeed (c :: a ++ rest)))
      as [G|G]; [|discriminate].
    pose proof (leading_split isLineFeed (c :: a ++ rest)) as (_ & _ & Z).
    injection E as Er Erest.
    change (skipn (leading isLineFeed (c :: a ++ rest)) (c :: a ++ rest)
            = rest) in Erest.
    rewrite Erest in Z.
    rewrite Z in L. simpl in L. subst r. split.
    + replace (Nat.min 2 (leading isLineFeed (c :: a ++ rest))) with 2
        by lia.
      cbn [app leading].
      replace (isLineFeed 10%N) with true by reflexivity.
      rewrite L. reflexivity.
    + cbn [app].
      rewrite !includes_cons, !startsWith_threeLineFeeds, I.
      cbn [leading]. replace (isLineFeed 10%N) with true by reflexivity.
      rewrite L. reflexivity.
Qed.

(** The replacement of tabs keeps the line feeds a text starts with and
    brings no three of them together. *)
Lemma tabRe_keeps_lineFeeds (s : jsstring) :
  leading isLineFeed (replaceAll tabRe s) = leading isLineFeed s
  /\ (includes threeLineFeeds s = false ->
      includes threeLineFeeds (replaceAll tabRe s) = false).
Proof.
  apply (replaceAll_scan tabRe
           (fun s out =>
              leading isLineFeed out = leading isLineFeed s
              /\ (includes threeLineFeeds s = false ->
                  includes threeLineFeeds out = false))
           consumes_tabRe).
  - split; auto.
  - intros c t out E [L I]. split.
    + cbn [leading]. rewrite L. reflexivity.
    + rewrite !includes_cons, !startsWith_threeLineFeeds.
      cbn [leading]. rewrite L. intros H.
      apply orb_false_iff in H. destruct H as [H1 H2].
      rewrite H1, (I H2). reflexivity.
  - intros c a r rest out E [L I]. apply tabRe_inv in E.
    destruct E as [H ->]. inversion H as [[Hc Ha]]. subst c.
    assert (a = []) by (destruct a; [reflexivity|];
                        apply (f_equal (@length _)) in Ha;
                        simpl in Ha; rewrite length_app in Ha; lia).
    subst a. cbn [app]. split; [reflexivity|].
    rewrite !includes_cons, !startsWith_threeLineFeeds. cbn [leading].
    replace (isLineFeed 9%N) with false by reflexivity.
    replace (isLineFeed 32%N) with false by reflexivity.
    simpl. exact I.
Qed.

(** After [preprocessText] a text holds no tab and no three line feeds
    in a row, and neither starts nor ends with white space. *)
Theorem preprocessText_normal_form (text : jsstring) :
  ~ In 9%N (preprocessText text)
  /\ includes threeLineFeeds (preprocessText text) = false
  /\ trimmed (preprocessText text).
Proof.
  split; [apply tabRe_no_tab|]. split; [|apply preprocessText_trimmed].
  apply tabRe_keeps_lineFeeds. apply blankLinesRe_collapses.
Qed.

(** *** Lengths *)

Lemma crlfRe_length (s : jsstring) :
  length (replaceAll crlfRe s) <= length s.
Proof.
  pose proof (replaceAll_length crlfRe 1 s consumes_crlfRe (le_n 1)) as H.
  rewrite Nat.mul_1_l in H. apply H.
  intros c a r rest E. apply crlfRe_inv in E. destruct E as [_ ->].
  simpl. lia.
Qed.

Lemma blankLinesRe_length (s : jsstring) :
  length (replaceAll blankLinesRe s) <= length s.
Proof.
  pose proof (replaceAll_length blankLinesRe 1 s consumes_blankLinesRe
                                (le_n 1)) as H.
  rewrite Nat.mul_1_l in H. apply H.
  intros c a r rest E. rewrite blankLinesRe_eq in E.
  pose proof (leading_le isLineFeed (c :: a ++ rest)) as B.
  remember (leading isLineFeed (c :: a ++ rest)) as n eqn:N.
  destruct (Nat.leb_spec 3 n) as [G|G]; [|discriminate].
  injection E as Er Erest.
  apply (f_equal (@length _)) in Erest. rewrite length_skipn in Erest.
  cbn [length] in *. rewrite length_app in *.
  subst r. simpl. lia.
Qed.

Lemma tabRe_length (s : jsstring) :
  length (replaceAll tabRe s) <= 2 * length s.
Proof.
  apply (replaceAll_length tabRe 2 s consumes_tabRe); [lia|].
  intros c a r rest E. apply tabRe_inv in E. destruct E as [_ ->].
  simpl. lia.
Qed.

(** A text the validator accepts is not empty after [preprocessText]:
    the first and the last character of the trimmed text stay.  It can be
    longer than the trimmed text, a tab becoming two spaces, and is at
    most 99,998 characters long. *)
Theorem preprocessText_of_valid_text (text : jsstring) :
  valid (validateText text) = true ->
  2 <= length (preprocessText text) <= 2 * length (trim text) - 2
  /\ (N.of_nat (length (preprocessText text)) <= 99998)%N.
Proof.
  intros V. apply validateText_accepts in V.
  destruct (trim_cases text)
    as [E | [(a & E & A) | (a & mid & b & E & A & B)]];
    [rewrite E in V; simpl in V; lia | rewrite E in V; simpl in V; lia|].
  rewrite (preprocessText_between text a b mid E A B).
  rewrite E in V |- *.
  pose proof (tabRe_length (replaceAll blankLinesRe (replaceAll crlfRe mid))).
  pose proof (blankLinesRe_length (replaceAll crlfRe mid)).
  pose proof (crlfRe_length mid).
  cbn [length] in *. rewrite !length_app in *. cbn [length] in *.
  lia.
Qed.

Lemma preprocessText_of_valid_text_witness :
  2 <= length (preprocessText (js "Mitochondria make ATP."))
    <= 2 * length (trim (js "Mitochondria make ATP.")) - 2
  /\ (N.of_nat (length (preprocessText (js "Mitochondria make ATP.")))
      <= 99998)%N.
Proof.
  apply (preprocessText_of_valid_text (js "Mitochondria make ATP.")).
  reflexivity.
Defined.

(** *** Texts that are left as they are *)

Lemma preprocessText_fixed (text : jsstring) :
  trimmed text ->
  includes crlf text = false ->
  includes threeLineFeeds text = false ->
  ~ In 9%N text ->
  preprocessText text = text.
Proof.
  intros T C L Tab. unfold preprocessText. rewrite T.
  rewrite (replaceAll_fixed crlfRe text).
  2:{ intros a b E. destruct (crlfRe b) as [[r rest]|] eqn:M; [|reflexivity].
      apply crlfRe_inv in M. destruct M as [-> _].
      pose proof (startsWith_part crlf text a (crlf ++ rest) C E) as S.
      assert (X : startsWith crlf (crlf ++ rest) = true)
        by (apply startsWith_spec; eauto).
      congruence. }
  rewrite (replaceAll_fixed blankLinesRe text).
  2:{ intros a b E. rewrite blankLinesRe_eq.
      rewrite <- startsWith_threeLineFeeds.
      rewrite (startsWith_part threeLineFeeds text a b L E). reflexivity. }
  apply replaceAll_fixed.
  intros a b E. destruct (tabRe b) as [[r rest]|] eqn:M; [|reflexivity].
  apply tabRe_inv in M. destruct M as [-> _]. exfalso. apply Tab.
  rewrite E. apply in_or_app. right. left. reflexivity.
Qed.

(** *** Where a carriage return stands before a line feed *)

Lemma startsWith_crlf (s : jsstring) :
  startsWith crlf s = true <-> exists r, s = 13%N :: 10%N :: r.
Proof. apply startsWith_spec. Qed.

Lemma startsWith_crlf_cons (c : code_unit) (s : jsstring) :
  startsWith crlf (c :: s) = true <-> c = 13%N /\ hd_error s = Some 10%N.
Proof.
  rewrite startsWith_crlf. split.
  - intros [r H]. inversion H. auto.
  - intros [-> H]. destruct s as [|x s]; inversion H. eauto.
Qed.

(** After the first replacement a carriage return stands before a line
    feed only where two of them stood before one. *)
Lemma crlfRe_leaves (s : jsstring) :
  (includes crlf (replaceAll crlfRe s) = true ->
   includes twoReturns s = true)
  /\ (hd_error (replaceAll crlfRe s) = Some 10%N ->
      hd_error s = Some 10%N \/ startsWith crlf s = true).
Proof.
  apply (replaceAll_scan crlfRe
           (fun s out =>
              (includes crlf out = true -> includes twoReturns s = true)
              /\ (hd_error out = Some 10%N ->
                  hd_error s = Some 10%N \/ startsWith crlf s = true))
           consumes_crlfRe).
  - split; discriminate.
  - intros c t out E [I H]. split; [|simpl; auto].
    rewrite !includes_cons. intros X. apply orb_true_iff in X.
    apply orb_true_iff. destruct X as [X|X]; [left | right; auto].
    apply startsWith_crlf_cons in X. destruct X as [-> X].
    destruct (H X) as [T|T].
    + destruct t as [|x t]; inversion T; subst.
      assert (Y : crlfRe (crlf ++ t) = Some ([10%N], t))
        by (apply crlfRe_inv; auto).
      simpl in Y. rewrite Y in E. discriminate.
    + apply startsWith_crlf in T. destruct T as [r ->].
      apply startsWith_spec. exists r. reflexivity.
  - intros c a r rest out E [I H]. apply crlfRe_inv in E.
    destruct E as [E ->]. rewrite E. split.
    + cbn [app]. rewrite includes_cons. intros X.
      apply orb_true_iff in X. destruct X as [X|X].
      * apply startsWith_crlf in X. destruct X as [? X]. discriminate X.
      * apply (includes_end twoReturns crlf rest). auto.
    + intros _. right. apply startsWith_spec. eauto.
Qed.

(** A replacement that puts no carriage return, and puts a line feed
    first only for a match that starts with one, brings no carriage
    return before a line feed. *)
Lemma replaceAll_no_new_crlf (m : jsstring -> option (jsstring * jsstring))
      (s : jsstring) :
  consumes m ->
  (forall c a replacement rest,
      m (c :: a ++ rest) = Some (replacement, rest) ->
      exists x y, replacement = [x; y] /\ x <> 13%N /\ y <> 13%N
                  /\ (x = 10%N -> c = 10%N)) ->
  (includes crlf (replaceAll m s) = true -> includes crlf s = true)
  /\ (hd_error (replaceAll m s) = Some 10%N -> hd_error s = Some 10%N).
Proof.
  intros C R.
  apply (replaceAll_scan m
           (fun s out =>
              (includes crlf out = true -> includes crlf s = true)
              /\ (hd_error out = Some 10%N -> hd_error s = Some 10%N)) C).
  - split; auto.
  - intros c t out E [I H]. split; [|simpl; auto].
    rewrite !includes_cons. intros X. apply orb_true_iff in X.
    apply orb_true_iff. destruct X as [X|X]; [left | right; auto].
    apply startsWith_crlf_cons in X. destruct X as [-> X].
    apply startsWith_crlf_cons. auto.
  - intros c a r rest out E [I H].
    destruct (R c a r rest E) as (x & y & -> & X & Y & Z). split.
    + cbn [app]. rewrite !includes_cons. intros W.
      apply (includes_end crlf (c :: a) rest). apply I.
      apply orb_true_iff in W. destruct W as [W|W].
      * apply startsWith_crlf_cons in W. destruct W as [W _]. contradiction.
      * apply orb_true_iff in W. destruct W as [W|W]; [|exact W].
        apply startsWith_crlf_cons in W. destruct W as [W _]. contradiction.
    + simpl. intros W. inversion W. subst x. rewrite (Z eq_refl).
      reflexivity.
Qed.

Lemma blankLinesRe_no_new_crlf (s : jsstring) :
  includes crlf (replaceAll blankLinesRe s) = true ->
  includes crlf s = true.
Proof.
  apply (replaceAll_no_new_crlf blankLinesRe s consumes_blankLinesRe).
  intros c a r rest E. rewrite blankLinesRe_eq in E.
  destruct (Nat.leb_spec 3 (leading isLineFeed (c :: a ++ rest)))
    as [G|G]; [|discriminate].
  injection E as Er _. subst r. exists 10%N, 10%N.
  repeat split; try discriminate. intros _.
  cbn [leading] in G. unfold isLineFeed in G.
  destruct (N.eqb_spec c 10); [assumption | lia].
Qed.

Lemma tabRe_no_new_crlf (s : jsstring) :
  includes crlf (replaceAll tabRe s) = true -> includes crlf s = true.
Proof.
  apply (replaceAll_no_new_crlf tabRe s consumes_tabRe).
  intros c a r rest E. apply tabRe_inv in E. destruct E as [_ ->].
  exists 32%N, 32%N. repeat split; discriminate.
Qed.

(** Applied to its own result, [preprocessText] changes nothing, for a
    text in which no two carriage returns stand before a line feed. *)
Theorem preprocessText_idempotent (text : jsstring) :
  includes twoReturns text = false ->
  preprocessText (preprocessText text) = preprocessText text.
Proof.
  intros H. apply preprocessText_fixed.
  - apply preprocessText_trimmed.
  - destruct (includes crlf (preprocessText text)) eqn:E; [|reflexivity].
    unfold preprocessText in E.
    apply tabRe_no_new_crlf, blankLinesRe_no_new_crlf, crlfRe_leaves in E.
    destruct (trim_part text) as (a & b & T).
    rewrite (includes_part twoReturns text a (trim text) b H T) in E.
    discriminate.
  - apply tabRe_keeps_lineFeeds. apply blankLinesRe_collapses.
  - apply tabRe_no_tab.
Qed.

Lemma preprocessText_idempotent_witness :
  preprocessText
    (preprocessText (js "  one" ++ crlf ++ crlf ++ crlf ++ js "two  "))
  = preprocessText (js "  one" ++ crlf ++ crlf ++ crlf ++ js "two  ").
Proof.
  apply (preprocessText_idempotent
           (js "  one" ++ crlf ++ crlf ++ crlf ++ js "two  ")).
  reflexivity.
Defined.

(** Two carriage returns before a line feed: the first pass leaves a
    carriage return before a line feed, which a second pass takes. *)
Example preprocessText_twice_differs :
  preprocessText (js "a" ++ twoReturns ++ js "b") = js "a" ++ crlf ++ js "b"
  /\ preprocessText (js "a" ++ crlf ++ js "b") = js "a" ++ [10%N] ++ js "b".
Proof. split; reflexivity. Qed.

End PreprocessFacts.

(** ** Uploaded files *)

Module UploadFacts.
Import RegExp RegExpFacts DocumentParser DocumentParserFacts InputPanel
       CodeStatements ReplaceFacts PreprocessFacts.

(** *** The cleaning of a PDF read as text *)

Lemma controlRe_eq (c : code_unit) (t : jsstring) :
  controlRe (c :: t) = if isControl c then Some ([], t) else None.
Proof. reflexivity. Qed.

Lemma spacesRe_eq (s : jsstring) :
  spacesRe s
  = if (1 <=? leading isWhiteSpace s)%nat
    then Some (js " ", skipn (leading isWhiteSpace s) s)
    else None.
Proof.
  unfold spacesRe, greedyPlus. destruct s as [|c t]; [reflexivity|].
  cbn [leading]. destruct (isWhiteSpace c); [|reflexivity].
  apply (greedyStar_always isWhiteSpace (fun rest => (js " ", rest)) t).
Qed.

Lemma consumes_controlRe : consumes controlRe.
Proof.
  split; [reflexivity|]. intros c t r rest H. rewrite controlRe_eq in H.
  destruct (isControl c); inversion H. exists []. reflexivity.
Qed.

Lemma consumes_spacesRe : consumes spacesRe.
Proof.
  split; [reflexivity|]. intros c t r rest H. rewrite spacesRe_eq in H.
  destruct (Nat.leb_spec 1 (leading isWhiteSpace (c :: t))) as [L|L];
    [|discriminate].
  inversion H; subst. apply consumes_leading. exact L.
Qed.

Lemma controlRe_removes (s : jsstring) :
  Forall (fun c => isControl c = false) (replaceAll controlRe s).
Proof.
  apply (replaceAll_scan controlRe
           (fun _ out => Forall (fun c => isControl c = false) out)
           consumes_controlRe).
  - constructor.
  - intros c t out E IH. rewrite controlRe_eq in E.
    destruct (isControl c) eqn:C; [discriminate|]. constructor; auto.
  - intros c a r rest out E IH. rewrite controlRe_eq in E.
    destruct (isControl c); inversion E. exact IH.
Qed.

(** What [/\s+/g] leaves: a character of the text that is no white
    space, or the space put for a run of white space; after a space comes
    no space. *)
Lemma spacesRe_collapses (s : jsstring) :
  Forall (fun c => c = 32%N \/ (In c s /\ isWhiteSpace c = false))
         (replaceAll spacesRe s)
  /\ includes (js "  ") (replaceAll spacesRe s) = false
  /\ (leading isWhiteSpace s = 0 ->
      hd_error (replaceAll spacesRe s) <> Some 32%N).
Proof.
  apply (replaceAll_scan spacesRe
           (fun s out =>
              Forall (fun c => c = 32%N \/ (In c s /\ isWhiteSpace c = false))
                     out
              /\ includes (js "  ") out = false
              /\ (leading isWhiteSpace s = 0 -> hd_error out <> Some 32%N))
           consumes_spacesRe).
  - repeat split; [constructor | discriminate].
  - intros c t out E (F & I & H). rewrite spacesRe_eq in E.
    cbn [leading] in E. destruct (isWhiteSpace c) eqn:C; [discriminate|].
    assert (N : c <> 32%N) by (intros ->; discriminate C).
    repeat split.
    + constructor; [right; split; [left; reflexivity | exact C]|].
      eapply Forall_impl; [|exact F]. simpl. intros x [X|[X Y]]; auto.
    + rewrite includes_cons, I, orb_false_r.
      destruct (startsWith (js "  ") (c :: out)) eqn:S; [|reflexivity].
      apply startsWith_spec in S. destruct S as [r S].
      inversion S. contradiction.
    + intros _ X. inversion X. contradiction.
  - intros c a r rest out E (F & I & H). rewrite spacesRe_eq in E.
    pose proof (leading_split isWhiteSpace (c :: a ++ rest)) as (_ & _ & Z).
    destruct (Nat.leb_spec 1 (leading isWhiteSpace (c :: a ++ rest)))
      as [G|G]; [|discriminate].
    injection E as Er Erest.
    change (skipn (leading isWhiteSpace (c :: a ++ rest)) (c :: a ++ rest)
            = rest) in Erest.
    rewrite Erest in Z. subst r. repeat split.
    + constructor; [left; reflexivity|].
      eapply Forall_impl; [|exact F]. simpl. intros x [X|[X Y]]; auto.
      right. split; [|exact Y]. right. apply in_or_app. auto.
    + change (js " " ++ out) with (32%N :: out).
      rewrite includes_cons, I, orb_false_r.
      destruct (startsWith (js "  ") (32%N :: out)) eqn:S; [|reflexivity].
      apply startsWith_spec in S. destruct S as [x S].
      exfalso. apply (H Z). inversion S. reflexivity.
    + intros X. lia.
Qed.

(** Below the space there are the control characters the first pattern
    removes and the tab, the line feed and the carriage return, which are
    white space. *)
Lemma below_space (c : code_unit) :
  (c < 32)%N -> isControl c = false -> isWhiteSpace c = true.
Proof.
  unfold isControl, isWhiteSpace. intros L C.
  repeat (apply orb_false_iff in C; destruct C as [C ?]).
  assert (R : ((9 <=? c) && (c <=? 13) = true)%N).
  { apply andb_true_iff. rewrite !N.leb_le.
    apply andb_false_iff in H.
    rewrite N.leb_gt, N.eqb_neq in *. rewrite !N.leb_gt in H. lia. }
  rewrite R. reflexivity.
Qed.

Lemma Forall_part {A} (P : A -> Prop) (s a b c : list A) :
  Forall P s -> s = a ++ b ++ c -> Forall P b.
Proof.
  intros F ->. apply Forall_app in F. destruct F as [_ F].
  apply Forall_app in F. tauto.
Qed.

Lemma cleaned_text (text : jsstring) :
  let cleanedText :=
    trim (replaceAll spacesRe (replaceAll controlRe text)) in
  trimmed cleanedText /\ singleSpaced cleanedText /\ printable cleanedText.
Proof.
  intros cleanedText. subst cleanedText.
  set (x := replaceAll controlRe text).
  destruct (spacesRe_collapses x) as (F & I & _).
  destruct (trim_part (replaceAll spacesRe x)) as (a & b & T).
  pose proof (Forall_part _ _ a _ b F T) as F'.
  split; [apply trim_trimmed|]. split; [split|].
  - eapply Forall_impl; [|exact F']. simpl.
    intros c [C|[_ C]] W; [exact C | congruence].
  - exact (includes_part _ _ a _ b I T).
  - eapply Forall_impl; [|exact F']. simpl.
    intros c [->|[C W]]; [lia|].
    destruct (N.lt_ge_cases c 32) as [L|L]; [|exact L].
    pose proof (controlRe_removes text) as K.
    rewrite Forall_forall in K.
    rewrite (below_space c L (K c C)) in W. discriminate.
Qed.

(** [parsePDFFile] returns a text of at least 50 characters that neither
    starts nor ends with white space, whose only white space is single
    spaces, and that holds no control character; whatever goes wrong -
    the file cannot be read, or too little text is left - it throws the
    one error that asks for a TXT file. *)
Theorem parsePDFFile_result (file : File) :
  match parsePDFFile file with
  | Return text =>
      (exists content, reading file = Loaded (Some content))
      /\ (50 <= N.of_nat (length text))%N
      /\ trimmed text /\ singleSpaced text /\ printable text
  | Throw e =>
      e = Error (js "PDF 解析失败，请将内容转换为 TXT 格式后重试")
  end.
Proof.
  unfold parsePDFFile, parseTextFile.
  destruct (reading file) as [[content|]|]; cbn [bindO tryCatch];
    try reflexivity.
  destruct (N.ltb_spec
              (N.of_nat
                 (length (trim (replaceAll spacesRe
                                           (replaceAll controlRe content)))))
              50) as [L|L]; cbn [tryCatch]; [reflexivity|].
  split; [eauto|]. split; [exact L|]. apply cleaned_text.
Qed.

(** *** The text of a PDF on its way to the AI service *)

Lemma includes_In (p s : jsstring) (c : code_unit) :
  includes p s = true -> In c p -> In c s.
Proof.
  intros I C. apply includes_spec in I. destruct I as (a & b & ->).
  apply in_or_app. right. apply in_or_app. left. exact C.
Qed.

Lemma printable_excludes (p s : jsstring) (c : code_unit) :
  printable s -> In c p -> (c < 32)%N -> includes p s = false.
Proof.
  intros P C L. destruct (includes p s) eqn:I; [|reflexivity].
  pose proof (includes_In p s c I C) as X.
  unfold printable in P. rewrite Forall_forall in P.
  specialize (P c X). lia.
Qed.

(** The text [parsePDFFile] returns is in the form [preprocessText]
    produces, so that [preprocessText] leaves it as it is; and
    [validateText] accepts it unless it is longer than 50,000
    characters. *)
Theorem parsePDFFile_then_validate (file : File) (text : jsstring) :
  parsePDFFile file = Return text ->
  preprocessText text = text
  /\ valid (validateText text)
     = (N.of_nat (length text) <=? 50000)%N.
Proof.
  unfold parsePDFFile, parseTextFile.
  destruct (reading file) as [[content|]|]; cbn [bindO tryCatch];
    try discriminate.
  destruct (N.ltb_spec
              (N.of_nat
                 (length (trim (replaceAll spacesRe
                                           (replaceAll controlRe content)))))
              50) as [L|L]; cbn [tryCatch]; [discriminate|].
  intros H. injection H as E. rewrite E in L.
  destruct (cleaned_text content) as (T & _ & P). rewrite E in T, P.
  clear E. split.
  - apply preprocessText_fixed; [exact T | | |].
    + apply (printable_excludes crlf text 10%N P); [|lia].
      right. left. reflexivity.
    + apply (printable_excludes threeLineFeeds text 10%N P); [|lia].
      left. reflexivity.
    + intros X. unfold printable in P. rewrite Forall_forall in P.
      specialize (P 9%N X). lia.
  - unfold trimmed in T.
    destruct (valid (validateText text)) eqn:V;
      destruct (N.leb_spec (N.of_nat (length text)) 50000) as [G|G];
      try reflexivity.
    + apply validateText_accepts in V. rewrite T in V. lia.
    + assert (X : valid (validateText text) = true)
        by (apply validateText_accepts; rewrite T; lia).
      congruence.
Qed.

Lemma parsePDFFile_then_validate_witness :
  preprocessText
    (js "Cells are the basic units of life; every cell has a membrane.")
  = js "Cells are the basic units of life; every cell has a membrane."
  /\ valid (validateText
              (js "Cells are the basic units of life; every cell has a membrane."))
     = true.
Proof.
  apply (parsePDFFile_then_validate
           (mkFile (js "cells.pdf")
                   (Loaded (Some (js "Cells are the basic units of life;"
                                     ++ [10%N; 9%N; 12%N]
                                     ++ js "every cell has a membrane."
                                     ++ [10%N]))))).
  reflexivity.
Defined.

(** *** The extension of a file name *)

Lemma splitFrom_plain (sep : code_unit) (s piece : jsstring) :
  ~ In sep s -> splitFrom sep piece s = [piece ++ s].
Proof.
  revert piece. induction s as [|c t IH]; intros piece H; simpl.
  - rewrite app_nil_r. reflexivity.
  - destruct (N.eqb_spec c sep) as [->|N].
    + exfalso. apply H. left. reflexivity.
    + rewrite IH, <- app_assoc; [reflexivity|].
      intros X. apply H. right. exact X.
Qed.

Lemma splitFrom_pieces (sep : code_unit) (s piece : jsstring) :
  1 <= length (splitFrom sep piece s)
  /\ (In sep s -> 2 <= length (splitFrom sep piece s)).
Proof.
  revert piece. induction s as [|c t IH]; intros piece; simpl.
  - split; [lia | intros []].
  - destruct (N.eqb_spec c sep) as [->|N]; simpl.
    + pose proof (proj1 (IH [])). split; intros; lia.
    + split; [apply IH|]. intros [X|X]; [congruence|]. apply IH. exact X.
Qed.

Lemma eqb_string_sym (a b : jsstring) : eqb_string a b = eqb_string b a.
Proof.
  destruct (eqb_string a b) eqn:E.
  - apply eqb_string_eq in E. subst. symmetry. apply eqb_string_refl.
  - destruct (eqb_string b a) eqn:F; [|reflexivity].
    apply eqb_string_eq in F. subst. rewrite eqb_string_refl in E.
    discriminate.
Qed.

(** The test of the drop handler is the test of [parseDocument] on the
    last piece of the name. *)
Lemma dropAccepts_last (toLowerCase : jsstring -> jsstring)
      (fileName : jsstring) :
  dropAccepts toLowerCase fileName
  = supported (toLowerCase (last (split 46 fileName) [])).
Proof.
  unfold dropAccepts, supported. cbn [existsb].
  set (x := toLowerCase (last (split 46 fileName) [])).
  rewrite orb_false_r, orb_assoc.
  rewrite (eqb_string_sym x (js "txt")), (eqb_string_sym x (js "md")),
    (eqb_string_sym x (js "pdf")).
  reflexivity.
Qed.

(** A file name without a dot has no extension and [parseDocument]
    refuses the file, whatever it holds; a file whose extension is none
    of [txt], [md], [pdf] is refused with the extension in the message.
    The drop handler of the input panel lets through exactly the names
    with a dot that [parseDocument] has a reader for - and the names
    [txt], [md] and [pdf] themselves (in any case), which have no dot and
    which [parseDocument] then refuses. *)
Theorem parseDocument_extension (toLowerCase : jsstring -> jsstring)
        (file : File) :
  let extension := getFileExtension toLowerCase (name file) in
  (supported extension = false ->
   parseDocument toLowerCase file
   = Throw (Error (js "不支持的文件格式: " ++ extension)))
  /\ (In 46%N (name file) ->
      dropAccepts toLowerCase (name file) = supported extension)
  /\ (~ In 46%N (name file) ->
      extension = []
      /\ parseDocument toLowerCase file
         = Throw (Error (js "不支持的文件格式: "))
      /\ dropAccepts toLowerCase (name file)
         = supported (toLowerCase (name file))).
Proof.
  intros extension.
  assert (U : supported extension = false ->
              parseDocument toLowerCase file
              = Throw (Error (js "不支持的文件格式: " ++ extension))).
  { unfold parseDocument, supported. fold extension. intros S.
    apply orb_false_iff in S. destruct S as [S P].
    apply orb_false_iff in S. destruct S as [T M].
    rewrite T, M, P. reflexivity. }
  split; [exact U|]. split.
  - intros D. rewrite dropAccepts_last. subst extension.
    unfold getFileExtension, split.
    pose proof (proj2 (splitFrom_pieces 46 (name file) []) D) as L.
    destruct (Nat.ltb_spec 1 (length (splitFrom 46 [] (name file))));
      [reflexivity | lia].
  - intros D.
    assert (E : extension = []).
    { subst extension. unfold getFileExtension, split.
      rewrite (splitFrom_plain 46 (name file) [] D). reflexivity. }
    split; [exact E|]. split.
    + rewrite (U ltac:(rewrite E; reflexivity)), E, app_nil_r.
      reflexivity.
    + rewrite dropAccepts_last. unfold split.
      rewrite (splitFrom_plain 46 (name file) [] D). reflexivity.
Qed.

Lemma parseDocument_extension_witness :
  parseDocument (fun s => s) (mkFile (js "notes.docx") (Loaded (Some [])))
  = Throw (Error (js "不支持的文件格式: docx"))
  /\ dropAccepts (fun s => s) (js "notes.docx") = false
  /\ parseDocument (fun s => s) (mkFile (js "pdf") (Loaded (Some [])))
     = Throw (Error (js "不支持的文件格式: "))
  /\ dropAccepts (fun s => s) (js "pdf") = true.
Proof.
  pose proof (parseDocument_extension
                (fun s => s) (mkFile (js "notes.docx") (Loaded (Some []))))
    as (U & D & _).
  pose proof (parseDocument_extension
                (fun s => s) (mkFile (js "pdf") (Loaded (Some []))))
    as (_ & _ & N).
  cbn [name] in U, D, N.
  split; [apply U; reflexivity|].
  split; [rewrite D; [reflexivity | vm_compute; tauto]|].
  destruct N as (_ & P & A); [vm_compute; intuition discriminate|].
  split; [exact P | rewrite A; reflexivity].
Defined.

End UploadFacts.

(** ** The calls of a batch *)

Module RenderFacts.
Import RegExp RegExpFacts CardGenerator Statements CodeStatements
       ReplaceFacts PromptBuilderFacts CardGeneratorFacts.

(** *** Where the Rems are put *)

Lemma under_nil (h : host) (parentRemId : option jsstring)
      (base : list call) :
  under h parentRemId base [].
Proof. intros pre c post E. destruct pre; discriminate. Qed.

Lemma under_one (h : host) (parentRemId : option jsstring)
      (base : list call) (markdown : jsstring) :
  under h parentRemId base [(markdown, parentRemId)].
Proof.
  intros pre c post E. left.
  destruct pre as [|x pre]; [inversion E; reflexivity|].
  destruct pre; discriminate.
Qed.

Lemma under_app (h : host) (parentRemId : option jsstring)
      (base a b : list call) :
  under h parentRemId base a ->
  under h parentRemId (base ++ a) b ->
  under h parentRemId base (a ++ b).
Proof.
  intros A B pre c post E.
  apply app_eq_app in E. destruct E as [l [[E1 E2] | [E1 E2]]].
  - destruct l as [|x l].
    + simpl in E2. rewrite app_nil_r in E1. subst pre.
      destruct (B [] c post (eq_sym E2))
        as [P | (pre' & c' & mid & rem & X & _)]; [left; exact P|].
      destruct pre'; discriminate.
    + inversion E2; subst. apply (A pre x l). reflexivity.
  - destruct (B l c post E2) as [P | (pre' & c' & mid & rem & X & H & I)];
      [left; exact P|].
    right. exists (a ++ pre'), c', mid, rem. subst. repeat split.
    + rewrite <- app_assoc. reflexivity.
    + rewrite <- H. repeat rewrite <- app_assoc. reflexivity.
    + exact I.
Qed.

Lemma under_children (h : host) (parentRemId : option jsstring)
      (base : list call) (parentCall : call) (calls : list call)
      (rem : RemObject) :
  snd parentCall = parentRemId ->
  h (base ++ [parentCall]) = Return (Some rem) ->
  Forall (fun c => snd c = Some (_id rem)) calls ->
  under h parentRemId base (parentCall :: calls).
Proof.
  intros P H F pre c post E. destruct pre as [|x pre].
  - inversion E; subst. left. reflexivity.
  - inversion E; subst. right. exists [], x, pre, rem.
    repeat split; [exact H|].
    rewrite Forall_forall in F. apply F.
    apply in_or_app. right. left. reflexivity.
Qed.

(** The children of a list card are all asked for under its parent. *)
Lemma createChildren_calls (h : host) (parentId : jsstring)
      (backItems : list jsstring) :
  forall log, exists calls,
    snd (run h log (createChildren backItems parentId)) = log ++ calls
    /\ Forall (fun c => snd c = Some parentId) calls
    /\ length calls <= length backItems.
Proof.
  induction backItems as [|item rest IH]; intros log.
  - exists []. simpl. rewrite app_nil_r. auto.
  - cbn [createChildren]. rewrite run_bind, run_create.
    destruct (h (log ++ [(item, Some parentId)])) as [r|e].
    + destruct (IH (log ++ [(item, Some parentId)]))
        as (calls & E & F & L).
      exists ((item, Some parentId) :: calls). rewrite E, <- app_assoc.
      split; [reflexivity|]. split; [constructor; auto | simpl; lia].
    + exists [(item, Some parentId)]. split; [reflexivity|].
      split; [constructor; auto | simpl; lia].
Qed.

Lemma createSingleCard_under (h : host) (log : list call)
      (card : FlashcardData) (parentRemId : option jsstring) :
  exists calls,
    snd (run h log (createSingleCard card parentRemId)) = log ++ calls
    /\ under h parentRemId log calls
    /\ length calls <= callsNeeded card.
Proof.
  unfold createSingleCard, callsNeeded.
  destruct (type card);
    try (unfold createBasicCard, createDescriptorCard;
         rewrite run_create; eexists; split;
         [reflexivity | split; [apply under_one | simpl; lia]]).
  - (* cloze *)
    unfold createClozeCard. destruct (clozeText card) as [[|c t]|].
    + exists []. simpl. rewrite app_nil_r.
      split; [auto | split; [apply under_nil | lia]].
    + rewrite run_create. eexists.
      split; [reflexivity | split; [apply under_one | simpl; lia]].
    + exists []. simpl. rewrite app_nil_r.
      split; [auto | split; [apply under_nil | lia]].
  - (* list *)
    unfold createListCard. fold (backItemsOf card).
    rewrite run_bind, run_create.
    set (parentCall := (front card ++ js " >>>", parentRemId)).
    destruct (h (log ++ [parentCall])) as [[rem|]|e] eqn:H;
      try (exists [parentCall]; split;
           [reflexivity | split; [apply under_one | simpl; lia]]).
    rewrite run_bind.
    match goal with
    | |- context [run h ?l (createChildren ?b ?i)] =>
        destruct (createChildren_calls h i b l) as (calls & E & F & L);
        destruct (run h l (createChildren b i)) as [[u|e] log']
    end; simpl in E; subst log'; simpl;
      exists (parentCall :: calls);
      (split; [rewrite <- app_assoc; reflexivity|]);
      (split; [|simpl; lia]);
      apply (under_children h parentRemId log parentCall calls rem);
      auto.
Qed.

Lemma createEach_under (h : host) (parentRemId : option jsstring)
      (cards : list FlashcardData) :
  forall (createdRems : list RemObject) (log : list call),
  exists calls,
    snd (run h log (createEach cards parentRemId createdRems))
    = log ++ calls
    /\ under h parentRemId log calls
    /\ length calls <= list_sum (map callsNeeded cards).
Proof.
  induction cards as [|card cards IH]; intros createdRems log.
  - exists []. simpl. rewrite app_nil_r.
    split; [auto | split; [apply under_nil | lia]].
  - cbn [createEach]. rewrite run_bind, run_try, run_bind.
    destruct (createSingleCard_under h log card parentRemId)
      as (calls & E & U & L).
    destruct (run h log (createSingleCard card parentRemId))
      as [[rem|e] log1]; simpl in E; subst log1; simpl;
      match goal with
      | |- context [run h ?l (createEach cards parentRemId ?rs)] =>
          destruct (IH rs l) as (calls' & E' & U' & L')
      end;
      exists (calls ++ calls'); rewrite E', <- app_assoc;
      (split; [reflexivity|]);
      (split; [apply under_app; assumption | rewrite length_app; lia]).
Qed.

(** Every Rem [createFlashcards] asks for is put under the parent it was
    given, or under a Rem the host has returned for an earlier call of
    the same batch (the parent of a list card): nothing is created
    anywhere else.  And whatever the host answers, the batch makes at
    most one creation call per card and one more per element of a list
    card. *)
Theorem createFlashcards_parents
        (h : host) (log : list call) (cards : list FlashcardData)
        (parentRemId : option jsstring) :
  exists calls,
    snd (run h log (createFlashcards cards parentRemId)) = log ++ calls
    /\ under h parentRemId log calls
    /\ length calls <= list_sum (map callsNeeded cards).
Proof. apply createEach_under. Qed.

(** *** A host that creates every Rem *)

Lemma createSingleCard_creates (h : host) (log : list call)
      (card : FlashcardData) (parentRemId : option jsstring) :
  alwaysCreates h -> canonical card ->
  exists rem calls,
    run h log (createSingleCard card parentRemId)
    = (Return (Some rem), log ++ calls)
    /\ length calls = callsNeeded card.
Proof.
  intros H [B C]. unfold createSingleCard, callsNeeded.
  destruct (type card) eqn:T;
    try (unfold createBasicCard, createDescriptorCard;
         rewrite run_create;
         match goal with
         | |- context [h ?l] => destruct (H l) as [rem ->]
         end;
         exists rem; eexists; split; reflexivity).
  - (* cloze *)
    destruct C as (s & C & I). unfold createClozeCard. rewrite C.
    destruct s as [|c t];
      [exfalso; apply (includes_nonempty (js "{{") [] ltac:(discriminate) I);
       reflexivity|].
    rewrite run_create.
    match goal with
    | |- context [h ?l] => destruct (H l) as [rem ->]
    end.
    exists rem. eexists. split; reflexivity.
  - (* list *)
    unfold createListCard. fold (backItemsOf card).
    rewrite run_bind, run_create.
    match goal with
    | |- context [h ?l] => destruct (H l) as [rem ->]
    end.
    cbv beta iota. rewrite run_bind, run_createChildren.
    + exists rem. eexists. rewrite <- app_assoc. split; [reflexivity|].
      simpl. rewrite length_map. reflexivity.
    + intros pre item post _.
      match goal with
      | |- context [h ?l] => destruct (H l) as [r ->]
      end.
      eauto.
Qed.

Lemma createEach_creates (h : host) (parentRemId : option jsstring)
      (cards : list FlashcardData) :
  alwaysCreates h -> Forall canonical cards ->
  forall (createdRems : list RemObject) (log : list call),
  exists rems calls,
    run h log (createEach cards parentRemId createdRems)
    = (Return (createdRems ++ rems), log ++ calls)
    /\ length rems = length cards
    /\ length calls = list_sum (map callsNeeded cards).
Proof.
  intros H F. induction F as [|card cards C F IH]; intros createdRems log.
  - exists [], []. simpl. rewrite !app_nil_r. auto.
  - cbn [createEach]. rewrite run_bind, run_try, run_bind.
    destruct (createSingleCard_creates h log card parentRemId H C)
      as (rem & calls & -> & L).
    simpl.
    destruct (IH (createdRems ++ [rem]) (log ++ calls))
      as (rems & calls' & -> & Lr & Lc).
    exists (rem :: rems), (calls ++ calls').
    rewrite <- !app_assoc. split; [reflexivity|].
    simpl. rewrite length_app. split; lia.
Qed.

(** With a host that answers every creation call with a Rem, no card of
    the canonical shape is lost: [createFlashcards] returns one Rem per
    card, and makes one creation call per card and one more per element
    of a list card. *)
Theorem createFlashcards_one_rem_per_card
        (h : host) (log : list call) (cards : list FlashcardData)
        (parentRemId : option jsstring) :
  alwaysCreates h -> Forall canonical cards ->
  exists rems calls,
    run h log (createFlashcards cards parentRemId)
    = (Return rems, log ++ calls)
    /\ length rems = length cards
    /\ length calls = list_sum (map callsNeeded cards).
Proof.
  intros H F. apply (createEach_creates h parentRemId cards H F [] log).
Qed.

Lemma createFlashcards_one_rem_per_card_witness :
  exists rems calls,
    run creatingHost [] (createFlashcards [threeItemList; questionCard] None)
    = (Return rems, [] ++ calls)
    /\ length rems = 2
    /\ length calls = 5.
Proof.
  apply (createFlashcards_one_rem_per_card
           creatingHost [] [threeItemList; questionCard] None).
  - intros log. eexists. reflexivity.
  - repeat constructor; simpl; eauto.
Defined.

(** *** Cloze cards as the prompt asks for them *)

Lemma numberedClozeRe_opens (s : jsstring) :
  opensNumbered s = false -> numberedClozeRe s = None.
Proof.
  unfold opensNumbered, numberedClozeRe, lit at 1.
  destruct (stripPrefix (js "{{c") s) as [[|d r]|]; try reflexivity.
  intros D. unfold greedyPlus. rewrite D. reflexivity.
Qed.

Lemma numberedClozeRe_unnumbered (text : jsstring) :
  unnumbered text = true ->
  forall a b, text = a ++ b -> numberedClozeRe b = None.
Proof.
  induction text as [|c t IH]; intros U a b E.
  - destruct a; destruct b; try discriminate. reflexivity.
  - cbn [unnumbered] in U. apply andb_true_iff in U.
    destruct U as [O U]. apply negb_true_iff in O.
    destruct a as [|x a].
    + simpl in E. subst b. apply numberedClozeRe_opens. exact O.
    + inversion E; subst. apply (IH U a b eq_refl).
Qed.

(** A cloze card whose text holds no numbered deletion - the form the
    prompt asks for, [{{...}}] - is rendered by one creation call with
    the text as it stands; a cloze card without text, or with the empty
    text, is given up without a call. *)
Theorem createClozeCard_unnumbered
        (h : host) (log : list call) (card : FlashcardData)
        (parentRemId : option jsstring) :
  (clozeText card = None \/ clozeText card = Some [] ->
   run h log (createClozeCard card parentRemId) = (Return None, log))
  /\ (forall text,
        clozeText card = Some text -> text <> [] ->
        unnumbered text = true ->
        run h log (createClozeCard card parentRemId)
        = (h (log ++ [(text, parentRemId)]),
           log ++ [(text, parentRemId)])).
Proof.
  unfold createClozeCard. split.
  - intros [-> | ->]; reflexivity.
  - intros text -> N U. destruct text as [|c t]; [congruence|].
    rewrite (replaceAll_fixed numberedClozeRe (c :: t)
               (numberedClozeRe_unnumbered (c :: t) U)).
    apply run_create.
Qed.

Lemma createClozeCard_unnumbered_witness :
  run creatingHost []
      (createClozeCard
         (mkCard Cloze [] (BackString [])
                 (Some (js "A {{cell}} has a {{nucleus}}")))
         None)
  = (Return (Some (mkRem (js "rem1"))),
     [(js "A {{cell}} has a {{nucleus}}", None)]).
Proof.
  apply (proj2 (createClozeCard_unnumbered
                  creatingHost []
                  (mkCard Cloze [] (BackString [])
                          (Some (js "A {{cell}} has a {{nucleus}}")))
                  None)
               (js "A {{cell}} has a {{nucleus}}")).
  - reflexivity.
  - discriminate.
  - reflexivity.
Defined.

End RenderFacts.

(** ** The AI service *)

Module AiServiceFacts.
Import Json PromptBuilder PromptBuilderFacts IdempotenceFacts AiService
       Statements CodeStatements.

(** Case analysis on what a hypothesis examines, innermost first. *)
Ltac examine H :=
  match type of H with
  | context [match ?x with _ => _ end] =>
      lazymatch x with
      | context [match _ with _ => _ end] => fail
      | _ => destruct x eqn:?
      end
  end.

(** The block under [if (!response.ok)] throws whatever the body of the
    response is. *)
Lemma throwApiError_throws {A} (response : Response) :
  exists e, @throwApiError A response = Throw e.
Proof.
  unfold throwApiError.
  destruct (tryCatch (json response) (fun _ => Return (JObject [])))
    as [errorData|e]; cbn [bindO]; [|eauto].
  destruct (prop errorData (js "error")) as [x|e]; cbn [bindO]; [|eauto].
  destruct (optProp x (js "message")) as [m|]; [|eauto].
  destruct (truthy m); [|eauto].
  destruct (toString m); cbn [bindO]; eauto.
Qed.

Lemma parseContent_cards (content : value) (cards : list FlashcardData) :
  parseContent content = Return cards -> cards <> [] ->
  exists s, parseAIResponse s = Return cards.
Proof.
  destruct content; simpl; intros H N;
    try (inversion H; subst; contradiction).
  eauto.
Qed.

Lemma attempt_result (rt : Runtime) (request : Request)
      (attempt : outcome (list FlashcardData)) :
  (forall cards, attempt = Return cards ->
                 cards <> []
                 /\ (exists content, parseAIResponse content = Return cards)
                 /\ exists response data,
                     fetch rt request = Return response
                     /\ ok response = true
                     /\ json response = Return data) ->
  let r := match attempt with
           | Return cards => mkAIResponse true (Some cards) None
           | Throw e => mkAIResponse false None (Some (messageOf rt e))
           end in
  wellFormed r /\ served rt request r.
Proof.
  intros H r. subst r. unfold wellFormed, served.
  destruct attempt as [cards|e];
    cbn [AiService.success AiService.cards AiService.error].
  - destruct (H cards eq_refl) as (N & (content & P) & S).
    split; [|intros _; exact S].
    split; [reflexivity|]. exists cards.
    split; [reflexivity|]. split; [exact N|]. split; [|eauto].
    exact (parseAIResponse_canonical content cards P).
  - split; [|discriminate]. split; [reflexivity|]. eauto.
Qed.

Ltac attempt_cases H :=
  unfold bindO in H;
  repeat (examine H; try discriminate H);
  try match goal with
      | E : throwApiError ?r = Return _ |- _ =>
          let X := fresh "X" in
          destruct (@throwApiError_throws (list FlashcardData) r)
            as [? X];
          rewrite X in E; discriminate E
      end.

Lemma openAI_result (rt : Runtime) (settings : AISettings)
      (text : jsstring) (cardTypes : list CardType) :
  wellFormed (OpenAIProvider.generateFlashcards rt settings text cardTypes)
  /\ served rt
            (OpenAIProvider.request
               settings (buildPrompt text cardTypes (maxCards settings)))
            (OpenAIProvider.generateFlashcards rt settings text cardTypes).
Proof.
  unfold OpenAIProvider.generateFlashcards. cbv zeta.
  apply attempt_result. intros cards H.
  attempt_cases H.
  inversion H; subst.
  match goal with
  | P : parseContent _ = Return _ |- _ =>
      destruct (parseContent_cards _ _ P ltac:(discriminate)) as [s S]
  end.
  split; [discriminate|]. split; [eauto|].
  match goal with
  | F : fetch rt _ = Return ?r, J : json ?r = Return ?d |- _ =>
      exists r, d; repeat split; auto
  end.
  match goal with
  | N : negb (ok _) = false |- _ => apply negb_false_iff in N; exact N
  end.
Qed.

Lemma claude_result (rt : Runtime) (settings : AISettings)
      (text : jsstring) (cardTypes : list CardType) :
  wellFormed (ClaudeProvider.generateFlashcards rt settings text cardTypes)
  /\ served rt
            (ClaudeProvider.request
               settings (buildPrompt text cardTypes (maxCards settings)))
            (ClaudeProvider.generateFlashcards rt settings text cardTypes).
Proof.
  unfold ClaudeProvider.generateFlashcards. cbv zeta.
  apply attempt_result. intros cards H.
  attempt_cases H.
  inversion H; subst.
  match goal with
  | P : parseContent _ = Return _ |- _ =>
      destruct (parseContent_cards _ _ P ltac:(discriminate)) as [s S]
  end.
  split; [discriminate|]. split; [eauto|].
  match goal with
  | F : fetch rt _ = Return ?r, J : json ?r = Return ?d |- _ =>
      exists r, d; repeat split; auto
  end.
  match goal with
  | N : negb (ok _) = false |- _ => apply negb_false_iff in N; exact N
  end.
Qed.

(** *** The cards of a reply *)

(** What the two providers do with a response, given where they read
    the reply. *)
Definition attemptWith (read : value -> outcome (option value))
           (rt : Runtime) (request : Request)
  : outcome (list FlashcardData) :=
  response <- fetch rt request;;
  if negb (ok response) then throwApiError response
  else
    data <- json response;;
    reply <- read data;;
    match reply with
    | Some content =>
        if truthy content then
          cards <- parseContent content;;
          match cards with
          | [] => Throw (Error (js "无法从 AI 响应中解析出有效的卡片"))
          | _ :: _ => Return cards
          end
        else Throw (Error (js "AI 返回内容为空"))
    | None => Throw (Error (js "AI 返回内容为空"))
    end.

Lemma createAIService_attempt (rt : Runtime) (settings : AISettings)
      (text : jsstring) (cardTypes : list CardType) :
  createAIService settings rt text cardTypes
  = match attemptWith (replyOf settings) rt
                      (requestOf settings text cardTypes) with
    | Return cards => mkAIResponse true (Some cards) None
    | Throw e => mkAIResponse false None (Some (messageOf rt e))
    end.
Proof.
  unfold createAIService, requestOf, replyOf, attemptWith. cbv zeta.
  destruct (eqb_string (provider settings) (js "claude"));
    [unfold ClaudeProvider.generateFlashcards
    |unfold OpenAIProvider.generateFlashcards];
    cbv zeta;
    match goal with
    | |- context [fetch rt ?q] => destruct (fetch rt q) as [response|e]
    end;
    cbn [bindO]; try reflexivity;
    destruct (negb (ok response)); try reflexivity;
    destruct (json response) as [data|e]; cbn [bindO]; try reflexivity;
    match goal with
    | |- context [prop data ?k] => destruct (prop data k)
    end;
    reflexivity.
Qed.

Lemma parseContent_string (content : value) (c : FlashcardData)
      (cards : list FlashcardData) :
  truthy content = true -> parseContent content = Return (c :: cards) ->
  exists s,
    content = JString s /\ s <> []
    /\ parseAIResponse s = Return (c :: cards).
Proof.
  destruct content as [| | |s| |]; simpl; intros T P; try discriminate P.
  exists s. repeat split; [|exact P]. intros ->. discriminate T.
Qed.

(** The attempt returns cards exactly when the request was answered
    with a reply that holds cards, and then it returns those. *)
Lemma attemptWith_cards (read : value -> outcome (option value))
      (rt : Runtime) (request : Request) (cards : list FlashcardData) :
  attemptWith read rt request = Return cards
  <-> cards <> []
      /\ exists content response data,
           fetch rt request = Return response
           /\ ok response = true
           /\ json response = Return data
           /\ read data = Return (Some (JString content))
           /\ content <> []
           /\ parseAIResponse content = Return cards.
Proof.
  unfold attemptWith. split.
  - intros H.
    destruct (fetch rt request) as [response|e] eqn:F; cbn [bindO] in H;
      [|discriminate H].
    destruct (ok response) eqn:O; cbn [negb] in H.
    2:{ destruct (@throwApiError_throws (list FlashcardData) response)
          as [e X].
        rewrite X in H. discriminate H. }
    destruct (json response) as [data|e] eqn:J; cbn [bindO] in H;
      [|discriminate H].
    destruct (read data) as [[content|]|e] eqn:R; cbn [bindO] in H;
      try discriminate H.
    destruct (truthy content) eqn:T; [|discriminate H].
    destruct (parseContent content) as [[|c l]|e] eqn:P; cbn [bindO] in H;
      try discriminate H.
    inversion H; subst cards.
    destruct (parseContent_string content c l T P) as (s & -> & N & S).
    split; [discriminate|].
    exists s, response, data. auto 10.
  - intros (N & content & response & data & F & O & J & R & C & P).
    rewrite F. cbn [bindO]. rewrite O. cbn [negb].
    rewrite J. cbn [bindO]. rewrite R. cbn [bindO].
    destruct content as [|u content]; [contradiction|].
    cbn [truthy parseContent]. rewrite P. cbn [bindO].
    destruct cards; [contradiction | reflexivity].
Qed.

(** Whatever the settings and whatever [fetch] and the service answer,
    the response of [generateFlashcards], of either provider, is well
    formed, and its cards are those of the reply: the response holds
    the cards [cards] exactly when the request of the provider - with
    the prompt [buildPrompt] makes - was answered with an [ok] status and
    a JSON body that holds, where the provider looks for the reply, a
    string that is not empty and from which [parseAIResponse] reads
    [cards], at least one; the response is then the one with [success],
    these cards and no error.  Without [success] it holds an error
    message and no cards. *)
Theorem generateFlashcards_result (rt : Runtime) (settings : AISettings)
        (text : jsstring) (cardTypes : list CardType) :
  wellFormed (createAIService settings rt text cardTypes)
  /\ served rt (requestOf settings text cardTypes)
            (createAIService settings rt text cardTypes)
  /\ forall cards,
       (AiService.cards (createAIService settings rt text cardTypes)
        = Some cards
        <-> cards <> []
            /\ exists content,
                 answered rt settings (requestOf settings text cardTypes)
                          content
                 /\ parseAIResponse content = Return cards)
       /\ (AiService.cards (createAIService settings rt text cardTypes)
           = Some cards
           -> createAIService settings rt text cardTypes
              = mkAIResponse true (Some cards) None).
Proof.
  remember (createAIService settings rt text cardTypes) as r eqn:Er.
  remember (requestOf settings text cardTypes) as request eqn:Eq.
  assert (W : wellFormed r /\ served rt request r).
  { subst r request. unfold createAIService, requestOf. cbv zeta.
    destruct (eqb_string (provider settings) (js "claude")).
    - apply claude_result.
    - apply openAI_result. }
  destruct W as [W S]. split; [exact W|]. split; [exact S|].
  intros cards.
  pose proof (attemptWith_cards (replyOf settings) rt request cards) as A.
  pose proof (createAIService_attempt rt settings text cardTypes) as E.
  rewrite <- Er, <- Eq in E. clear Er Eq. revert A E.
  destruct (attemptWith (replyOf settings) rt request) as [found|e];
    intros A E; rewrite E; cbn [AiService.cards].
  - split; [split|].
    + intros H. inversion H; subst found.
      destruct (proj1 A eq_refl)
        as (N & content & response & data & F & O & J & R & C & P).
      split; [exact N|]. exists content. split; [|exact P].
      exists response, data. auto 10.
    + intros (N & content & (response & data & F & O & J & R & C) & P).
      f_equal.
      assert (X : Return found = Return cards); [|inversion X; auto].
      apply (proj2 A). split; [exact N|].
      exists content, response, data. auto 10.
    + intros H. inversion H. reflexivity.
  - split; [split|]; try discriminate.
    intros (N & content & (response & data & F & O & J & R & C) & P).
    exfalso.
    assert (X : @Throw (list FlashcardData) e = Return cards);
      [|discriminate X].
    apply (proj2 A). split; [exact N|].
    exists content, response, data. auto 10.
Qed.

End AiServiceFacts.

(** ** A reply with a fenced block *)

Module FenceFacts.
Import Json RegExp RegExpFacts PromptBuilder CodeStatements ReplaceFacts
       CardGeneratorFacts.

Lemma search_head {R} (m : jsstring -> option R) (s : jsstring) (r : R) :
  m s = Some r -> search m s = Some r.
Proof. intros H. destruct s; simpl; rewrite H; reflexivity. Qed.

(** The search passes the places at which the pattern cannot match. *)
Lemma search_skip {R} (m : jsstring -> option R) (pre rest : jsstring) :
  (forall a b, pre = a ++ b -> b <> [] -> m (b ++ rest) = None) ->
  search m (pre ++ rest) = search m rest.
Proof.
  induction pre as [|c pre IH]; intros H; [reflexivity|].
  simpl. pose proof (H [] (c :: pre) eq_refl ltac:(discriminate)) as N.
  simpl in N. rewrite N. apply IH.
  intros a b -> NE. apply (H (c :: a) b eq_refl NE).
Qed.

Lemma fenceRe_head (c : code_unit) (t : jsstring) :
  c <> 96%N -> fenceRe (c :: t) = None.
Proof.
  intros N. unfold fenceRe, lit. js_literals. cbn [stripPrefix].
  destruct (N.eqb_spec 96 c); [congruence | reflexivity].
Qed.

Lemma fenceRe_nil : fenceRe [] = None.
Proof. reflexivity. Qed.

Lemma no_backtick (s a b : jsstring) (c : code_unit) :
  includes (js "`") s = false -> s = a ++ c :: b -> c <> 96%N.
Proof.
  intros I -> ->.
  assert (X : includes (js "`") (a ++ js "`" ++ b) = true)
    by (apply includes_spec; eauto).
  change (js "`" ++ b) with (96%N :: b) in X. congruence.
Qed.

Lemma white_no_backtick (w : jsstring) :
  forallb isWhiteSpace w = true -> includes (js "`") w = false.
Proof.
  intros W. destruct (includes (js "`") w) eqn:I; [|reflexivity].
  apply includes_spec in I. destruct I as (a & b & ->).
  rewrite forallb_app in W. apply andb_true_iff in W.
  destruct W as [_ W]. discriminate W.
Qed.

Lemma includes_app_false (p a b : jsstring) :
  includes (js "`") a = false -> includes (js "`") b = false ->
  p = js "`" -> includes p (a ++ b) = false.
Proof.
  intros A B ->. destruct (includes (js "`") (a ++ b)) eqn:I; [|reflexivity].
  apply includes_spec in I. destruct I as (x & y & E).
  change (js "`" ++ y) with (96%N :: y) in E.
  apply app_eq_app in E. destruct E as [l [[E1 E2] | [E1 E2]]].
  - destruct l as [|z l].
    + simpl in E2. subst b.
      exfalso. exact (no_backtick _ [] y 96%N B eq_refl eq_refl).
    + inversion E2; subst.
      exfalso. exact (no_backtick _ x l 96%N A eq_refl eq_refl).
  - subst. exfalso. exact (no_backtick _ l y 96%N B eq_refl eq_refl).
Qed.

(** The first backtick of a text stands at one place. *)
Lemma first_backtick (u u' v v' : jsstring) :
  includes (js "`") u = false -> includes (js "`") u' = false ->
  u ++ 96%N :: v = u' ++ 96%N :: v' -> u = u'.
Proof.
  revert u'. induction u as [|c u IH]; intros [|c' u'] U U' E.
  - reflexivity.
  - inversion E; subst.
    exfalso. exact (no_backtick _ [] u' 96%N U' eq_refl eq_refl).
  - inversion E; subst.
    exfalso. exact (no_backtick _ [] u 96%N U eq_refl eq_refl).
  - inversion E; subst. f_equal. apply IH; auto.
    + apply (includes_part _ _ [c'] u [] U). rewrite app_nil_r. reflexivity.
    + apply (includes_part _ _ [c'] u' [] U'). rewrite app_nil_r.
      reflexivity.
Qed.

(** When the continuation accepts what follows the longest run, [c*]
    takes the whole run. *)
Lemma greedyStar_longest {R} (cls : code_unit -> bool)
      (k : jsstring -> option R) (ws rest : jsstring) (r : R) :
  forallb cls ws = true ->
  match rest with c :: _ => cls c = false | [] => True end ->
  k rest = Some r ->
  greedyStar cls k (ws ++ rest) = Some r.
Proof.
  intros F H K. induction ws as [|c ws IH]; simpl.
  - destruct rest as [|c t]; [exact K|]. simpl. rewrite H. exact K.
  - simpl in F. apply andb_true_iff in F. destruct F as [C F].
    rewrite C, (IH F). reflexivity.
Qed.

(** The closing fence after white space. *)
Lemma close_after_white (group ws post : jsstring) :
  forallb isWhiteSpace ws = true ->
  greedyStar isWhiteSpace (lit (js "```") (fun _ => Some group))
             (ws ++ js "```" ++ post)
  = Some group.
Proof.
  intros W. apply greedyStar_longest; [exact W | reflexivity|].
  unfold lit. rewrite stripPrefix_app. reflexivity.
Qed.

(** Before the end of the payload the closing fence does not match. *)
Lemma no_close_before (group b ws post : jsstring) (y : code_unit) :
  includes (js "`") (b ++ [y]) = false ->
  isWhiteSpace y = false ->
  forallb isWhiteSpace ws = true ->
  greedyStar isWhiteSpace (lit (js "```") (fun _ => Some group))
             ((b ++ [y]) ++ ws ++ js "```" ++ post)
  = None.
Proof.
  intros B Y W.
  destruct (greedyStar isWhiteSpace (lit (js "```") (fun _ => Some group))
                       ((b ++ [y]) ++ ws ++ js "```" ++ post))
    as [r|] eqn:G; [|reflexivity].
  exfalso. apply greedyStar_inv in G.
  destruct G as (w & rest & E & F & L).
  unfold lit in L.
  destruct (stripPrefix (js "```") rest) as [rest'|] eqn:S;
    [|discriminate].
  apply stripPrefix_spec in S. subst rest.
  assert (X : (b ++ [y]) ++ ws = w).
  { apply (first_backtick _ _ (js "``" ++ post) (js "``" ++ rest')).
    - apply includes_app_false; auto. apply white_no_backtick. exact W.
    - apply white_no_backtick. exact F.
    - rewrite <- app_assoc. exact E. }
  subst w. rewrite !forallb_app in F. simpl in F. rewrite Y in F.
  rewrite andb_false_r in F. discriminate.
Qed.

Lemma forallb_anyChar (s : jsstring) : forallb anyChar s = true.
Proof. induction s; simpl; auto. Qed.

Lemma ends_alike (g u a b : jsstring) (y : code_unit) :
  g = u ++ [y] -> g = a ++ b -> b <> [] -> exists b', b = b' ++ [y].
Proof.
  intros -> E N. destruct (exists_last N) as (b' & z & ->).
  rewrite app_assoc in E. apply app_inj_tail in E.
  destruct E as [_ ->]. eauto.
Qed.

(** At an opening fence whose payload holds no backtick the pattern
    matches up to the next fence, and the group is the payload without
    the white space around it. *)
Lemma fenceRe_fenced (body post : jsstring) :
  includes (js "`") body = false ->
  fenceRe (js "```json" ++ body ++ js "```" ++ post) = Some (trim body).
Proof.
  intros I. unfold fenceRe, lit. rewrite stripPrefix_app.
  destruct (trim_white body) as (a & b & E & A & B).
  assert (G : trim body = []
              \/ exists x t u y,
                  trim body = x :: t /\ trim body = u ++ [y]
                  /\ isWhiteSpace x = false /\ isWhiteSpace y = false).
  { destruct (trim_cases body)
      as [N | [(x & N & X) | (x & mid & y & N & X & Y)]]; [auto | |];
      right.
    - exists x, [], [], x. auto.
    - exists x, (mid ++ [y]), (x :: mid), y. auto. }
  destruct G as [G | (x & t & u & y & G1 & G2 & X & Y)].
  - (* a payload of white space *)
    rewrite G in *. simpl in E.
    assert (W : forallb isWhiteSpace body = true)
      by (rewrite E, forallb_app, A, B; reflexivity).
    apply greedyStar_longest; [exact W | reflexivity|].
    apply (lazyStar_first anyChar _ [] (js "```" ++ post) []);
      [reflexivity | |].
    + intros a' b' E' N'. destruct a'; destruct b'; try discriminate.
      congruence.
    + apply (close_after_white [] [] post). reflexivity.
  - rewrite E at 1. repeat rewrite <- app_assoc.
    apply greedyStar_longest; [exact A | rewrite G1; exact X|].
    apply lazyStar_first; [apply forallb_anyChar | |].
    + intros a' b' E' N'.
      destruct (ends_alike _ u a' b' y G2 E' N') as [b'' ->].
      apply no_close_before; [|exact Y | exact B].
      apply (includes_part _ body (a ++ a') (b'' ++ [y]) b I).
      rewrite E at 1. rewrite E'. repeat rewrite <- app_assoc.
      reflexivity.
    + apply close_after_white. exact B.
Qed.

(** A reply that holds its payload in a [```json] fence is read as the
    payload alone: what stands before the fence and after it is ignored,
    for a payload and an introduction without backticks. *)
Theorem parseAIResponse_fenced (pre body post : jsstring) :
  includes (js "`") pre = false ->
  includes (js "`") body = false ->
  parseAIResponse (pre ++ js "```json" ++ body ++ js "```" ++ post)
  = parseAIResponse body.
Proof.
  intros P B.
  assert (J1 : jsonStrOf (pre ++ js "```json" ++ body ++ js "```" ++ post)
               = trim body).
  { unfold jsonStrOf. rewrite search_skip.
    - rewrite (search_head _ _ _ (fenceRe_fenced body post B)).
      reflexivity.
    - intros a b E N. destruct b as [|c b]; [congruence|].
      apply fenceRe_head. exact (no_backtick pre a b c P E). }
  assert (J2 : jsonStrOf body = body).
  { unfold jsonStrOf. rewrite <- (app_nil_r body) at 1.
    rewrite search_skip; [reflexivity|].
    intros a b E N. destruct b as [|c b]; [congruence|].
    apply fenceRe_head. exact (no_backtick body a b c B E). }
  unfold parseAIResponse, parseAIResponseBody. cbv zeta.
  rewrite J1, J2. unfold cleanJson.
  rewrite (trim_trimmed body). reflexivity.
Qed.

Lemma parseAIResponse_fenced_witness :
  parseAIResponse
    (js "Here are the cards: " ++ js "```json" ++ Statements.plainReply
        ++ js "```" ++ js " Good luck!")
  = parseAIResponse Statements.plainReply.
Proof.
  apply (parseAIResponse_fenced (js "Here are the cards: ")
           Statements.plainReply (js " Good luck!"));
    reflexivity.
Defined.

(** *** A reply without a fence *)

Lemma search_found {R} (m : jsstring -> option R) (s : jsstring) (r : R) :
  search m s = Some r -> exists a b, s = a ++ b /\ m b = Some r.
Proof.
  induction s as [|c s IH]; simpl.
  - destruct (m []) eqn:E; [|discriminate].
    intros H. inversion H; subst. exists [], []. auto.
  - destruct (m (c :: s)) eqn:E.
    + intros H. inversion H; subst. exists [], (c :: s). auto.
    + intros H. destruct (IH H) as (a & b & -> & M).
      exists (c :: a), b. auto.
Qed.

Lemma jsonStrOf_plain (response : jsstring) :
  includes (js "```json") response = false ->
  jsonStrOf response = response.
Proof.
  intros I. unfold jsonStrOf.
  destruct (search fenceRe response) as [group|] eqn:S; [|reflexivity].
  exfalso. apply search_found in S. destruct S as (a & b & -> & M).
  unfold fenceRe, lit in M.
  destruct (stripPrefix (js "```json") b) as [r|] eqn:P; [|discriminate].
  apply stripPrefix_spec in P. subst b.
  assert (X : includes (js "```json") (a ++ js "```json" ++ r) = true)
    by (apply includes_spec; eauto).
  congruence.
Qed.

(** Only a text that opens with a bracket is read as an array. *)
Lemma parseValue_array_opens (fuel : nat) (s r : jsstring)
      (items : list value) :
  parseValue fuel s = Some (JArray items, r) ->
  exists t, skipSpace s = 91%N :: t.
Proof.
  destruct fuel as [|f]; [discriminate|]. cbn [parseValue].
  destruct (skipSpace s) as [|c t]; [discriminate|].
  destruct (N.eqb_spec c 123).
  { destruct (skipSpace t) as [|c' t']; [discriminate|].
    destruct (c' =? 125)%N; [discriminate|].
    destruct (parseMembers f t) as [[ms r']|]; discriminate. }
  destruct (N.eqb_spec c 91); [subst; eauto|].
  destruct (c =? 34)%N.
  { destruct (parseChars t) as [[cs r']|]; discriminate. }
  destruct (c =? 116)%N.
  { destruct (stripPrefix (js "rue") t); discriminate. }
  destruct (c =? 102)%N.
  { destruct (stripPrefix (js "alse") t); discriminate. }
  destruct (c =? 110)%N.
  { destruct (stripPrefix (js "ull") t); discriminate. }
  destruct (parseNumber (c :: t)) as [[num r']|]; discriminate.
Qed.

Lemma isJsonSpace_white (c : code_unit) :
  isWhiteSpace c = false -> isJsonSpace c = false.
Proof.
  unfold isJsonSpace. intros W.
  destruct (N.eqb_spec c 9); [subst; discriminate W|].
  destruct (N.eqb_spec c 10); [subst; discriminate W|].
  destruct (N.eqb_spec c 13); [subst; discriminate W|].
  destruct (N.eqb_spec c 32); [subst; discriminate W|].
  reflexivity.
Qed.

Lemma consumes_trailingCommaRe (closer : string) :
  consumes (trailingCommaRe closer).
Proof.
  split; [reflexivity|]. intros c t r rest H.
  apply CleanJsonFacts.trailingCommaRe_inv in H.
  destruct H as (ws & E & _ & _).
  change (js ",") with [44%N] in E. cbn [app] in E.
  inversion E. exists (ws ++ js closer).
  rewrite <- app_assoc. reflexivity.
Qed.

(** The repair of trailing commas keeps the first character of a text,
    or puts the closing bracket for it. *)
Lemma trailingCommaRe_head (closer : string) (x c : code_unit)
      (t : jsstring) :
  js closer = [x] ->
  exists c' t',
    replaceAll (trailingCommaRe closer) (c :: t) = c' :: t'
    /\ (c' = c \/ c' = x).
Proof.
  intros X.
  destruct (trailingCommaRe closer (c :: t)) as [[r rest]|] eqn:E.
  - destruct (proj2 (consumes_trailingCommaRe closer) _ _ _ _ E)
      as [a ->].
    rewrite (replaceAll_match _ _ c a r rest E eq_refl).
    apply CleanJsonFacts.trailingCommaRe_inv in E.
    destruct E as (ws & _ & _ & ->). rewrite X. simpl. eauto.
  - rewrite (replaceAll_miss _ c t E). eauto.
Qed.

(** A reply without a [```json] fence is read as it stands: when it does
    not begin, after white space, with the bracket of an array, it gives
    no card, whatever array it holds further on. *)
Theorem parseAIResponse_without_fence (response : jsstring) :
  includes (js "```json") response = false ->
  startsWith (js "[") (trim response) = false ->
  parseAIResponse response = Return [].
Proof.
  intros I B. unfold parseAIResponse, parseAIResponseBody. cbv zeta.
  rewrite (jsonStrOf_plain response I). unfold cleanJson.
  assert (H : trim response = []
              \/ exists a t, trim response = a :: t
                             /\ isWhiteSpace a = false).
  { destruct (trim_cases response)
      as [E | [(a & E & A) | (a & mid & b & E & A & _)]]; eauto. }
  destruct H as [E | (a & t & E & A)]; rewrite E in *; [reflexivity|].
  assert (N : a <> 91%N).
  { intros ->. assert (X : startsWith (js "[") (91%N :: t) = true)
      by (apply startsWith_spec; exists t; reflexivity).
    congruence. }
  destruct (trailingCommaRe_head "]" 93%N a t eq_refl)
    as (c1 & t1 & -> & H1).
  destruct (trailingCommaRe_head "}" 125%N c1 t1 eq_refl)
    as (c2 & t2 & -> & H2).
  assert (S : isJsonSpace c2 = false /\ c2 <> 91%N).
  { destruct H2 as [->| ->]; [|split; [reflexivity | discriminate]].
    destruct H1 as [->| ->]; [|split; [reflexivity | discriminate]].
    split; [apply isJsonSpace_white; exact A | exact N]. }
  destruct S as [S N2]. unfold Json.parse.
  destruct (parseValue _ (c2 :: t2)) as [[v r]|] eqn:P; [|reflexivity].
  destruct v; try (destruct (skipSpace r); reflexivity).
  apply parseValue_array_opens in P. destruct P as [t' P].
  cbn [skipSpace] in P. rewrite S in P. inversion P. contradiction.
Qed.

Lemma parseAIResponse_without_fence_witness :
  parseAIResponse (js "Here are the cards: " ++ Statements.plainReply)
  = Return [].
Proof.
  apply (parseAIResponse_without_fence
           (js "Here are the cards: " ++ Statements.plainReply));
    reflexivity.
Defined.

End FenceFacts.

(** ** The card types switched on in the input panel *)

Module InputPanelFacts.
Import InputPanel CodeStatements.

Lemma sameType_eq (a b : CardType) : sameType a b = true <-> a = b.
Proof.
  unfold sameType. rewrite eqb_string_eq. split; [|congruence].
  destruct a; destruct b; intros H; try reflexivity; discriminate H.
Qed.

Lemma includes_type (cardType : CardType) (prev : list CardType) :
  existsb (fun t => sameType t cardType) prev = true <-> In cardType prev.
Proof.
  rewrite existsb_exists. split.
  - intros (t & I & S). apply sameType_eq in S. subst. exact I.
  - intros I. exists cardType. split; [exact I|]. apply sameType_eq.
    reflexivity.
Qed.

(** What [toggleCardType] does to the types switched on: the type is in
    the list afterwards exactly when it was not before, and the other
    types stay as they were. *)
Lemma toggleCardType_In (cardType t : CardType) (prev : list CardType) :
  In t (toggleCardType cardType prev)
  <-> (if sameType t cardType then ~ In cardType prev else In t prev).
Proof.
  unfold toggleCardType.
  destruct (existsb (fun t => sameType t cardType) prev) eqn:E.
  - apply includes_type in E. rewrite filter_In.
    destruct (sameType t cardType) eqn:S; simpl.
    + split; [intros [_ X]; discriminate | contradiction].
    + tauto.
  - assert (N : ~ In cardType prev).
    { intros I. apply includes_type in I. congruence. }
    rewrite in_app_iff. simpl.
    destruct (sameType t cardType) eqn:S.
    + apply sameType_eq in S. subst. tauto.
    + split; [|tauto]. intros [I|[X|[]]]; [exact I|].
      subst. rewrite (proj2 (sameType_eq t t) eq_refl) in S.
      discriminate.
Qed.

Lemma toggleCardType_NoDup (cardType : CardType) (prev : list CardType) :
  NoDup prev -> NoDup (toggleCardType cardType prev).
Proof.
  intros N. unfold toggleCardType.
  destruct (existsb (fun t => sameType t cardType) prev) eqn:E.
  - apply NoDup_filter. exact N.
  - apply NoDup_app; [exact N | repeat constructor; intros [] |].
    intros x I [X|[]]. subst x. apply includes_type in I. congruence.
Qed.

Lemma enabled_NoDup (types : list CardType) : enabled types -> NoDup types.
Proof.
  induction 1 as [|cardType prev _ IH].
  - repeat constructor; simpl; intuition discriminate.
  - apply toggleCardType_NoDup. exact IH.
Qed.

(** Whatever the user toggles, starting from the default types, no type
    is switched on twice; a toggle switches its type on when it was off,
    off when it was on, and leaves the other types as they were. *)
Theorem toggleCardType_enabled (cardType : CardType)
        (prev : list CardType) :
  enabled prev ->
  NoDup prev
  /\ NoDup (toggleCardType cardType prev)
  /\ (In cardType (toggleCardType cardType prev) <-> ~ In cardType prev)
  /\ (forall t, t <> cardType ->
                (In t (toggleCardType cardType prev) <-> In t prev)).
Proof.
  intros E. pose proof (enabled_NoDup prev E) as N.
  split; [exact N|]. split; [apply toggleCardType_NoDup; exact N|].
  split.
  - rewrite toggleCardType_In.
    rewrite (proj2 (sameType_eq cardType cardType) eq_refl). tauto.
  - intros t D. rewrite toggleCardType_In.
    destruct (sameType t cardType) eqn:S; [|tauto].
    apply sameType_eq in S. contradiction.
Qed.

Lemma toggleCardType_enabled_witness :
  NoDup (toggleCardType Cloze DEFAULT_CARD_TYPES)
  /\ toggleCardType Cloze DEFAULT_CARD_TYPES = [Basic; ListCard]
  /\ toggleCardType Cloze (toggleCardType Cloze DEFAULT_CARD_TYPES)
     = [Basic; ListCard; Cloze].
Proof.
  split; [|split; reflexivity].
  apply (toggleCardType_enabled Cloze DEFAULT_CARD_TYPES).
  constructor.
Defined.

End InputPanelFacts.

(** ** The repair of trailing commas *)

Module RepairFacts.
Import Json RegExp RegExpFacts PromptBuilder Statements CodeStatements
       ReplaceFacts FenceFacts.

(** The white space a text starts with ends at one place. *)
Lemma first_other (x y : code_unit) (a a' s s' : jsstring) :
  isWhiteSpace x = false -> isWhiteSpace y = false ->
  forallb isWhiteSpace a = true -> forallb isWhiteSpace a' = true ->
  a ++ x :: s = a' ++ y :: s' -> a = a' /\ x = y /\ s = s'.
Proof.
  intros X Y. revert a'.
  induction a as [|c a IH]; intros [|c' a'] A A' E; simpl in *.
  - inversion E. auto.
  - inversion E; subst. rewrite X in A'. discriminate.
  - inversion E; subst. rewrite Y in A. discriminate.
  - inversion E; subst.
    apply andb_true_iff in A. apply andb_true_iff in A'.
    destruct (IH a' (proj2 A) (proj2 A') H1) as (-> & -> & ->). auto.
Qed.

(** [c*] finds a match when there is one. *)
Lemma greedyStar_finds {R} (cls : code_unit -> bool)
      (k : jsstring -> option R) (ws rest : jsstring) (r : R) :
  forallb cls ws = true -> k rest = Some r ->
  exists r', greedyStar cls k (ws ++ rest) = Some r'.
Proof.
  intros F K. induction ws as [|c ws IH]; simpl.
  - destruct rest as [|c t]; simpl; [eauto|].
    destruct (cls c); [|eauto].
    destruct (greedyStar cls k t); eauto.
  - simpl in F. apply andb_true_iff in F. destruct F as [C F].
    rewrite C. destruct (IH F) as [r' ->]. eauto.
Qed.

Section Closer.
Variable closer : string.
Variable x : code_unit.
Hypothesis closer_is : js closer = [x].
Hypothesis closer_black : isWhiteSpace x = false.

(** The pattern matches exactly at a trailing comma, puts the bracket
    for it and goes on behind the bracket. *)
Lemma trailingCommaRe_at (s : jsstring) :
  (trailingCommaAt (js closer) s ->
   exists rest, trailingCommaRe closer s = Some (js closer, rest))
  /\ (trailingCommaRe closer s = None -> ~ trailingCommaAt (js closer) s).
Proof.
  assert (A : trailingCommaAt (js closer) s ->
              exists rest,
                trailingCommaRe closer s = Some (js closer, rest)).
  { intros (ws & rest & -> & W).
    unfold trailingCommaRe, lit at 1.
    change (stripPrefix (js ",") (44%N :: ws ++ js closer ++ rest))
      with (Some (ws ++ js closer ++ rest)).
    destruct (greedyStar_finds
                isWhiteSpace
                (lit (js closer) (fun rest => Some (js closer, rest)))
                ws (js closer ++ rest) (js closer, rest) W)
      as [[r rest'] G].
    { unfold lit. rewrite stripPrefix_app. reflexivity. }
    rewrite G. pose proof G as G'.
    apply greedyStar_inv in G'. destruct G' as (w & s2 & _ & _ & L).
    unfold lit in L. destruct (stripPrefix (js closer) s2); [|discriminate].
    inversion L; subst. eauto. }
  split; [exact A|].
  intros N T. destruct (A T) as [rest E]. congruence.
Qed.

Lemma trailingCommaRe_rest (ws rest : jsstring) :
  forallb isWhiteSpace ws = true ->
  trailingCommaRe closer (44%N :: ws ++ js closer ++ rest)
  = Some (js closer, rest).
Proof.
  intros W.
  destruct (proj1 (trailingCommaRe_at (44%N :: ws ++ js closer ++ rest)))
    as [rest' E]; [exists ws, rest; auto|].
  rewrite E. f_equal. f_equal.
  apply CleanJsonFacts.trailingCommaRe_inv in E.
  destruct E as (ws' & E & W' & _).
  change (js "," ++ ws' ++ js closer ++ rest')
    with (44%N :: ws' ++ js closer ++ rest') in E.
  inversion E as [E']. rewrite closer_is in E'. simpl in E'.
  destruct (first_other x x ws ws' rest rest'
              closer_black closer_black W W' E') as (_ & _ & H).
  symmetry. exact H.
Qed.

(** One pass of the repair does what [Repaired] says ... *)
Lemma replaceAll_Repaired (s : jsstring) :
  Repaired (js closer) s (replaceAll (trailingCommaRe closer) s).
Proof.
  apply (replaceAll_scan (trailingCommaRe closer)
           (Repaired (js closer)) (consumes_trailingCommaRe closer)).
  - constructor.
  - intros c t out E R. constructor; [|exact R].
    apply (proj2 (trailingCommaRe_at (c :: t)) E).
  - intros c a r rest out E R.
    destruct (CleanJsonFacts.trailingCommaRe_inv _ _ _ _ E)
      as (ws & S & W & ->).
    rewrite S.
    change (js "," ++ ws ++ js closer ++ rest)
      with (44%N :: ws ++ js closer ++ rest).
    constructor; assumption.
Qed.

(** ... and [Repaired] leaves no choice. *)
Lemma Repaired_functional (s t t' : jsstring) :
  Repaired (js closer) s t -> Repaired (js closer) s t' -> t = t'.
Proof.
  intros H. revert t'.
  induction H as [|c s t N H IH|ws s t W H IH]; intros t' H'.
  - inversion H'. reflexivity.
  - inversion H' as [|c0 s0 t0 N0 R0|ws0 s0 t0 W0 R0]; subst.
    + f_equal. apply IH. exact R0.
    + exfalso. apply N. exists ws0, s0. auto.
  - inversion H' as [|c0 s0 t0 N0 R0 E0|ws0 s0 t0 W0 R0 E0]; subst.
    + exfalso. apply N0. exists ws, s. auto.
    + rewrite closer_is in E0. simpl in E0.
      destruct (first_other x x ws0 ws s0 s
                  closer_black closer_black W0 W E0) as (_ & _ & ->).
      f_equal. apply IH. exact R0.
Qed.

Lemma replaceAll_Repaired_iff (s t : jsstring) :
  replaceAll (trailingCommaRe closer) s = t <-> Repaired (js closer) s t.
Proof.
  split.
  - intros <-. apply replaceAll_Repaired.
  - intros R. apply (Repaired_functional s _ _ (replaceAll_Repaired s) R).
Qed.

(** Text without a comma is copied. *)
Lemma replaceAll_no_comma (pre s : jsstring) :
  ~ In 44%N pre ->
  replaceAll (trailingCommaRe closer) (pre ++ s)
  = pre ++ replaceAll (trailingCommaRe closer) s.
Proof.
  induction pre as [|c pre IH]; intros N; [reflexivity|].
  simpl. rewrite replaceAll_miss.
  - rewrite IH; [reflexivity|]. intros I. apply N. right. exact I.
  - unfold trailingCommaRe, lit at 1.
    change (js ",") with [44%N]. cbn [stripPrefix].
    destruct (N.eqb_spec 44 c) as [<-|_]; [|reflexivity].
    exfalso. apply N. left. reflexivity.
Qed.

Lemma replaceAll_trailing (ws rest : jsstring) :
  forallb isWhiteSpace ws = true ->
  replaceAll (trailingCommaRe closer) (44%N :: ws ++ js closer ++ rest)
  = js closer ++ replaceAll (trailingCommaRe closer) rest.
Proof.
  intros W.
  apply (replaceAll_match _ _ 44%N (ws ++ js closer) (js closer) rest
           (trailingCommaRe_rest ws rest W)).
  rewrite <- app_assoc. reflexivity.
Qed.
End Closer.

(** A comma in front of one bracket is no trailing comma of the other. *)
Lemma trailingCommaRe_other (closer : string) (x y : code_unit)
      (ws rest : jsstring) :
  js closer = [x] -> isWhiteSpace x = false -> isWhiteSpace y = false ->
  x <> y -> forallb isWhiteSpace ws = true ->
  trailingCommaRe closer (44%N :: ws ++ y :: rest) = None.
Proof.
  intros C X Y D W.
  destruct (trailingCommaRe closer (44%N :: ws ++ y :: rest))
    as [[r rest']|] eqn:E; [|reflexivity].
  apply CleanJsonFacts.trailingCommaRe_inv in E.
  destruct E as (ws' & E & W' & _).
  change (js "," ++ ws' ++ js closer ++ rest')
    with (44%N :: ws' ++ js closer ++ rest') in E.
  inversion E as [E']. rewrite C in E'. simpl in E'.
  destruct (first_other y x ws ws' rest rest' Y X W W' E') as (_ & H & _).
  congruence.
Qed.

Lemma white_no_comma (ws : jsstring) :
  forallb isWhiteSpace ws = true -> ~ In 44%N ws.
Proof.
  intros W I. rewrite forallb_forall in W. specialize (W _ I).
  discriminate.
Qed.

(** *** Trimming *)

Lemma trimStart_all_white (s : jsstring) :
  forallb isWhiteSpace s = true -> trimStart s = [].
Proof.
  induction s as [|c s IH]; simpl; [reflexivity|].
  intros H. apply andb_true_iff in H. destruct H as [-> H]. auto.
Qed.

Lemma trimEnd_all_white (s : jsstring) :
  forallb isWhiteSpace s = true -> trimEnd s = [].
Proof.
  induction s as [|c s IH]; simpl; [reflexivity|].
  intros H. apply andb_true_iff in H. destruct H as [-> H].
  rewrite (IH H). reflexivity.
Qed.

Lemma trimStart_app_white (a s : jsstring) :
  forallb isWhiteSpace a = true -> trimStart (a ++ s) = trimStart s.
Proof.
  induction a as [|c a IH]; simpl; [reflexivity|].
  intros H. apply andb_true_iff in H. destruct H as [-> H]. auto.
Qed.

Lemma trimEnd_app_white (s b : jsstring) :
  forallb isWhiteSpace b = true -> trimEnd (s ++ b) = trimEnd s.
Proof.
  intros B. induction s as [|c s IH]; simpl.
  - apply trimEnd_all_white. exact B.
  - rewrite IH. reflexivity.
Qed.

(** [trim] takes the white space off the two ends, and nothing else. *)
Lemma trim_coreOf (s core : jsstring) : trim s = core <-> coreOf s core.
Proof.
  split.
  - intros <-. destruct (trim_white s) as (a & b & E & A & B).
    exists a, b. repeat split; try assumption.
    + intros c t T.
      destruct (trim_cases s)
        as [N | [(x & N & X) | (x & mid & y & N & X & Y)]];
        rewrite N in T; inversion T; subst; assumption.
    + intros t c T.
      destruct (trim_cases s)
        as [N | [(x & N & X) | (x & mid & y & N & X & Y)]];
        rewrite N in T.
      * destruct t; discriminate.
      * change [x] with ([] ++ [x]) in T.
        apply app_inj_tail in T. destruct T as [_ <-]. exact X.
      * change (x :: mid ++ [y]) with ((x :: mid) ++ [y]) in T.
        apply app_inj_tail in T. destruct T as [_ <-]. exact Y.
  - intros (a & b & -> & A & B & First & Last).
    unfold trim. rewrite (trimStart_app_white a _ A).
    destruct core as [|x m].
    + simpl. rewrite (trimStart_all_white b B). reflexivity.
    + simpl. rewrite (First x m eq_refl).
      change (x :: m ++ b) with ((x :: m) ++ b).
      rewrite (trimEnd_app_white _ b B).
      destruct (@exists_last _ (x :: m)) as (t & c & E); [discriminate|].
      rewrite E. apply trimEnd_snoc. apply (Last t c E).
Qed.

Lemma cleanJson_Repaired (jsonStr t : jsstring) :
  cleanJson jsonStr = t
  <-> exists core mid,
        coreOf jsonStr core
        /\ Repaired (js "]") core mid /\ Repaired (js "}") mid t.
Proof.
  unfold cleanJson. split.
  - intros <-.
    exists (trim jsonStr), (replaceAll (trailingCommaRe "]") (trim jsonStr)).
    split; [apply trim_coreOf; reflexivity|].
    split; apply replaceAll_Repaired.
  - intros (core & mid & C & R1 & R2).
    apply trim_coreOf in C. rewrite C.
    apply (replaceAll_Repaired_iff "]" 93%N eq_refl eq_refl) in R1.
    rewrite R1.
    apply (replaceAll_Repaired_iff "}" 125%N eq_refl eq_refl). exact R2.
Qed.

(** A bracketed text without commas but the trailing one. *)
Lemma cleanJson_trailing (opener closer : code_unit) (x ws : jsstring) :
  (closer = 93%N \/ closer = 125%N) ->
  isWhiteSpace opener = false ->
  ~ In 44%N (opener :: x) -> forallb isWhiteSpace ws = true ->
  cleanJson (opener :: x ++ 44%N :: ws ++ [closer]) = opener :: x ++ [closer].
Proof.
  intros C O N W.
  assert (K : isWhiteSpace closer = false)
    by (destruct C as [-> | ->]; reflexivity).
  assert (T : trim (opener :: x ++ 44%N :: ws ++ [closer])
              = opener :: x ++ 44%N :: ws ++ [closer]).
  { replace (x ++ 44%N :: ws ++ [closer])
      with ((x ++ 44%N :: ws) ++ [closer])
      by (rewrite <- app_assoc; reflexivity).
    apply (trimmed_between opener closer _ O K). }
  unfold cleanJson. rewrite T.
  change (opener :: x ++ 44%N :: ws ++ [closer])
    with ((opener :: x) ++ 44%N :: ws ++ [closer]).
  destruct C as [-> | ->].
  - rewrite (replaceAll_no_comma "]" _ _ N).
    change [93%N] with (js "]" ++ []).
    rewrite (replaceAll_trailing "]" 93%N eq_refl eq_refl ws [] W).
    rewrite replaceAll_nil, app_nil_r.
    rewrite (replaceAll_no_comma "}" _ (js "]") N).
    reflexivity.
  - rewrite (replaceAll_no_comma "]" _ _ N).
    rewrite (replaceAll_miss _ _ _
               (trailingCommaRe_other "]" 93%N 125%N ws []
                  eq_refl eq_refl eq_refl ltac:(discriminate) W)).
    assert (P : replaceAll (trailingCommaRe "]") (ws ++ [125%N])
                = ws ++ [125%N]).
    { rewrite <- (app_nil_r (ws ++ [125%N])) at 1.
      rewrite (replaceAll_no_comma "]"); [apply app_nil_r|].
      intros I. apply in_app_or in I. destruct I as [I | [I | []]].
      - apply (white_no_comma ws W I).
      - discriminate. }
    rewrite P.
    change [125%N] with (js "}" ++ []).
    rewrite (replaceAll_no_comma "}" _ _ N).
    rewrite (replaceAll_trailing "}" 125%N eq_refl eq_refl ws [] W).
    rewrite replaceAll_nil, app_nil_r. reflexivity.
Qed.

(** C6, as amended.  Between the extraction of the payload and
    [JSON.parse] the text is changed in these ways and no other: the white
    space at its two ends is taken off; then, reading from the left, every
    comma that is followed - directly or after white space - by a closing
    square bracket is taken out together with that white space; then the
    same is done, in the result, for the closing brace.  Every other
    character stays in its place, and the three steps determine the text
    that is parsed.  So an array or object whose only comma is a trailing
    one loses that comma and the white space behind it, and the fenced
    reply of the specification gives the one basic card. *)
Theorem cleanJson_strips_trailing_commas :
  (forall jsonStr t,
      cleanJson jsonStr = t
      <-> exists core mid,
            coreOf jsonStr core
            /\ Repaired (js "]") core mid /\ Repaired (js "}") mid t)
  /\ (forall x ws,
         ~ In 44%N x -> forallb isWhiteSpace ws = true ->
         cleanJson (js "[" ++ x ++ js "," ++ ws ++ js "]")
         = js "[" ++ x ++ js "]"
         /\ cleanJson (js "{" ++ x ++ js "," ++ ws ++ js "}")
            = js "{" ++ x ++ js "}")
  /\ parseAIResponse fencedTrailingComma
     = Return [mkCard Basic (js "Q") (BackString (js "A")) None].
Proof.
  split; [exact cleanJson_Repaired|]. split.
  - intros x ws N W. split.
    + apply (cleanJson_trailing 91%N 93%N x ws); auto.
      intros [I | I]; [discriminate | exact (N I)].
    + apply (cleanJson_trailing 123%N 125%N x ws); auto.
      intros [I | I]; [discriminate | exact (N I)].
  - vm_compute. reflexivity.
Qed.

Lemma cleanJson_strips_trailing_commas_witness :
  forallb isWhiteSpace (js " ") = true
  /\ cleanJson (js "[" ++ js "1" ++ js "," ++ js " " ++ js "]")
     = js "[" ++ js "1" ++ js "]"
  /\ cleanJson (js "{" ++ js "1" ++ js "," ++ js " " ++ js "}")
     = js "{" ++ js "1" ++ js "}".
Proof.
  split; [reflexivity|].
  apply (proj1 (proj2 cleanJson_strips_trailing_commas)
               (js "1") (js " ")).
  - vm_compute. intuition discriminate.
  - reflexivity.
Defined.

(** The repair is more than taking out the commas that stand directly in
    front of a closing bracket: with a space between the comma and the
    bracket, and with a byte order mark in front of the array, the code
    gives the card, while the text with only those commas taken out is
    no JSON text. *)
Lemma cleanJson_strips_white_space :
  cleanJson spacedTrailingComma = js "[" ++ questionText ++ js "]"
  /\ stripImmediate spacedTrailingComma = spacedTrailingComma
  /\ parseAIResponse spacedTrailingComma
     = Return [mkCard Basic (js "Q") (BackString (js "A")) None]
  /\ Json.parse (stripImmediate spacedTrailingComma) = Throw SyntaxError
  /\ cleanJson markedReply = js "[" ++ questionText ++ js "]"
  /\ stripImmediate markedReply = markedReply
  /\ parseAIResponse markedReply
     = Return [mkCard Basic (js "Q") (BackString (js "A")) None]
  /\ Json.parse (stripImmediate markedReply) = Throw SyntaxError.
Proof. vm_compute. repeat split; reflexivity. Qed.

End RepairFacts.

(** ** The rewriting of numbered deletions *)

Module ClozeFacts.
Import RegExp RegExpFacts CardGenerator Statements CodeStatements
       CardGeneratorFacts ReplaceFacts.

(** [(c*?)] captures the shortest group the continuation accepts. *)
Lemma lazyStar_shortest {R} (cls : code_unit -> bool)
      (k : jsstring -> jsstring -> option R) (s : jsstring) (r : R) :
  lazyStar cls k s = Some r ->
  exists group rest,
    s = group ++ rest
    /\ forallb cls group = true
    /\ k group rest = Some r
    /\ forall a b, group = a ++ b -> b <> [] -> k a (b ++ rest) = None.
Proof.
  revert k. induction s as [|c t IH]; intros k; simpl.
  - destruct (k [] []) eqn:E; [|discriminate].
    intros H. inversion H; subst. exists [], [].
    repeat split; auto.
    intros a b X N. destruct a; destruct b; try discriminate. congruence.
  - destruct (k [] (c :: t)) eqn:E.
    + intros H. inversion H; subst. exists [], (c :: t).
      repeat split; auto.
      intros a b X N. destruct a; destruct b; try discriminate. congruence.
    + destruct (cls c) eqn:C; [|discriminate].
      intros H. destruct (IH _ H) as (g & rest & -> & F & K & M).
      exists (c :: g), rest. simpl. rewrite C, F.
      repeat split; auto.
      intros a b X N. destruct a as [|x a].
      * simpl in X. subst b. exact E.
      * inversion X; subst. apply (M a b eq_refl N).
Qed.

(** A group that no [}}] comes before holds none, and ends in no
    brace. *)
Lemma shortest_group (x rest : jsstring) :
  (forall a b, x = a ++ b -> b <> [] ->
               stripPrefix (js "}}") (b ++ js "}}" ++ rest) = None) ->
  includes (js "}}") (x ++ js "}") = false.
Proof.
  intros M. destruct (includes (js "}}") (x ++ js "}")) eqn:I;
    [|reflexivity].
  exfalso. apply includes_spec in I. destruct I as (a & b & E).
  change (js "}") with [125%N] in E.
  destruct b as [|b0 b1].
  - rewrite app_nil_r in E.
    change (js "}}") with ([125%N] ++ [125%N]) in E.
    rewrite app_assoc in E. apply app_inj_tail in E. destruct E as [E _].
    pose proof (M a [125%N] E ltac:(discriminate)) as X.
    discriminate X.
  - destruct (@exists_last _ (b0 :: b1)) as (b' & y & B);
      [discriminate|].
    rewrite B in E.
    rewrite !app_assoc in E. apply app_inj_tail in E. destruct E as [E _].
    rewrite <- app_assoc in E.
    pose proof (M a (js "}}" ++ b') E ltac:(discriminate)) as X.
    rewrite <- app_assoc in X. rewrite stripPrefix_app in X.
    discriminate X.
Qed.

(** The pattern matches exactly at a numbered deletion, and gives the
    bare form for it. *)
Lemma numberedClozeRe_inv (s replacement rest : jsstring) :
  numberedClozeRe s = Some (replacement, rest) ->
  exists x, numberedAt s x rest /\ replacement = js "{{" ++ x ++ js "}}".
Proof.
  unfold numberedClozeRe, lit at 1.
  destruct (stripPrefix (js "{{c") s) as [s1|] eqn:P; [|discriminate].
  apply stripPrefix_spec in P. subst s.
  unfold greedyPlus. destruct s1 as [|d t]; [discriminate|].
  destruct (isDigit d) eqn:D; [|discriminate].
  intros G. apply greedyStar_inv in G.
  destruct G as (ds & s2 & -> & F & K).
  unfold lit at 1 in K.
  destruct (stripPrefix (js "::") s2) as [s3|] eqn:Q; [|discriminate].
  apply stripPrefix_spec in Q. subst s2.
  apply lazyStar_shortest in K.
  destruct K as (x & s4 & -> & L & K & M).
  unfold lit in K.
  destruct (stripPrefix (js "}}") s4) as [s5|] eqn:T; [|discriminate].
  apply stripPrefix_spec in T. subst s4.
  inversion K; subst. exists x. split; [|reflexivity].
  exists (d :: ds). split; [|split; [discriminate|split; [|split]]].
  - reflexivity.
  - simpl. rewrite D, F. reflexivity.
  - exact L.
  - apply (shortest_group x rest). intros a b E B.
    specialize (M a b E B). unfold lit in M.
    destruct (stripPrefix (js "}}") (b ++ js "}}" ++ rest));
      [discriminate | reflexivity].
Qed.

Lemma numberedClozeRe_at (s x rest : jsstring) :
  numberedAt s x rest
  -> numberedClozeRe s = Some (js "{{" ++ x ++ js "}}", rest).
Proof.
  intros (n & -> & N & D & L & I).
  apply numberedClozeRe_form; assumption.
Qed.

Lemma consumes_numberedClozeRe : consumes numberedClozeRe.
Proof.
  split; [reflexivity|]. intros c t r rest H.
  apply numberedClozeRe_inv in H.
  destruct H as (x & (n & E & _) & _).
  change (js "{{c") with (123%N :: js "{c") in E. cbn [app] in E.
  inversion E.
  exists (js "{c" ++ n ++ js "::" ++ x ++ js "}}").
  rewrite <- !app_assoc. reflexivity.
Qed.

(** The replacement does what [Rewritten] says ... *)
Lemma replaceAll_Rewritten (s : jsstring) :
  Rewritten s (replaceAll numberedClozeRe s).
Proof.
  apply (replaceAll_scan numberedClozeRe Rewritten
           consumes_numberedClozeRe).
  - constructor.
  - intros c t out E R. constructor; [|exact R].
    intros x rest A. apply numberedClozeRe_at in A. congruence.
  - intros c a r rest out E R.
    destruct (numberedClozeRe_inv _ _ _ E) as (x & A & ->).
    rewrite <- !app_assoc.
    apply (Rewritten_form _ x rest out A R).
Qed.

(** ... and [Rewritten] leaves no choice. *)
Lemma Rewritten_functional (s t t' : jsstring) :
  Rewritten s t -> Rewritten s t' -> t = t'.
Proof.
  intros H. revert t'.
  induction H as [|c s t N H IH|s x rest t A H IH]; intros t' H'.
  - inversion H' as [| |s0 x0 rest0 t0 A0 R0]; [reflexivity|].
    apply numberedClozeRe_at in A0. discriminate A0.
  - inversion H' as [|c0 s0 t0 N0 R0|s0 x0 rest0 t0 A0 R0]; subst.
    + f_equal. apply IH. exact R0.
    + exfalso. apply (N x0 rest0 A0).
  - inversion H' as [|c0 s0 t0 N0 R0|s0 x0 rest0 t0 A0 R0]; subst.
    + apply numberedClozeRe_at in A. discriminate A.
    + exfalso. apply (N0 x rest A).
    + apply numberedClozeRe_at in A. apply numberedClozeRe_at in A0.
      rewrite A in A0. inversion A0 as [[X Y]].
      apply app_inv_tail in X. subst x0 rest0.
      do 3 f_equal. apply IH. exact R0.
Qed.

Lemma replaceAll_Rewritten_iff (s t : jsstring) :
  replaceAll numberedClozeRe s = t <-> Rewritten s t.
Proof.
  split.
  - intros <-. apply replaceAll_Rewritten.
  - intros R. apply (Rewritten_functional s _ _ (replaceAll_Rewritten s) R).
Qed.

(** A cloze card with a text is rendered by one creation call, and its
    markup is the text with every numbered deletion [{{cN::X}}] that
    stands on one line - [N] one or more digits, [X] without a line
    terminator and closed by the first [}}] after it - replaced by
    [{{X}}], reading from the left and going on behind each deletion
    found; every other character, the bare forms [{{X}}] and the numbered
    forms over more than one line included, is kept as it stands. *)
Theorem createClozeCard_rewritten
        (h : host) (log : list call) (card : FlashcardData)
        (parentRemId : option jsstring) (text : jsstring) :
  clozeText card = Some text -> text <> [] ->
  (exists markup, Rewritten text markup)
  /\ forall markup,
       Rewritten text markup ->
       run h log (createClozeCard card parentRemId)
       = (h (log ++ [(markup, parentRemId)]),
          log ++ [(markup, parentRemId)]).
Proof.
  intros C N. split.
  - exists (replaceAll numberedClozeRe text). apply replaceAll_Rewritten.
  - intros markup R. apply replaceAll_Rewritten_iff in R. subst markup.
    unfold createClozeCard. rewrite C.
    destruct text as [|c t]; [congruence|]. apply run_create.
Qed.

Lemma createClozeCard_rewritten_witness :
  Rewritten (js "A {{cell}} has {{c1::DNA}}") (js "A {{cell}} has {{DNA}}")
  /\ run creatingHost []
         (createClozeCard
            (mkCard Cloze [] (BackString [])
                    (Some (js "A {{cell}} has {{c1::DNA}}")))
            None)
     = (Return (Some (mkRem (js "rem1"))),
        [(js "A {{cell}} has {{DNA}}", None)]).
Proof.
  assert (R : Rewritten (js "A {{cell}} has {{c1::DNA}}")
                        (js "A {{cell}} has {{DNA}}")).
  { apply replaceAll_Rewritten_iff. vm_compute. reflexivity. }
  split; [exact R|].
  apply (proj2 (createClozeCard_rewritten
                  creatingHost []
                  (mkCard Cloze [] (BackString [])
                          (Some (js "A {{cell}} has {{c1::DNA}}")))
                  None (js "A {{cell}} has {{c1::DNA}}")
                  eq_refl ltac:(discriminate))
               (js "A {{cell}} has {{DNA}}") R).
Defined.

End ClozeFacts.
